(** * cashews: key templates, template registry, rate limiter and perf breaker

    A shallow embedding of [cashews/formatter.py], [cashews/decorators/rate.py]
    and [cashews/decorators/perf.py], with the properties of the specification
    stated over it. *)

From Stdlib Require Import ZArith QArith Qcanon Ascii String DecimalString Lia.
From stdpp Require Import strings numbers gmap fin_maps list.
Import ListNotations.
Open Scope Z_scope.
Open Scope string_scope.
Open Scope list_scope.

(** ** Exceptions and results *)

(** The Python exceptions the three modules can raise or let through.
    [UserError] stands for any exception raised by caller-supplied code
    (the wrapped function, a custom action, a custom perf condition).
    [Unmodelled] is not a Python exception: it marks an input on which the
    library code is not modelled here (a regular-expression construct
    outside the fragment of [Re], an exhausted recursion bound). *)
Inductive exn : Type :=
| KeyError
| AttributeError
| IndexError
| TypeError
| ValueError
| ReError
| StatisticsError
| RateLimitException
| PerfDegradationException
| UserError (tag : string)
| Unmodelled (what : string).

Inductive result (A : Type) : Type :=
| Ok (a : A)
| Raise (e : exn).
Arguments Ok {A} a.
Arguments Raise {A} e.

Definition is_ok {A} (r : result A) : bool :=
  match r with Ok _ => true | Raise _ => false end.

Definition rbind {A B} (r : result A) (k : A -> result B) : result B :=
  match r with Ok a => k a | Raise e => Raise e end.

(** ** Python values and strings *)

Module Py.

(** The values a template is formatted with: [None], booleans, integers,
    strings and lists of integers. *)
Inductive pyval : Type :=
| VNone
| VBool (b : bool)
| VInt (n : Z)
| VStr (s : string)
| VList (l : list Z).

Definition str_of_Z (n : Z) : string := NilZero.string_of_int (Z.to_int n).

Fixpoint join (sep : string) (l : list string) : string :=
  match l with
  | [] => ""
  | [x] => x
  | x :: l' => x +:+ sep +:+ join sep l'
  end.

(** [str(value)]. *)
Definition str (v : pyval) : string :=
  match v with
  | VNone => "None"
  | VBool true => "True"
  | VBool false => "False"
  | VInt n => str_of_Z n
  | VStr s => s
  | VList l => "[" +:+ join ", " (map str_of_Z l) +:+ "]"
  end.

(** [c in s]. *)
Fixpoint contains (c : ascii) (s : string) : bool :=
  match s with
  | EmptyString => false
  | String a s' => if Ascii.eqb a c then true else contains c s'
  end.

(** [s.split(c, 1)] for a string [s] that contains [c]: the text before the
    first [c] and the text after it. *)
Fixpoint split_once (c : ascii) (s : string) : string * string :=
  match s with
  | EmptyString => ("", "")
  | String a s' =>
      if Ascii.eqb a c then ("", s')
      else let '(l, r) := split_once c s' in (String a l, r)
  end.

(** [s.replace(c, "")]. *)
Fixpoint remove_char (c : ascii) (s : string) : string :=
  match s with
  | EmptyString => ""
  | String a s' =>
      if Ascii.eqb a c then remove_char c s' else String a (remove_char c s')
  end.

(** [s.replace(c, d)] for single characters. *)
Fixpoint replace_char (c d : ascii) (s : string) : string :=
  match s with
  | EmptyString => ""
  | String a s' =>
      String (if Ascii.eqb a c then d else a) (replace_char c d s')
  end.

(** [s.split(c)]: never empty; the empty string splits into one empty
    string. *)
Fixpoint split (c : ascii) (s : string) : list string :=
  match s with
  | EmptyString => [""]
  | String a s' =>
      if Ascii.eqb a c then "" :: split c s'
      else match split c s' with
           | [] => [String a ""]
           | x :: l => String a x :: l
           end
  end.

(** [s.split(c, 2)]: at most three pieces. *)
Definition split2 (c : ascii) (s : string) : list string :=
  if contains c s then
    let '(a, r) := split_once c s in
    if contains c r then let '(b, r') := split_once c r in [a; b; r']
    else [a; r]
  else [s].

(** [str.lower] on the ASCII letters. *)
Definition lower_ascii (a : ascii) : ascii :=
  let n := nat_of_ascii a in
  if ((65 <=? n) && (n <=? 90))%nat then ascii_of_nat (n + 32) else a.
Fixpoint lower (s : string) : string :=
  match s with
  | EmptyString => ""
  | String a s' => String (lower_ascii a) (lower s')
  end.

End Py.

(** ** formatter.py: [string.Formatter] and its two subclasses *)

Module Formatter.
Import Py.

(** *** The template parser of [string.Formatter.parse] *)

(** A replacement field as [Formatter.parse] yields it. *)
Record field : Type := Field {
  field_name : string;
  format_spec : string;
  conversion : option ascii
}.

(** One item of [Formatter.parse]: literal text followed by an optional
    replacement field. *)
Definition token : Type := string * option field.

Definition is_brace (c : ascii) : bool :=
  Ascii.eqb c "{" || Ascii.eqb c "}".

(** The text up to the first brace, then that brace and what follows it. *)
Fixpoint scan_literal (s : string) : string * option (ascii * string) :=
  match s with
  | EmptyString => ("", None)
  | String c s' =>
      if is_brace c then ("", Some (c, s'))
      else let '(l, r) := scan_literal s' in (String c l, r)
  end.

(** The field name: it ends at the first of the characters right brace,
    colon and exclamation mark met outside square brackets; a left brace
    outside brackets, or the end of the string, is an error.  Returns the
    name, the terminator and the rest. *)
Fixpoint scan_name (in_bracket : bool) (s : string)
  : option (string * ascii * string) :=
  match s with
  | EmptyString => None
  | String c s' =>
      if in_bracket then
        match scan_name (negb (Ascii.eqb c "]")) s' with
        | Some (n, t, r) => Some (String c n, t, r)
        | None => None
        end
      else if Ascii.eqb c "{" then None
      else if Ascii.eqb c "}" || Ascii.eqb c ":" || Ascii.eqb c "!" then
        Some ("", c, s')
      else
        match scan_name (Ascii.eqb c "[") s' with
        | Some (n, t, r) => Some (String c n, t, r)
        | None => None
        end
  end.

(** The format spec: up to the right brace that closes the field, nested
    braces counted ([count] is the number of braces open). *)
Fixpoint scan_spec (count : nat) (s : string) : option (string * string) :=
  match s with
  | EmptyString => None
  | String c s' =>
      if Ascii.eqb c "{" then
        match scan_spec (S count) s' with
        | Some (sp, r) => Some (String c sp, r)
        | None => None
        end
      else if Ascii.eqb c "}" then
        match count with
        | O | S O => Some ("", s')
        | S n =>
            match scan_spec n s' with
            | Some (sp, r) => Some (String c sp, r)
            | None => None
            end
        end
      else
        match scan_spec count s' with
        | Some (sp, r) => Some (String c sp, r)
        | None => None
        end
  end.

(** [parse_field]: the field that follows a left brace, and the rest of the
    template; [None] for the [ValueError]s of a malformed field. *)
Definition parse_field (s : string) : option (field * string) :=
  match scan_name false s with
  | None => None
  | Some (name, t, r) =>
      if Ascii.eqb t "}" then Some (Field name "" None, r)
      else if Ascii.eqb t ":" then
        match scan_spec 1 r with
        | Some (sp, r') => Some (Field name sp None, r')
        | None => None
        end
      else
        match r with
        | EmptyString => None
        | String conv EmptyString => None
        | String conv (String c r') =>
            if Ascii.eqb c "}" then Some (Field name "" (Some conv), r')
            else if Ascii.eqb c ":" then
              match scan_spec 1 r' with
              | Some (sp, r'') => Some (Field name sp (Some conv), r'')
              | None => None
              end
            else None
        end
  end.

(** [Formatter.parse(format_string)], the iteration bounded by [fuel]. *)
Fixpoint parse_fuel (fuel : nat) (s : string) : result (list token) :=
  match fuel with
  | O => Raise (Unmodelled "parse: recursion bound")
  | S fuel' =>
      match s with
      | EmptyString => Ok []
      | _ =>
          match scan_literal s with
          | (lit, None) => Ok [(lit, None)]
          | (lit, Some (c, EmptyString)) => Raise ValueError
          | (lit, Some (c, String c' r as rest)) =>
              if Ascii.eqb c c' then
                rbind (parse_fuel fuel' r)
                      (fun toks => Ok ((lit +:+ String c "", None) :: toks))
              else if Ascii.eqb c "}" then Raise ValueError
              else
                match parse_field rest with
                | None => Raise ValueError
                | Some (f, r') =>
                    rbind (parse_fuel fuel' r')
                          (fun toks => Ok ((lit, Some f) :: toks))
                end
          end
      end
  end.

Definition parse (s : string) : result (list token) :=
  parse_fuel (S (String.length s)) s.

(** [Formatter.parse] as a loop consumes it, item by item: the items read
    before the first fault of the template, and that fault.  A loop that
    raises on an item never meets a fault further on. *)
Fixpoint parse_items_fuel (fuel : nat) (s : string) : list token * option exn :=
  match fuel with
  | O => ([], Some (Unmodelled "parse: recursion bound"))
  | S fuel' =>
      match s with
      | EmptyString => ([], None)
      | _ =>
          match scan_literal s with
          | (lit, None) => ([(lit, None)], None)
          | (lit, Some (c, EmptyString)) => ([], Some ValueError)
          | (lit, Some (c, String c' r as rest)) =>
              if Ascii.eqb c c' then
                let '(toks, fault) := parse_items_fuel fuel' r in
                ((lit +:+ String c "", None) :: toks, fault)
              else if Ascii.eqb c "}" then ([], Some ValueError)
              else
                match parse_field rest with
                | None => ([], Some ValueError)
                | Some (f, r') =>
                    let '(toks, fault) := parse_items_fuel fuel' r' in
                    ((lit, Some f) :: toks, fault)
                end
          end
      end
  end.

Definition parse_items (s : string) : list token * option exn :=
  parse_items_fuel (S (String.length s)) s.

(** *** Library code taken as given *)

(** What the formatter uses of the Python library and is not modelled here:
    the digests of [hashlib] (as functions from the encoded text to the hex
    digest), [json.loads(base64.b64decode(payload)).get(key)] for the [jwt]
    function, [repr] and [ascii] for the conversions [!r] and [!a], and the
    attribute and index lookups [string.Formatter.get_field] performs for a
    field name such as [a.b[0]] (the part after the first name is [rest]). *)
Class Library : Type := {
  md5 : string -> string;
  sha1 : string -> string;
  sha256 : string -> string;
  jwt_claim : string -> string -> result pyval;
  repr : pyval -> string;
  ascii_repr : pyval -> string;
  lookup_rest : pyval -> string -> result pyval
}.

(** *** [string.Formatter] *)

(** A field function, called as [function(value, *args)]. *)
Definition pyfunc : Type := pyval -> list string -> result pyval.

(** An instance of [_ReplaceFormatter] ([functions = None]) or of
    [_FuncFormatter] ([functions = Some _functions]), with the default
    policy it was built with. *)
Record formatter : Type := {
  fmt_default : string -> string;
  fmt_functions : option (gmap string pyfunc)
}.

Definition is_digit (c : ascii) : bool :=
  let n := nat_of_ascii c in ((48 <=? n) && (n <=? 57))%nat.

Fixpoint all_digits (s : string) : bool :=
  match s with
  | EmptyString => true
  | String c s' => is_digit c && all_digits s'
  end.

(** [_string.formatter_field_name_split]: the name up to the first dot or
    left bracket, and the rest. *)
Fixpoint field_name_split (s : string) : string * string :=
  match s with
  | EmptyString => ("", "")
  | String c s' =>
      if Ascii.eqb c "." || Ascii.eqb c "[" then ("", s)
      else let '(f, r) := field_name_split s' in (String c f, r)
  end.

(** [PY_SSIZE_T_MAX] of a 64-bit build. *)
Definition PY_SSIZE_T_MAX : Z := 9223372036854775807.

(** The loop of [get_integer] in [Objects/stringlib/unicode_format.h]: the
    digits are read from the left; a character that is no decimal digit means
    that the text is no number ([None]); a number that would pass
    [PY_SSIZE_T_MAX] is the [ValueError] "Too many decimal digits in format
    string", raised as soon as the digits read so far show it. *)
Fixpoint get_integer_from (accumulator : Z) (s : string) : result (option Z) :=
  match s with
  | EmptyString => Ok (Some accumulator)
  | String c s' =>
      if is_digit c then
        let digitval := Z.of_nat (nat_of_ascii c) - 48 in
        if accumulator >? (PY_SSIZE_T_MAX - digitval) / 10 then Raise ValueError
        else get_integer_from (accumulator * 10 + digitval) s'
      else Ok None
  end.

(** [get_integer]: the empty text is no number. *)
Definition get_integer (s : string) : result (option Z) :=
  match s with
  | EmptyString => Ok None
  | _ => get_integer_from 0 s
  end.

(** Whether the field is not looked up by name among the keyword arguments:
    an empty name is numbered by [_vformat], and a name whose first part
    [get_integer] reads as a number, or rejects as too long a number, never
    reaches them. *)
Definition is_positional (name : string) : bool :=
  match name with
  | EmptyString => true
  | _ =>
      match get_integer (fst (field_name_split name)) with
      | Ok None => false
      | _ => true
      end
  end.

Section WithLibrary.
Context `{Library}.

(** [Formatter.get_field] with no positional arguments, as
    [template_to_pattern] calls [format].  [formatter_field_name_split] reads
    the first part with [get_integer] and raises its [ValueError]; an index
    is looked up in the empty tuple of positional arguments, which raises
    [IndexError]; any other first part, the empty one too, is a key of the
    keyword arguments. *)
Definition base_get_field (name : string) (kwargs : gmap string pyval)
  : result pyval :=
  let '(first, rest) := field_name_split name in
  match get_integer first with
  | Raise e => Raise e
  | Ok (Some idx) => Raise IndexError
  | Ok None =>
      match kwargs !! first with
      | None => Raise KeyError
      | Some obj =>
          match rest with
          | EmptyString => Ok obj
          | _ => lookup_rest obj rest
          end
      end
  end.

(** [_ReplaceFormatter.get_field]. *)
Definition get_field (fmt : formatter) (name : string)
    (kwargs : gmap string pyval) : result pyval :=
  match base_get_field name kwargs with
  | Raise KeyError | Raise AttributeError => Ok (VStr (fmt_default fmt name))
  | r => r
  end.

(** [Formatter.convert_field]. *)
Definition convert_field (value : pyval) (conv : option ascii) : result pyval :=
  match conv with
  | None => Ok value
  | Some c =>
      if Ascii.eqb c "s" then Ok (VStr (str value))
      else if Ascii.eqb c "r" then Ok (VStr (repr value))
      else if Ascii.eqb c "a" then Ok (VStr (ascii_repr value))
      else Raise ValueError
  end.

Definition format_value (value : pyval) : pyval :=
  match value with
  | VNone => VStr ""
  | VBool b => VStr (lower (str (VBool b)))
  | _ => value
  end.

(** [_ReplaceFormatter.format_field]: [format(x)] with no format spec is
    [str(x)] for the values at hand. *)
Definition replace_format_field (value : pyval) (spec : string) : string :=
  str (format_value value).

(** [_FuncFormatter.parse_format_spec]. *)
Definition parse_format_spec (spec : string) : string * list string :=
  if String.eqb spec "" || negb (contains "(" spec) then (spec, [])
  else
    let '(alias, args) := split_once "(" spec in
    (alias, split "," (remove_char ")" args)).

(** [_FuncFormatter.format_field]. *)
Definition func_format_field (functions : gmap string pyfunc) (value : pyval)
    (spec : string) : result string :=
  let '(alias, args) := parse_format_spec spec in
  let registered : option pyfunc := functions !! alias in
  rbind (match registered with
         | Some f => rbind (f value args) (fun r => Ok (VStr (str r)))
         | None => Ok value
         end)
        (fun value' =>
           Ok (replace_format_field value'
                 (match registered with Some _ => "" | None => alias end))).

Definition format_field (fmt : formatter) (value : pyval) (spec : string)
  : result string :=
  match fmt_functions fmt with
  | None => Ok (replace_format_field value spec)
  | Some functions => func_format_field functions value spec
  end.

(** The numbering of [_vformat]: an empty field name stands for the next
    positional argument.  With no positional arguments the first field that
    is empty or a number in ASCII digits ends the formatting with an
    exception of [get_field], so the running index is still 0 whenever an
    empty name is met, and the check against mixing numbered and unnumbered
    fields is not reached. *)
Definition auto_number (field_name : string) : string :=
  match field_name with
  | EmptyString => "0"
  | _ => field_name
  end.

(** One replacement field of [_vformat]'s loop: number the field, look the
    object up, convert it, expand the format spec (by [expand], the recursive
    call) and format the object. *)
Definition render_field (expand : string -> result string) (fmt : formatter)
    (kwargs : gmap string pyval) (f : field) : result string :=
  rbind (get_field fmt (auto_number (field_name f)) kwargs) (fun obj =>
  rbind (convert_field obj (conversion f)) (fun obj' =>
  rbind (expand (format_spec f)) (fun spec =>
  format_field fmt obj' spec))).

(** The loop of [_vformat] over the parsed template. *)
Fixpoint render_tokens (expand : string -> result string) (fmt : formatter)
    (kwargs : gmap string pyval) (toks : list token) : result string :=
  match toks with
  | [] => Ok ""
  | (literal_text, fld) :: toks' =>
      rbind (match fld with
             | None => Ok ""
             | Some f => render_field expand fmt kwargs f
             end)
            (fun piece =>
               rbind (render_tokens expand fmt kwargs toks')
                     (fun more => Ok (literal_text +:+ piece +:+ more)))
  end.

(** [Formatter._vformat]; [depth] is [recursion_depth + 1].  The template
    is parsed as the loop goes: a fault of the template is raised once the
    items before it are rendered. *)
Fixpoint _vformat (depth : nat) (fmt : formatter) (kwargs : gmap string pyval)
    (format_string : string) : result string :=
  match depth with
  | O => Raise ValueError
  | S depth' =>
      let '(items, fault) := parse_items format_string in
      rbind (render_tokens (_vformat depth' fmt kwargs) fmt kwargs items)
            (fun text =>
               match fault with
               | None => Ok text
               | Some e => Raise e
               end)
  end.

(** [Formatter.format] / [vformat]: the recursion depth starts at 2. *)
Definition vformat (fmt : formatter) (format_string : string)
    (kwargs : gmap string pyval) : result string :=
  _vformat 3 fmt kwargs format_string.

(** *** The formatters of the module *)

(** [_ReplaceFormatter()]: the default of the default policy is the star. *)
Definition _ReplaceFormatter (policy : option (string -> string)) : formatter :=
  {| fmt_default := default (fun _ => "*") policy; fmt_functions := None |}.

Definition py_len : pyfunc := fun value args =>
  match args with
  | [] =>
      match value with
      | VStr s => Ok (VInt (Z.of_nat (String.length s)))
      | VList l => Ok (VInt (Z.of_nat (length l)))
      | _ => Raise TypeError
      end
  | _ => Raise TypeError
  end.

Definition _jwt_func (jwt : pyval) (key : string) : result pyval :=
  match jwt with
  | VStr s =>
      match split2 "." s with
      | [_; payload; _] => jwt_claim payload key
      | _ => Raise ValueError
      end
  | _ => Raise AttributeError
  end.

Definition _hash_func (value : pyval) (alg : option string) : result pyval :=
  let algs : gmap string (string -> string) :=
    <["sha1" := sha1]> (<["md5" := md5]> (<["sha256" := sha256]> ∅)) in
  match algs !! default "md5" alg with
  | None => Raise KeyError
  | Some digest =>
      match value with
      | VStr s => Ok (VStr (digest s))
      | _ => Raise AttributeError
      end
  end.

(** The two functions as the formatter calls them, [function(value, *args)]:
    a wrong number of arguments is a [TypeError]. *)
Definition jwt_pyfunc : pyfunc := fun value args =>
  match args with
  | [key] => _jwt_func value key
  | _ => Raise TypeError
  end.
Definition hash_pyfunc : pyfunc := fun value args =>
  match args with
  | [] => _hash_func value None
  | [alg] => _hash_func value (Some alg)
  | _ => Raise TypeError
  end.

Definition default_formatter : formatter :=
  {| fmt_default := fun _ => "";
     fmt_functions :=
       Some (<["hash" := hash_pyfunc]>
              (<["jwt" := jwt_pyfunc]> (<["len" := py_len]> ∅))) |}.

(** [template_to_pattern(template, _formatter, **values)], the formatter
    given by the caller: the values are keyword arguments of the call,
    beside the parameters [template] and [_formatter]; a value of either
    name is a second value for that parameter, which the call refuses with a
    [TypeError].  The one call that leaves [_formatter] to its default, in
    [get_template_and_func_for], passes no values. *)
Definition template_to_pattern (template : string) (_formatter : formatter)
    (values : gmap string pyval) : result string :=
  match values !! "template", values !! "_formatter" with
  | None, None => vformat _formatter template values
  | _, _ => Raise TypeError
  end.

Definition _re_default (field_name : string) : string :=
  "(?P<" +:+ replace_char "." "_" field_name +:+ ">[^:]*)".

Definition _re_formatter : formatter := _ReplaceFormatter (Some _re_default).

End WithLibrary.

(** An instance of [Library] to evaluate examples with: each function tags
    its input instead of computing the real digest, claim or [repr]. *)
Definition example_library : Library := {|
  md5 := fun s => "md5(" +:+ s +:+ ")";
  sha1 := fun s => "sha1(" +:+ s +:+ ")";
  sha256 := fun s => "sha256(" +:+ s +:+ ")";
  jwt_claim := fun payload key => Ok (VStr ("claim(" +:+ payload +:+ "," +:+ key +:+ ")"));
  repr := fun v => "repr(" +:+ str v +:+ ")";
  ascii_repr := fun v => "ascii(" +:+ str v +:+ ")";
  lookup_rest := fun _ _ => Raise AttributeError
|}.

End Formatter.

(** ** The regular expressions of [re], as far as the registry needs them *)

Module Re.

(** The fragment of the pattern language that is modelled: literal
    characters, the dot, the anchors, sets of literal characters, groups
    (plain or named) and the greedy quantifiers star, plus and question
    mark.  [re.compile] on anything else is [Unmodelled]. *)
Inductive regex : Type :=
| REps
| RChar (c : ascii)
| RAny
| RSet (negated : bool) (members : list ascii)
| RBol
| REol
| RSeq (r1 r2 : regex)
| RGroup (name : option string) (body : regex)
| RStar (body : regex)
| RPlus (body : regex)
| ROpt (body : regex).

Definition newline : ascii := ascii_of_nat 10.

Fixpoint nullable (r : regex) : bool :=
  match r with
  | REps | RBol | REol | RStar _ | ROpt _ => true
  | RChar _ | RAny | RSet _ _ => false
  | RSeq r1 r2 => nullable r1 && nullable r2
  | RGroup _ body | RPlus body => nullable body
  end.

Fixpoint group_names (r : regex) : list string :=
  match r with
  | RSeq r1 r2 => group_names r1 ++ group_names r2
  | RGroup (Some n) body => n :: group_names body
  | RGroup None body | RStar body | RPlus body | ROpt body => group_names body
  | _ => []
  end.

(** *** Matching *)

(** The text captured so far, by group name. *)
Definition captures : Type := gmap string string.

(** A continuation receives the character before the position, the text
    left and the captures. *)
Definition cont : Type := option ascii -> string -> captures -> option captures.

(** The prefix of [s] that was consumed to reach its suffix [s']. *)
Definition consumed (s s' : string) : string :=
  substring 0 (String.length s - String.length s') s.

(** Greedy repetition of [step]: an iteration must consume something;
    [fuel] bounds the iterations and the length of the text is enough. *)
Fixpoint star (step : option ascii -> string -> captures -> cont -> option captures)
    (fuel : nat) (prev : option ascii) (s : string) (caps : captures)
    (k : cont) : option captures :=
  match fuel with
  | O => k prev s caps
  | S fuel' =>
      match step prev s caps
              (fun p s' c =>
                 if (String.length s' <? String.length s)%nat
                 then star step fuel' p s' c k else None) with
      | Some c => Some c
      | None => k prev s caps
      end
  end.

(** Backtracking matching with [re.MULTILINE]: the first way of matching
    [r] at the front of [s] that the continuation accepts. *)
Fixpoint rmatch (r : regex) (prev : option ascii) (s : string)
    (caps : captures) (k : cont) {struct r} : option captures :=
  match r with
  | REps => k prev s caps
  | RChar c =>
      match s with
      | String a s' => if Ascii.eqb a c then k (Some a) s' caps else None
      | EmptyString => None
      end
  | RAny =>
      match s with
      | String a s' => if Ascii.eqb a newline then None else k (Some a) s' caps
      | EmptyString => None
      end
  | RSet negated members =>
      match s with
      | String a s' =>
          if xorb negated (existsb (Ascii.eqb a) members)
          then k (Some a) s' caps else None
      | EmptyString => None
      end
  | RBol =>
      match prev with
      | None => k prev s caps
      | Some a => if Ascii.eqb a newline then k prev s caps else None
      end
  | REol =>
      match s with
      | EmptyString => k prev s caps
      | String a _ => if Ascii.eqb a newline then k prev s caps else None
      end
  | RSeq r1 r2 => rmatch r1 prev s caps (fun p s' c => rmatch r2 p s' c k)
  | RGroup name body =>
      rmatch body prev s caps
        (fun p s' c =>
           k p s' (match name with
                   | Some n => <[n := consumed s s']> c
                   | None => c
                   end))
  | RStar body => star (rmatch body) (String.length s) prev s caps k
  | RPlus body =>
      rmatch body prev s caps
        (fun p s' c => star (rmatch body) (String.length s') p s' c k)
  | ROpt body =>
      match rmatch body prev s caps k with
      | Some c => Some c
      | None => k prev s caps
      end
  end.

(** A compiled pattern: the source text, which is what two patterns are
    compared by, and the program. *)
Record pattern : Type := Pattern {
  pattern_source : string;
  pattern_regex : regex
}.

(** [compile_pattern.fullmatch(key)]: the captures of the match, or [None]. *)
Definition fullmatch (p : pattern) (key : string) : option captures :=
  rmatch (pattern_regex p) None key ∅
    (fun _ s' c => match s' with EmptyString => Some c | _ => None end).

(** [match.groupdict()]: every named group of the pattern, with the text it
    captured or [None]. *)
Definition groupdict (p : pattern) (caps : captures) : gmap string (option string) :=
  list_to_map (map (fun n => (n, caps !! n)) (group_names (pattern_regex p))).

(** *** Compiling *)

Definition is_letter (c : ascii) : bool :=
  let n := nat_of_ascii c in
  ((65 <=? n) && (n <=? 90) || (97 <=? n) && (n <=? 122))%nat.
Definition is_decimal (c : ascii) : bool :=
  let n := nat_of_ascii c in ((48 <=? n) && (n <=? 57))%nat.
Definition is_name_start (c : ascii) : bool := is_letter c || Ascii.eqb c "_".
Definition is_name_char (c : ascii) : bool := is_name_start c || is_decimal c.
Definition is_ascii (c : ascii) : bool := (nat_of_ascii c <? 128)%nat.

Fixpoint forallb_string (f : ascii -> bool) (s : string) : bool :=
  match s with
  | EmptyString => true
  | String c s' => f c && forallb_string f s'
  end.

(** A group name must be an identifier; whether a name with characters
    beyond ASCII is one is left unmodelled. *)
Definition check_group_name (n : string) : result unit :=
  if negb (forallb_string is_ascii n) then Raise (Unmodelled "group name")
  else
    match n with
    | EmptyString => Raise ReError
    | String c _ =>
        if is_name_start c && forallb_string is_name_char n then Ok tt
        else Raise ReError
    end.

(** The text up to the closing angle bracket of [(?P<name>], and the rest. *)
Fixpoint scan_group_name (s : string) : result (string * string) :=
  match s with
  | EmptyString => Raise ReError
  | String c s' =>
      if Ascii.eqb c ">" then Ok ("", s')
      else rbind (scan_group_name s') (fun '(n, r) => Ok (String c n, r))
  end.

(** The members of a set up to its closing bracket; escapes, ranges and
    nested brackets are unmodelled. *)
Fixpoint scan_set (s : string) : result (list ascii * string) :=
  match s with
  | EmptyString => Raise ReError
  | String c s' =>
      if Ascii.eqb c "]" then Ok ([], s')
      else if Ascii.eqb c "\" || Ascii.eqb c "-" || Ascii.eqb c "[" then
        Raise (Unmodelled "set")
      else rbind (scan_set s') (fun '(m, r) => Ok (c :: m, r))
  end.

(** The set that follows a left bracket. *)
Definition parse_set (s : string) : result (regex * string) :=
  let '(negated, s1) :=
    match s with
    | String c s' => if Ascii.eqb c "^" then (true, s') else (false, s)
    | EmptyString => (false, s)
    end in
  match s1 with
  | EmptyString => Raise ReError
  | String c _ =>
      if Ascii.eqb c "]" then Raise (Unmodelled "set")
      else rbind (scan_set s1) (fun '(m, r) => Ok (RSet negated m, r))
  end.

Definition is_quantifier (c : ascii) : bool :=
  Ascii.eqb c "*" || Ascii.eqb c "+" || Ascii.eqb c "?".

(** The quantifier after an atom, if there is one: greedy only, on an atom
    that is not an anchor; repeating an atom that can match the empty text
    is unmodelled. *)
Definition apply_quantifier (atom : regex) (s : string) : result (regex * string) :=
  match s with
  | String q s' =>
      if is_quantifier q then
        match atom with
        | RBol | REol => Raise ReError
        | _ =>
            rbind (match s' with
                   | String q2 _ =>
                       if Ascii.eqb q2 "*" then Raise ReError
                       else if Ascii.eqb q2 "?" || Ascii.eqb q2 "+"
                               || Ascii.eqb q2 "{"
                       then Raise (Unmodelled "quantifier")
                       else Ok tt
                   | EmptyString => Ok tt
                   end)
                  (fun _ =>
                     if Ascii.eqb q "?" then Ok (ROpt atom, s')
                     else if nullable atom then Raise (Unmodelled "repeat of empty")
                     else if Ascii.eqb q "*" then Ok (RStar atom, s')
                     else Ok (RPlus atom, s'))
        end
      else Ok (atom, s)
  | EmptyString => Ok (atom, s)
  end.

(** The closing parenthesis a group must end with. *)
Definition expect_close (s : string) : result string :=
  match s with
  | String c s' => if Ascii.eqb c ")" then Ok s' else Raise ReError
  | EmptyString => Raise ReError
  end.

(** A sequence of quantified atoms, up to a closing parenthesis or the end
    of the text, and what is left from there. *)
Fixpoint parse_seq (fuel : nat) (s : string) : result (regex * string) :=
  match fuel with
  | O => Raise (Unmodelled "compile: recursion bound")
  | S fuel' =>
      match s with
      | EmptyString => Ok (REps, s)
      | String c s' =>
          if Ascii.eqb c ")" then Ok (REps, s)
          else
            rbind
              (if Ascii.eqb c "(" then
                 match s' with
                 | String "?" (String "P" (String "<" s2)) =>
                     rbind (scan_group_name s2) (fun '(n, s3) =>
                     rbind (check_group_name n) (fun _ =>
                     rbind (parse_seq fuel' s3) (fun '(body, s4) =>
                     rbind (expect_close s4) (fun s5 =>
                     Ok (RGroup (Some n) body, s5)))))
                 | String "?" _ => Raise (Unmodelled "group extension")
                 | _ =>
                     rbind (parse_seq fuel' s') (fun '(body, s4) =>
                     rbind (expect_close s4) (fun s5 =>
                     Ok (RGroup None body, s5)))
                 end
               else if Ascii.eqb c "[" then parse_set s'
               else if Ascii.eqb c "." then Ok (RAny, s')
               else if Ascii.eqb c "^" then Ok (RBol, s')
               else if Ascii.eqb c "$" then Ok (REol, s')
               else if is_quantifier c then Raise ReError
               else if Ascii.eqb c "{" || Ascii.eqb c "|" || Ascii.eqb c "\"
               then Raise (Unmodelled "syntax")
               else Ok (RChar c, s'))
              (fun '(atom, s1) =>
                 rbind (apply_quantifier atom s1) (fun '(item, s2) =>
                 rbind (parse_seq fuel' s2) (fun '(more, s3) =>
                 Ok (RSeq item more, s3))))
      end
  end.

(** [re.compile(source, flags=re.MULTILINE)]. *)
Definition compile (source : string) : result pattern :=
  rbind (parse_seq (S (String.length source)) source) (fun '(r, rest) =>
    match rest with
    | EmptyString =>
        if bool_decide (NoDup (group_names r)) then Ok (Pattern source r)
        else Raise ReError
    | _ => Raise ReError
    end).

End Re.

(** ** formatter.py: the registry of templates *)

Module Registry.
Import Py Formatter Re.

(** The identity a function is registered under:
    [(func.__module__ or "", func.__name__)]. *)
Definition func_id : Type := string * string.

(** [_REGISTER]: a dict from function identities to sets of pairs of a
    template and its compiled pattern.  The dict is kept in insertion order,
    as Python keeps it; a set is kept as a list without duplicates, iterated
    in insertion order (Python fixes no order for a set). *)
Definition registry : Type := list (func_id * list (string * pattern)).

Definition func_id_eqb (a b : func_id) : bool :=
  String.eqb (fst a) (fst b) && String.eqb (snd a) (snd b).

(** Two entries of a set are the same when the templates are equal and the
    patterns were compiled from the same text. *)
Definition entry_eqb (a b : string * pattern) : bool :=
  String.eqb (fst a) (fst b)
  && String.eqb (pattern_source (snd a)) (pattern_source (snd b)).

(** [set.add]. *)
Definition set_add (entry : string * pattern) (entries : list (string * pattern))
  : list (string * pattern) :=
  if existsb (entry_eqb entry) entries then entries else entries ++ [entry].

(** [_REGISTER.setdefault(func, set()).add(entry)]. *)
Fixpoint setdefault_add (reg : registry) (func : func_id)
    (entry : string * pattern) : registry :=
  match reg with
  | [] => [(func, [entry])]
  | (f, entries) :: reg' =>
      if func_id_eqb f func then (f, set_add entry entries) :: reg'
      else (f, entries) :: setdefault_add reg' func entry
  end.

(** The inner loop of the two lookups: the first entry whose pattern
    matches the whole key. *)
Fixpoint scan_templates (templates : list (string * pattern)) (key : string)
  : option (string * pattern * captures) :=
  match templates with
  | [] => None
  | (template, compile_pattern) :: templates' =>
      match fullmatch compile_pattern key with
      | Some caps => Some (template, compile_pattern, caps)
      | None => scan_templates templates' key
      end
  end.

(** The outer loop, over [_REGISTER.items()]. *)
Fixpoint scan_register (reg : registry) (key : string)
  : option (func_id * (string * pattern * captures)) :=
  match reg with
  | [] => None
  | (func, templates) :: reg' =>
      match scan_templates templates key with
      | Some hit => Some (func, hit)
      | None => scan_register reg' key
      end
  end.

(** The registered triples (function, template, pattern), in the order the
    lookups scan them. *)
Definition triples (reg : registry) : list (func_id * string * pattern) :=
  flat_map (fun '(func, templates) =>
              map (fun '(template, p) => (func, template, p)) templates) reg.

(** The pattern of a registered triple does not match the key. *)
Definition no_match (key : string) (tr : func_id * string * pattern) : Prop :=
  fullmatch (snd tr) key = None.

Section WithLibrary.
Context `{Library}.

(** The text [register_template] compiles. *)
Definition pattern_text (template : string) : result string :=
  rbind (template_to_pattern template _re_formatter ∅)
        (fun body => Ok ("(.*[:])?" +:+ body +:+ "$")).

Definition register_template (reg : registry) (func : func_id)
    (template : string) : result registry :=
  rbind (pattern_text template) (fun pattern =>
  rbind (compile pattern) (fun compile_pattern =>
  Ok (setdefault_add reg func (template, compile_pattern)))).

Definition get_templates_for_func (reg : registry) (func : func_id)
  : list string :=
  match find (fun '(f, _) => func_id_eqb f func) reg with
  | Some (_, templates) => map fst templates
  | None => []
  end.

Definition get_template_and_func_for (reg : registry) (key : string)
  : result (option string * option func_id) :=
  match scan_register reg key with
  | Some (func, (template, _, _)) =>
      rbind (template_to_pattern template (_ReplaceFormatter None) ∅)
            (fun t => Ok (Some t, Some func))
  | None => Ok (None, None)
  end.

Definition get_template_for_key (reg : registry) (key : string)
  : option string * option (gmap string (option string)) :=
  match scan_register reg key with
  | Some (_, (template, compile_pattern, caps)) =>
      (Some template, Some (groupdict compile_pattern caps))
  | None => (None, None)
  end.

(** The registries a program can build: the empty one, grown by calls of
    [register_template] that returned. *)
Inductive reachable : registry -> Prop :=
| reachable_empty : reachable []
| reachable_register reg func template reg' :
    reachable reg ->
    register_template reg func template = Ok reg' ->
    reachable reg'.

End WithLibrary.

(** A registry to evaluate examples with: one function with one template. *)
Definition example_registry : registry :=
  match register_template (H:=example_library) []
          ("app.views", "get_user") "user:{id}" with
  | Ok reg => reg
  | Raise _ => []
  end.

End Registry.

(** ** Vocabulary of the round trip between keys and templates *)

Module RoundTrip.
Import Py Formatter Re Registry.

(** A character of literal text that a pattern can hold as it is: it is
    none of the operators of the pattern language.  The dot is let through:
    it matches any character but the line break, and so itself; a right
    brace or bracket with no left one before it stands for itself. *)
Definition is_plain (c : ascii) : bool :=
  negb (existsb (Ascii.eqb c) (list_ascii_of_string "^$*+?{[\|()")).

Definition plain_text (s : string) : bool := forallb_string is_plain s.

(** An identifier in ASCII: a name that is also a legal group name. *)
Definition is_ident (n : string) : bool :=
  match n with
  | EmptyString => false
  | String c _ => is_name_start c && forallb_string is_name_char n
  end.

Definition brace_free (s : string) : bool :=
  forallb_string (fun c => negb (is_brace c)) s.

(** A format spec that names none of the functions of [default_formatter]
    and holds no nested field. *)
Definition unaliased (spec : string) : bool :=
  brace_free spec &&
  negb (existsb (String.eqb (fst (parse_format_spec spec))) ["len"; "jwt"; "hash"]).

Definition simple_field (f : field) : bool :=
  is_ident (field_name f) && unaliased (format_spec f)
  && match conversion f with None => true | Some _ => false end.

(** Literal text of plain characters; fields [{name}] or [{name:spec}] with
    an identifier for name, no conversion and an unaliased spec. *)
Fixpoint simple_tokens (toks : list token) : bool :=
  match toks with
  | [] => true
  | (lit, fld) :: rest =>
      plain_text lit
      && match fld with
         | None => true
         | Some f => simple_field f
         end
      && simple_tokens rest
  end.

(** The colons of the literal text cut a template into segments.  No segment
    holds two fields; [seen] tells whether the segment the tokens start in
    holds one already. *)
Fixpoint segmented (seen : bool) (toks : list token) : bool :=
  match toks with
  | [] => true
  | (lit, fld) :: rest =>
      let seen' := seen && negb (contains ":" lit) in
      match fld with
      | None => segmented seen' rest
      | Some _ => negb seen' && segmented true rest
      end
  end.

(** The templates the round trip is stated for: simple tokens, and at most
    one field between two colons of the literal text. *)
Definition separated (toks : list token) : bool :=
  simple_tokens toks && segmented false toks.

(** The fields of a parsed template, in order. *)
Fixpoint fields (toks : list token) : list field :=
  match toks with
  | [] => []
  | (_, Some f) :: rest => f :: fields rest
  | (_, None) :: rest => fields rest
  end.

(** The text a value takes in a key: [str] after [format_value]. *)
Definition value_text (v : pyval) : string := str (format_value v).

(** Every field is bound to a value whose text holds no colon. *)
Definition bound_without_colon (kwargs : gmap string pyval) (toks : list token)
  : Prop :=
  forall f, f ∈ fields toks ->
    exists v, kwargs !! field_name f = Some v /\ contains ":" (value_text v) = false.

(** The key the tokens format to, the text of the pattern they compile to,
    and the program of that pattern (ending in [tail]). *)
Fixpoint key_text (kwargs : gmap string pyval) (toks : list token) : string :=
  match toks with
  | [] => ""
  | (lit, fld) :: rest =>
      lit +:+
      match fld with
      | None => ""
      | Some f => value_text (default VNone (kwargs !! field_name f))
      end +:+ key_text kwargs rest
  end.

Fixpoint body_text (toks : list token) : string :=
  match toks with
  | [] => ""
  | (lit, fld) :: rest =>
      lit +:+
      match fld with
      | None => ""
      | Some f => _re_default (field_name f)
      end +:+ body_text rest
  end.

(** The atom a plain character compiles to. *)
Definition char_regex (c : ascii) : regex :=
  if Ascii.eqb c "." then RAny else RChar c.

Fixpoint literal_regex (lit : string) (tail : regex) : regex :=
  match lit with
  | EmptyString => tail
  | String c lit' => RSeq (char_regex c) (literal_regex lit' tail)
  end.

Definition field_regex (name : string) : regex :=
  RGroup (Some name) (RSeq (RStar (RSet true [":"%char])) REps).

Fixpoint body_regex (toks : list token) (tail : regex) : regex :=
  match toks with
  | [] => tail
  | (lit, fld) :: rest =>
      literal_regex lit
        match fld with
        | None => body_regex rest tail
        | Some f => RSeq (field_regex (field_name f)) (body_regex rest tail)
        end
  end.

(** The program of [(.*[:])?]. *)
Definition prefix_regex : regex :=
  ROpt (RGroup None (RSeq (RStar RAny) (RSeq (RSet false [":"%char]) REps))).

Definition template_regex (toks : list token) : regex :=
  RSeq prefix_regex (body_regex toks (RSeq REol REps)).

(** A text that does not begin with a quantifier or a left brace: what may
    follow an atom that is not quantified. *)
Definition starts_ok (s : string) : bool :=
  match s with
  | EmptyString => true
  | String q _ => negb (is_quantifier q || Ascii.eqb q "{")
  end.

(** The number of colons of a text. *)
Fixpoint colons (s : string) : nat :=
  match s with
  | EmptyString => 0
  | String c s' => (if Ascii.eqb c ":" then 1 else 0) + colons s'
  end.

(** The colons of the literal text of a template. *)
Fixpoint lit_colons (toks : list token) : nat :=
  match toks with
  | [] => 0
  | (lit, _) :: rest => colons lit + lit_colons rest
  end.

(** The captures a key is expected to give: each field's name with the text
    of its value, added to [caps]. *)
Fixpoint captured (kwargs : gmap string pyval) (toks : list token)
    (caps : captures) : captures :=
  match toks with
  | [] => caps
  | (_, Some f) :: rest =>
      captured kwargs rest
        (<[field_name f := value_text (default VNone (kwargs !! field_name f))]> caps)
  | (_, None) :: rest => captured kwargs rest caps
  end.

(** The continuation of [fullmatch]: the whole text must be consumed. *)
Definition at_end : cont :=
  fun _ s' c => match s' with EmptyString => Some c | _ => None end.

(** The length of a text up to its first colon. *)
Fixpoint first_stop (s : string) : nat :=
  match s with
  | EmptyString => 0
  | String c s' => if Ascii.eqb c ":" then 0 else S (first_stop s')
  end.

(** The length of the literal text of a template up to its first colon. *)
Fixpoint head_len (toks : list token) : nat :=
  match toks with
  | [] => 0
  | (lit, _) :: rest =>
      if contains ":" lit then first_stop lit
      else String.length lit + head_len rest
  end.

(** Two texts of the same length with their colons at the same places. *)
Fixpoint same_colons (a b : string) : bool :=
  match a, b with
  | EmptyString, EmptyString => true
  | String x a', String y b' =>
      Bool.eqb (Ascii.eqb x ":") (Ascii.eqb y ":") && same_colons a' b'
  | _, _ => false
  end.

End RoundTrip.

(** ** The decorators' world: backend, clock, in-process trace, call log *)

Module Policy.

(** What a run does that a caller can observe: backend calls, and calls of
    the configured action and of the wrapped function. *)
Inductive event (Args : Type) : Type :=
| EvIncr (key : string)
| EvExpire (key : string) (timeout : Z)
| EvIsLocked (key : string)
| EvSetLock (key : string) (value : Qc) (expire : Z)
| EvAction (args : Args)
| EvCall (args : Args).
Arguments EvIncr {Args} key.
Arguments EvExpire {Args} key timeout.
Arguments EvIsLocked {Args} key.
Arguments EvSetLock {Args} key value expire.
Arguments EvAction {Args} args.
Arguments EvCall {Args} args.

(** Modelled from the spec: the cache backend ([cashews.backends.interface],
    not among the sources).  Section 6 gives its contract: [incr] creates the
    counter at 1 or increments it, [expire] sets or overwrites a key's TTL,
    [is_locked] tells whether a lock record exists and [set_lock] stores one
    with its value and expiry.  The world also holds the monotonic clock read
    by [time.perf_counter], the deque [call_results] owned by the [perf]
    closure, and the log of observable events (most recent last). *)
Record world (Args : Type) : Type := World {
  counters : gmap string N;
  expiries : gmap string Z;
  lock_tbl : gmap string (Qc * Z);
  clock : Qc;
  call_results : list Qc;
  log : list (event Args)
}.
Arguments World {Args}.
Arguments counters {Args} w.
Arguments expiries {Args} w.
Arguments lock_tbl {Args} w.
Arguments clock {Args} w.
Arguments call_results {Args} w.
Arguments log {Args} w.

Section Monad.
Context {Args : Type}.

  (** A computation threads the world and may raise; what it did to the
      world before raising stays done. *)
Definition M (A : Type) : Type := world Args -> result A * world Args.

Definition ret {A} (a : A) : M A := fun w => (Ok a, w).
Definition raise {A} (e : exn) : M A := fun w => (Raise e, w).
Definition bind {A B} (m : M A) (k : A -> M B) : M B :=
    fun w => match m w with
             | (Ok a, w') => k a w'
             | (Raise e, w') => (Raise e, w')
             end.
Definition lift {A} (r : result A) : M A := fun w => (r, w).

Definition emit (e : event Args) : M unit :=
    fun w => (Ok tt, World (counters w) (expiries w) (lock_tbl w) (clock w)
                           (call_results w) (log w ++ [e])).

Definition backend_incr (key : string) : M Z :=
    fun w =>
      let n := N.succ (default 0%N (counters w !! key)) in
      (Ok (Z.of_N n),
       World (<[key := n]> (counters w)) (expiries w) (lock_tbl w) (clock w)
             (call_results w) (log w ++ [EvIncr key])).

Definition backend_expire (key : string) (timeout : Z) : M unit :=
    fun w =>
      (Ok tt,
       World (counters w) (<[key := timeout]> (expiries w)) (lock_tbl w)
             (clock w) (call_results w) (log w ++ [EvExpire key timeout])).

Definition backend_is_locked (key : string) : M bool :=
    fun w =>
      (Ok (bool_decide (is_Some (lock_tbl w !! key))),
       World (counters w) (expiries w) (lock_tbl w) (clock w)
             (call_results w) (log w ++ [EvIsLocked key])).

Definition backend_set_lock (key : string) (value : Qc) (expire : Z) : M unit :=
    fun w =>
      (Ok tt,
       World (counters w) (expiries w) (<[key := (value, expire)]> (lock_tbl w))
             (clock w) (call_results w) (log w ++ [EvSetLock key value expire])).

  (** [time.perf_counter()]. *)
Definition perf_counter : M Qc := fun w => (Ok (clock w), w).

  (** Running caller-supplied code that takes [elapsed] seconds. *)
Definition advance (elapsed : Qc) : M unit :=
    fun w => (Ok tt, World (counters w) (expiries w) (lock_tbl w)
                           (clock w + elapsed)%Qc (call_results w) (log w)).

Definition get_trace : M (list Qc) := fun w => (Ok (call_results w), w).
Definition put_trace (t : list Qc) : M unit :=
    fun w => (Ok tt, World (counters w) (expiries w) (lock_tbl w) (clock w)
                           t (log w)).
End Monad.

Notation "x <- m ;; k" := (bind m (fun x => k))
  (at level 100, m at next level, right associativity, only parsing).
Notation "m ;;; k" := (bind m (fun _ => k))
  (at level 100, right associativity, only parsing).

(** Python truthiness of an [int] and of an optional [int] ([None] and [0]
    are falsy). *)
Definition truthy (n : Z) : bool := negb (n =? 0)%Z.
Definition truthy_opt (o : option Z) : bool :=
  match o with Some n => truthy n | None => false end.

(** How caller-supplied code is called: the call is logged, the clock moves
    by the time the code ran, and its outcome (a value or an exception) is
    the call's. *)
Definition invoke {Args R} (ev : event Args) (run : result R * Qc) : M R :=
  emit ev ;;; advance (snd run) ;;; lift (fst run).

(** *** rate.py *)
Section Rate.
Context {Args R V : Type}.
  (** [get_cache_key(func, _key_template, args, kwargs, func_args)] of
      [cashews.key], which is not among the sources: the concrete key of a
      call. *)
Variable get_cache_key : Args -> string.
Variable limit : Z.
Variable period : Z.
Variable ttl : option Z.
Variable action : Args -> result V * Qc.
Variable func : Args -> result R * Qc.

Definition _default_action (args : Args) : result V * Qc :=
    (Raise RateLimitException, 0%Qc).

Definition wrapped_func (args : Args) : M R :=
    let _cache_key := get_cache_key args in
    requests_count <- backend_incr _cache_key ;;
    (if truthy requests_count && (requests_count >? limit)%Z then
       (if truthy_opt ttl && (requests_count =? limit + 1)%Z then
          backend_expire _cache_key (default 0 ttl)
        else ret tt) ;;;
       _ <- invoke (EvAction args) (action args) ;;
       ret tt
     else ret tt) ;;;
    (if (requests_count =? 1)%Z then backend_expire _cache_key period
     else ret tt) ;;;
    invoke (EvCall args) (func args).
End Rate.

(** [rate_limit(backend, limit, period, ttl, func_args, action, prefix)(func)]:
    [action] defaults to [_default_action]. *)
Definition rate_limit {Args R V} (get_cache_key : Args -> string)
    (limit period : Z) (ttl : option Z)
    (action : option (Args -> result V * Qc))
    (func : Args -> result R * Qc) : Args -> M R :=
  wrapped_func get_cache_key limit period ttl
    (default _default_action action) func.

(** *** perf.py *)

Fixpoint Qc_sum (l : list Qc) : Qc :=
  match l with
  | [] => 0%Qc
  | x :: l' => (x + Qc_sum l')%Qc
  end.

(** [statistics.mean]: raises on an empty sequence.  Durations are Python
    floats; they are taken as rationals here. *)
Definition mean (l : list Qc) : result Qc :=
  match l with
  | [] => Raise StatisticsError
  | _ => Ok (Qc_sum l / Q2Qc (inject_Z (Z.of_nat (length l))))%Qc
  end.

Definition Qc_ltb (a b : Qc) : bool :=
  match (a ?= b)%Qc with Lt => true | _ => false end.

Definition _default_perf_condition (current : Qc) (previous : list Qc)
  : result bool :=
  rbind (mean previous) (fun m => Ok (Qc_ltb (m * Q2Qc (inject_Z 2))%Qc current)).

(** [deque.append] on a deque built with [maxlen]: the entry is added on the
    right and, when the deque then exceeds [maxlen], the leftmost entry is
    dropped (so a deque of capacity 0 stays empty). *)
Definition deque_append (maxlen : nat) (d : list Qc) (x : Qc) : list Qc :=
  let d' := d ++ [x] in
  if (maxlen <? length d')%nat then tail d' else d'.

Section Perf.
Context {Args R : Type}.
Variable get_cache_key : Args -> string.
Variable ttl : Z.
Variable trace_size : nat.
Variable perf_condition : Qc -> list Qc -> result bool.
Variable func : Args -> result R * Qc.

Definition _wrap (args : Args) : M R :=
    let _cache_key := get_cache_key args in
    locked <- backend_is_locked (_cache_key +:+ ":lock") ;;
    if (locked : bool) then raise PerfDegradationException
    else
      start <- perf_counter ;;
      result <- invoke (EvCall args) (func args) ;;
      now <- perf_counter ;;
      let takes := (now - start)%Qc in
      trace <- get_trace ;;
      fire <- (if (length trace =? trace_size)%nat
               then lift (perf_condition takes trace)
               else ret false) ;;
      (if (fire : bool) then
         backend_set_lock (_cache_key +:+ ":lock") takes ttl ;;;
         put_trace []
       else put_trace (deque_append trace_size trace takes)) ;;;
      ret result.
End Perf.

(** [perf(backend, ttl, func_args, key, trace_size, perf_condition, prefix)(func)]:
    [perf_condition] defaults to [_default_perf_condition]. *)
Definition perf {Args R} (get_cache_key : Args -> string) (ttl : Z)
    (trace_size : nat) (perf_condition : option (Qc -> list Qc -> result bool))
    (func : Args -> result R * Qc) : Args -> M R :=
  _wrap get_cache_key ttl trace_size
    (default _default_perf_condition perf_condition) func.

(** *** Vocabulary of the statements about the two decorators *)

(** The value [backend.incr] returns for [key] in world [w]. *)
Definition next_count {Args} (w : world Args) (key : string) : Z :=
  Z.of_N (N.succ (default 0%N (counters w !! key))).

(** The events of the optional [expire(key, ttl)] and [expire(key, period)]
    calls of a rate-limited run whose counter reads [count]. *)
Definition ttl_events {Args} (limit : Z) (ttl : option Z) (key : string)
    (count : Z) : list (event Args) :=
  if truthy_opt ttl && (count =? limit + 1)%Z
  then [EvExpire key (default 0 ttl)] else [].
Definition period_events {Args} (period : Z) (key : string) (count : Z)
  : list (event Args) :=
  if (count =? 1)%Z then [EvExpire key period] else [].

(** The key of the degradation lock of a call, and whether it is held. *)
Definition lock_key {Args} (get_cache_key : Args -> string) (args : Args)
  : string := get_cache_key args +:+ ":lock".
Definition is_locked {Args} (get_cache_key : Args -> string) (w : world Args)
    (args : Args) : bool :=
  bool_decide (is_Some (lock_tbl w !! lock_key get_cache_key args)).

(** A world in which nothing has happened yet. *)
Definition fresh_world {Args} : world Args := World ∅ ∅ ∅ 0%Qc [] [].

End Policy.

(** ** Vocabulary of further statements *)

Module More.

(** The number of dots of a text. *)
Fixpoint dots (s : string) : nat :=
  match s with
  | EmptyString => 0
  | String c s' => (if Ascii.eqb c "." then 1 else 0) + dots s'
  end.

(** The world after [n] successive calls of [call] with the same
    arguments. *)
Fixpoint after_calls {Args R} (call : Args -> Policy.M R) (args : Args)
    (n : nat) (w : Policy.world Args) : Policy.world Args :=
  match n with
  | O => w
  | S n' => snd (call args (after_calls call args n' w))
  end.

End More.

(** * Properties *)

Module PolicyFacts.
Import Policy.

Section RateFacts.
Context {Args R V : Type}.
Variable get_cache_key : Args -> string.
Variable limit period : Z.
Variable ttl : option Z.
Variable func : Args -> result R * Qc.

Lemma next_count_pos (w : world Args) key : 1 <= next_count w key.
  Proof. unfold next_count. lia. Qed.

Lemma truthy_next_count (w : world Args) key : truthy (next_count w key) = true.
  Proof.
    unfold truthy. pose proof (next_count_pos w key).
    destruct (Z.eqb_spec (next_count w key) 0); [lia | reflexivity].
  Qed.

Local Abbreviation ttl_events := (ttl_events (Args:=Args) limit ttl).
Local Abbreviation period_events := (period_events (Args:=Args) period).

  (** The log of one run of [wrapped_func], whatever the configuration. *)
Lemma wrapped_func_log (action : Args -> result V * Qc) args w :
    let key := get_cache_key args in
    let count := next_count w key in
    let tail_events := period_events key count ++ [EvCall args] in
    log (snd (wrapped_func get_cache_key limit period ttl action func args w)) =
    log w ++ [EvIncr key] ++
      (if (count >? limit)%Z then
         ttl_events key count ++ [EvAction args] ++
         (if is_ok (fst (action args)) then tail_events else [])
       else tail_events).
  Proof.
    cbv zeta. unfold wrapped_func, bind, backend_incr, invoke, bind, emit, advance, lift.
    cbn [fst snd]. fold (next_count w (get_cache_key args)).
    rewrite truthy_next_count. cbn [andb].
    unfold ttl_events, period_events.
    destruct (next_count w (get_cache_key args) >? limit)%Z.
    - destruct (truthy_opt ttl && _); cbn;
        destruct (fst (action args)); cbn;
        try destruct (next_count w (get_cache_key args) =? 1)%Z; cbn;
        destruct (fst (func args)); cbn;
        rewrite <- ?app_assoc; reflexivity.
    - cbn. destruct (next_count w (get_cache_key args) =? 1)%Z; cbn;
        destruct (fst (func args)); cbn; rewrite <- ?app_assoc; reflexivity.
  Qed.
  (** The outcome of one run of [wrapped_func]. *)
Lemma wrapped_func_result (action : Args -> result V * Qc) args w :
    fst (wrapped_func get_cache_key limit period ttl action func args w) =
    if (next_count w (get_cache_key args) >? limit)%Z then
      match fst (action args) with
      | Ok _ => fst (func args)
      | Raise e => Raise e
      end
    else fst (func args).
  Proof.
    unfold wrapped_func, bind, backend_incr, invoke, bind, emit, advance, lift.
    cbn [fst snd]. fold (next_count w (get_cache_key args)).
    rewrite truthy_next_count. cbn [andb].
    destruct (next_count w (get_cache_key args) >? limit)%Z.
    - destruct (truthy_opt ttl && _); cbn;
        destruct (fst (action args)); cbn;
        try destruct (next_count w (get_cache_key args) =? 1)%Z; cbn;
        destruct (fst (func args)); reflexivity.
    - cbn. destruct (next_count w (get_cache_key args) =? 1)%Z; cbn;
        destruct (fst (func args)); reflexivity.
  Qed.

  (** Every run increments the counter of its key, and only that. *)
Lemma wrapped_func_counters (action : Args -> result V * Qc) args w :
    counters (snd (wrapped_func get_cache_key limit period ttl action func args w)) =
    <[get_cache_key args :=
        N.succ (default 0%N (counters w !! get_cache_key args))]> (counters w).
  Proof.
    unfold wrapped_func, bind, backend_incr, invoke, bind, emit, advance, lift.
    cbn [fst snd]. fold (next_count w (get_cache_key args)).
    rewrite truthy_next_count. cbn [andb].
    destruct (next_count w (get_cache_key args) >? limit)%Z.
    - destruct (truthy_opt ttl && _); cbn;
        destruct (fst (action args)); cbn;
        try destruct (next_count w (get_cache_key args) =? 1)%Z; cbn;
        destruct (fst (func args)); reflexivity.
    - cbn. destruct (next_count w (get_cache_key args) =? 1)%Z; cbn;
        destruct (fst (func args)); reflexivity.
  Qed.

  (** The expiry table after a run: the [ttl] overwrite comes first, the
      [period] one after the action, if the action returned. *)
Lemma wrapped_func_expiries (action : Args -> result V * Qc) args w :
    let key := get_cache_key args in
    let count := next_count w key in
    let banned := if truthy_opt ttl && (count =? limit + 1)%Z
                  then <[key := default 0 ttl]> (expiries w) else expiries w in
    expiries (snd (wrapped_func get_cache_key limit period ttl action func args w)) =
    if (count >? limit)%Z then
      if is_ok (fst (action args)) then
        if (count =? 1)%Z then <[key := period]> banned else banned
      else banned
    else if (count =? 1)%Z then <[key := period]> (expiries w) else expiries w.
  Proof.
    cbv zeta.
    unfold wrapped_func, bind, backend_incr, invoke, bind, emit, advance, lift.
    cbn [fst snd]. fold (next_count w (get_cache_key args)).
    rewrite truthy_next_count. cbn [andb].
    destruct (next_count w (get_cache_key args) >? limit)%Z.
    - destruct (truthy_opt ttl && _); cbn;
        destruct (fst (action args)); cbn;
        try destruct (next_count w (get_cache_key args) =? 1)%Z; cbn;
        destruct (fst (func args)); reflexivity.
    - cbn. destruct (next_count w (get_cache_key args) =? 1)%Z; cbn;
        destruct (fst (func args)); reflexivity.
  Qed.
End RateFacts.

Lemma Qc_elapsed (c d : Qc) : (c + d - c = d)%Qc.
Proof. ring. Qed.

Section PerfFacts.
Context {Args R : Type}.
Variable get_cache_key : Args -> string.
Variable ttl : Z.
Variable trace_size : nat.
Variable perf_condition : Qc -> list Qc -> result bool.
Variable func : Args -> result R * Qc.

Local Abbreviation lock_key := (lock_key get_cache_key).
Local Abbreviation is_locked := (is_locked get_cache_key).

  (** A call made while the lock record exists. *)
Lemma _wrap_locked args w :
    is_locked w args = true ->
    _wrap get_cache_key ttl trace_size perf_condition func args w =
    (Raise PerfDegradationException,
     World (counters w) (expiries w) (lock_tbl w) (clock w) (call_results w)
           (log w ++ [EvIsLocked (lock_key args)])).
  Proof.
    unfold is_locked, lock_key. intros H.
    unfold _wrap, bind, backend_is_locked. rewrite H. reflexivity.
  Qed.

  (** A call whose wrapped function raises: nothing after the call runs. *)
Lemma _wrap_func_raises args w e :
    is_locked w args = false ->
    fst (func args) = Raise e ->
    _wrap get_cache_key ttl trace_size perf_condition func args w =
    (Raise e,
     World (counters w) (expiries w) (lock_tbl w) (clock w + snd (func args))%Qc
           (call_results w)
           (log w ++ [EvIsLocked (lock_key args)] ++ [EvCall args])).
  Proof.
    unfold is_locked, lock_key. intros H Hf.
    unfold _wrap, bind, backend_is_locked. rewrite H.
    unfold perf_counter, invoke, bind, emit, advance, lift. cbn.
    rewrite Hf. rewrite <- app_assoc. reflexivity.
  Qed.

  (** A call whose wrapped function returns [r] after [d] seconds. *)
Lemma _wrap_func_returns args w r :
    is_locked w args = false ->
    fst (func args) = Ok r ->
    let d := snd (func args) in
    let trace := call_results w in
    let log' := log w ++ [EvIsLocked (lock_key args)] ++ [EvCall args] in
    _wrap get_cache_key ttl trace_size perf_condition func args w =
    if (length trace =? trace_size)%nat then
      match perf_condition d trace with
      | Ok true =>
          (Ok r, World (counters w) (expiries w)
                       (<[lock_key args := (d, ttl)]> (lock_tbl w))
                       (clock w + d)%Qc []
                       (log' ++ [EvSetLock (lock_key args) d ttl]))
      | Ok false =>
          (Ok r, World (counters w) (expiries w) (lock_tbl w) (clock w + d)%Qc
                       (deque_append trace_size trace d) log')
      | Raise e =>
          (Raise e, World (counters w) (expiries w) (lock_tbl w)
                          (clock w + d)%Qc trace log')
      end
    else
      (Ok r, World (counters w) (expiries w) (lock_tbl w) (clock w + d)%Qc
                   (deque_append trace_size trace d) log').
  Proof.
    unfold is_locked, lock_key. intros H Hf. cbv zeta.
    unfold _wrap, bind, backend_is_locked. rewrite H.
    unfold perf_counter, invoke, bind, emit, advance, lift, get_trace. cbn.
    rewrite Hf. rewrite Qc_elapsed. rewrite <- !app_assoc.
    destruct (length (call_results w) =? trace_size)%nat; [|reflexivity].
    unfold lift. destruct (perf_condition _ _) as [[|]|]; cbn;
      rewrite <- ?app_assoc; reflexivity.
  Qed.
End PerfFacts.

(** ** The rate limiter over its limit *)

(** C4: a rate-limited call whose incremented counter exceeds [limit] calls
    the configured action with the call's own arguments, before any call of
    the wrapped function.  If the action raises, the call ends there with
    that exception (the default action raises [RateLimitException], so the
    wrapped function is not called); if the action returns, whatever it
    returns, the wrapped function is called afterwards and its outcome is the
    call's. *)
Theorem rate_over_limit_action {Args R V} (get_cache_key : Args -> string)
    (limit period : Z) (ttl : option Z) (action : Args -> result V * Qc)
    (func : Args -> result R * Qc) (args : Args) (w : world Args) :
  let key := get_cache_key args in
  let count := next_count w key in
  limit < count ->
  let run := wrapped_func get_cache_key limit period ttl action func args w in
  let dflt := rate_limit (V:=V) get_cache_key limit period ttl None func args w in
  let upto_action :=
    log w ++ [EvIncr key] ++ ttl_events limit ttl key count ++ [EvAction args] in
  (forall e, fst (action args) = Raise e ->
     fst run = Raise e /\ log (snd run) = upto_action) /\
  (forall v, fst (action args) = Ok v ->
     fst run = fst (func args) /\
     log (snd run) =
       upto_action ++ period_events period key count ++ [EvCall args]) /\
  fst dflt = Raise RateLimitException /\ log (snd dflt) = upto_action.
Proof.
  intros key count Hover run dflt upto_action.
  assert (Hgt : (count >? limit)%Z = true) by (apply Z.gtb_lt; exact Hover).
  subst run dflt upto_action. unfold rate_limit. cbn [default].
  rewrite !wrapped_func_result, !wrapped_func_log.
  fold key. fold count. rewrite Hgt.
  split; [| split; [| split]].
  - intros e He. rewrite He. cbn [is_ok]. rewrite !app_nil_r. split; reflexivity.
  - intros v Hv. rewrite Hv. cbn [is_ok]. rewrite <- !app_assoc. split; reflexivity.
  - reflexivity.
  - cbn [_default_action is_ok fst]. rewrite !app_nil_r. reflexivity.
Qed.

Lemma rate_over_limit_action_witness :
  let get_cache_key := fun _ : nat => "rate_limit:f" in
  let action := fun _ : nat => (Ok 7%nat, 0%Qc) in
  let func := fun n : nat => (Ok (S n), 1%Qc) in
  let w := fresh_world (Args:=nat) in
  0 < next_count w (get_cache_key 5%nat) /\
  fst (wrapped_func get_cache_key 0 60 None action func 5%nat w) = Ok 6%nat.
Proof.
  cbv zeta. split; [reflexivity |].
  pose proof (rate_over_limit_action (fun _ : nat => "rate_limit:f") 0 60 None
                (fun _ : nat => (Ok 7%nat, 0%Qc))
                (fun n : nat => (Ok (S n), 1%Qc)) 5%nat fresh_world) as H.
  cbv zeta in H. destruct (H eq_refl) as (_ & Hret & _).
  destruct (Hret 7%nat eq_refl) as [Hres _]. exact Hres.
Defined.

(** ** The expiry of the rate counter *)

(** C5, as stated, fails when [limit = 0]: the first call (counter 1) is
    already over the limit, the default action raises before
    [expire(key, period)] is reached, and the key keeps the [ttl] expiry. *)
Lemma rate_first_increment_counterexample :
  let key := "rate_limit:f" in
  let run := rate_limit (V:=unit) (fun _ : nat => key) 0 60 (Some 300) None
               (fun n : nat => (Ok n, 1%Qc)) 5%nat fresh_world in
  next_count (fresh_world (Args:=nat)) key = 1 /\
  fst run = Raise RateLimitException /\
  log (snd run) = [EvIncr key; EvExpire key 300; EvAction 5%nat] /\
  expiries (snd run) !! key = Some 300 /\
  expiries (snd run) !! key <> Some 60.
Proof. cbv zeta. vm_compute. repeat split; congruence. Qed.

(** C5 (amended): with a non-zero [ttl], a rate-limited call issues
    [expire(key, ttl)] exactly when its counter reads [limit + 1], before the
    action; [expire(key, period)] is issued exactly when the counter reads 1,
    but after the action, so only if the call is within the limit or the
    action returned.  Hence the key ends with expiry [ttl] on the first
    over-limit call when [limit <> 0], and with expiry [period] on the first
    increment when [1 <= limit] or the action returned; any other call whose
    counter is neither value leaves the expiries alone. *)
Theorem rate_expiry_overwrites {Args R V} (get_cache_key : Args -> string)
    (limit period t : Z) (action : Args -> result V * Qc)
    (func : Args -> result R * Qc) (args : Args) (w : world Args) :
  let key := get_cache_key args in
  let count := next_count w key in
  t <> 0 ->
  let run := wrapped_func get_cache_key limit period (Some t) action func args w in
  let ban := if (count =? limit + 1)%Z then [EvExpire key t] else [] in
  let window := if (count =? 1)%Z then [EvExpire key period] else [] in
  log (snd run) =
    log w ++ [EvIncr key] ++ ban ++
      (if (count >? limit)%Z then
         [EvAction args] ++
         (if is_ok (fst (action args)) then window ++ [EvCall args] else [])
       else window ++ [EvCall args]) /\
  (count = limit + 1 -> limit <> 0 -> expiries (snd run) !! key = Some t) /\
  (count = 1 -> 1 <= limit \/ is_ok (fst (action args)) = true ->
     expiries (snd run) !! key = Some period) /\
  (count <> limit + 1 -> count <> 1 -> expiries (snd run) = expiries w).
Proof.
  intros key count Ht run ban window. subst run ban window.
  rewrite wrapped_func_log, wrapped_func_expiries. fold key. fold count.
  unfold ttl_events, period_events. cbn [truthy_opt default].
  assert (Htr : truthy t = true).
  { unfold truthy. destruct (Z.eqb_spec t 0); [contradiction | reflexivity]. }
  rewrite Htr. cbn [andb].
  destruct (Z.eqb_spec count (limit + 1)) as [E1 | E1];
    destruct (Z.eqb_spec count 1) as [E2 | E2];
    destruct (Z.gtb_spec count limit) as [G | G];
    try lia; (split; [reflexivity |]);
    repeat match goal with
           | |- _ /\ _ => split
           | |- _ -> _ => intro
           | H : _ \/ _ |- _ => destruct H
           | H : is_ok _ = true |- _ => rewrite H
           end;
    try lia; try reflexivity;
    try (destruct (is_ok _); first [reflexivity | apply lookup_insert_eq]);
    try apply lookup_insert_eq.
Qed.

Lemma rate_expiry_overwrites_witness :
  let key := "rate_limit:f" in
  let w := World (Args:=nat) {[ key := 2%N ]} {[ key := 60 ]} ∅ 0%Qc [] [] in
  let run := wrapped_func (V:=unit) (fun _ : nat => key) 2 60 (Some 300)
               _default_action (fun n : nat => (Ok n, 1%Qc)) 5%nat w in
  300 <> 0 /\ next_count w key = 2 + 1 /\ 2 <> 0 /\
  expiries (snd run) !! key = Some 300.
Proof.
  cbv zeta. split; [lia |]. split; [reflexivity |]. split; [lia |].
  pose proof (rate_expiry_overwrites (V:=unit) (fun _ : nat => "rate_limit:f")
                2 60 300 _default_action (fun n : nat => (Ok n, 1%Qc)) 5%nat
                (World {[ "rate_limit:f" := 2%N ]} {[ "rate_limit:f" := 60 ]}
                       ∅ 0%Qc [] [])) as H.
  cbv zeta in H. destruct (H ltac:(lia)) as (_ & Hban & _).
  apply Hban; [reflexivity | lia].
Defined.

(** ** Failures of the wrapped function *)

(** C2, as stated, fails for the perf decorator: when the wrapped function
    raises after running for one second, nothing is recorded in the trace. *)
Lemma perf_failing_call_counterexample :
  let run := perf (R:=nat) (fun _ : nat => "perf:f:10") 10 3 None
               (fun _ : nat => (Raise (UserError "boom"), 1%Qc)) 5%nat
               fresh_world in
  fst run = Raise (UserError "boom") /\
  log (snd run) = [EvIsLocked "perf:f:10:lock"; EvCall 5%nat] /\
  call_results (snd run) = [].
Proof. cbv zeta. vm_compute. repeat split. Qed.

(** C2 (amended): when the wrapped function is called and raises, its
    exception is the outcome of the decorated call, for both decorators.
    The rate limiter has incremented the key's counter by then.  The perf
    decorator has measured nothing: the clock has moved by the time the
    function ran, but the trace and the locks are as they were. *)
Theorem wrapped_failure_propagates {Args R V} (get_cache_key : Args -> string)
    (limit period : Z) (ttl : option Z) (action : Args -> result V * Qc)
    (perf_ttl : Z) (trace_size : nat)
    (perf_condition : Qc -> list Qc -> result bool)
    (func : Args -> result R * Qc) (args : Args) (w : world Args) (e : exn) :
  let key := get_cache_key args in
  fst (func args) = Raise e ->
  (next_count w key <= limit \/ is_ok (fst (action args)) = true ->
   let run := wrapped_func get_cache_key limit period ttl action func args w in
   fst run = Raise e /\
   counters (snd run) !! key = Some (N.succ (default 0%N (counters w !! key))) /\
   last (log (snd run)) = Some (EvCall args)) /\
  (is_locked get_cache_key w args = false ->
   let run := _wrap get_cache_key perf_ttl trace_size perf_condition func args w in
   fst run = Raise e /\
   last (log (snd run)) = Some (EvCall args) /\
   clock (snd run) = (clock w + snd (func args))%Qc /\
   call_results (snd run) = call_results w /\
   lock_tbl (snd run) = lock_tbl w).
Proof.
  intros key Hf. split.
  - intros Hreach run. subst run.
    rewrite wrapped_func_result, wrapped_func_counters, wrapped_func_log.
    fold key. rewrite lookup_insert_eq.
    destruct (Z.gtb_spec (next_count w key) limit) as [G | G].
    + destruct Hreach as [Hle | Hok]; [lia |]. rewrite Hok.
      destruct (fst (action args)) as [v | e']; [| discriminate Hok].
      rewrite !app_assoc, last_snoc. auto.
    + rewrite !app_assoc, last_snoc. auto.
  - intros Hfree run. subst run.
    rewrite (_wrap_func_raises _ _ _ _ _ _ _ e Hfree Hf).
    cbn [fst snd log clock call_results lock_tbl].
    rewrite !app_assoc, last_snoc. auto.
Qed.

Lemma wrapped_failure_propagates_witness :
  let func := fun _ : nat => (Raise (A:=nat) (UserError "boom"), 1%Qc) in
  let key := fun _ : nat => "f" in
  let w := fresh_world (Args:=nat) in
  fst (func 5%nat) = Raise (UserError "boom") /\
  next_count w (key 5%nat) <= 2 /\
  is_locked key w 5%nat = false /\
  fst (wrapped_func (V:=unit) key 2 60 None _default_action func 5%nat w) =
    Raise (UserError "boom") /\
  call_results (snd (_wrap key 10 3 _default_perf_condition func 5%nat w)) = [].
Proof.
  cbv zeta. split; [reflexivity |]. split; [vm_compute; discriminate |].
  split; [reflexivity |].
  pose proof (wrapped_failure_propagates (V:=unit) (fun _ : nat => "f") 2 60
                None _default_action 10 3 _default_perf_condition
                (fun _ : nat => (Raise (A:=nat) (UserError "boom"), 1%Qc))
                5%nat fresh_world (UserError "boom")) as H.
  cbv zeta in H. destruct (H eq_refl) as [Hrate Hperf].
  split.
  - apply Hrate. left. vm_compute. discriminate.
  - apply Hperf. reflexivity.
Defined.

(** ** The perf trace and the degradation lock *)

(** On a deque within its capacity, appending evicts the oldest entry exactly
    when the deque is full. *)
Lemma deque_append_spec (maxlen : nat) (d : list Qc) (x : Qc) :
  (length d <= maxlen)%nat ->
  deque_append maxlen d x =
  if (length d =? maxlen)%nat then tail (d ++ [x]) else d ++ [x].
Proof.
  intros Hle. unfold deque_append. rewrite length_app. cbn [length].
  destruct (Nat.ltb_spec maxlen (length d + 1));
    destruct (Nat.eqb_spec (length d) maxlen); try lia; reflexivity.
Qed.

(** The deque never exceeds its capacity. *)
Lemma deque_append_length (maxlen : nat) (d : list Qc) (x : Qc) :
  (length d <= maxlen)%nat -> (length (deque_append maxlen d x) <= maxlen)%nat.
Proof.
  intros Hle. unfold deque_append. rewrite length_app. cbn [length].
  destruct (Nat.ltb_spec maxlen (length d + 1)).
  - destruct d; cbn in *; [lia |]. rewrite length_app. cbn. lia.
  - rewrite length_app. cbn. lia.
Qed.

(** C6: a call of a perf-decorated function whose wrapped function returns
    [r] after [d] seconds returns [r]; if the trace holds exactly
    [trace_size] entries and [perf_condition d trace] holds, it stores the
    lock [key ++ ":lock"] with value [d] and expiry [ttl] and empties the
    trace; if the trace is not full or the condition is false, it sets no
    lock and appends [d] to the trace, dropping the oldest entry when the
    trace was full.  A call made while the lock exists raises
    [PerfDegradationException] and never calls the wrapped function. *)
Theorem perf_trace_and_lock {Args R} (get_cache_key : Args -> string)
    (ttl : Z) (trace_size : nat)
    (perf_condition : Qc -> list Qc -> result bool)
    (func : Args -> result R * Qc) (args : Args) (w : world Args) (r : R) :
  let d := snd (func args) in
  let trace := call_results w in
  let lk := get_cache_key args +:+ ":lock" in
  let run := _wrap get_cache_key ttl trace_size perf_condition func args w in
  (length trace <= trace_size)%nat ->
  (lock_tbl w !! lk = None -> fst (func args) = Ok r ->
   (length trace = trace_size -> perf_condition d trace = Ok true ->
    fst run = Ok r /\
    lock_tbl (snd run) = <[lk := (d, ttl)]> (lock_tbl w) /\
    call_results (snd run) = []) /\
   (length trace <> trace_size \/ perf_condition d trace = Ok false ->
    fst run = Ok r /\
    lock_tbl (snd run) = lock_tbl w /\
    call_results (snd run) =
      if (length trace =? trace_size)%nat then tail (trace ++ [d])
      else trace ++ [d])) /\
  (is_Some (lock_tbl w !! lk) ->
   fst run = Raise PerfDegradationException /\
   log (snd run) = log w ++ [EvIsLocked lk] /\
   call_results (snd run) = trace /\ lock_tbl (snd run) = lock_tbl w).
Proof.
  intros d trace lk run Hcap. subst run. split.
  - intros Hnone Hf.
    assert (Hfree : is_locked get_cache_key w args = false).
    { unfold is_locked, lock_key. fold lk. rewrite Hnone.
      apply bool_decide_eq_false. intros [? ?]; discriminate. }
    rewrite (_wrap_func_returns _ _ _ _ _ _ _ r Hfree Hf).
    fold d. fold trace. unfold lock_key. fold lk.
    rewrite (deque_append_spec _ _ _ Hcap).
    destruct (Nat.eqb_spec (length trace) trace_size) as [E | E].
    + split.
      * intros _ Hc. rewrite Hc. cbn. auto.
      * intros [Hne | Hc]; [contradiction |]. rewrite Hc. cbn. auto.
    + split.
      * intros Heq; contradiction.
      * intros _. cbn. auto.
  - intros Hsome.
    assert (Hl : is_locked get_cache_key w args = true).
    { unfold is_locked, lock_key. fold lk. apply bool_decide_eq_true. exact Hsome. }
    rewrite (_wrap_locked _ _ _ _ _ _ _ Hl). cbn. auto.
Qed.

Lemma perf_trace_and_lock_witness :
  let key := fun _ : nat => "perf:f:10" in
  let func := fun n : nat => (Ok n, Q2Qc (inject_Z 3)) in
  let w := World (Args:=nat) ∅ ∅ ∅ 0%Qc [1%Qc; 1%Qc; 1%Qc] [] in
  let run := _wrap key 10 3 _default_perf_condition func 5%nat w in
  (length (call_results w) <= 3)%nat /\
  lock_tbl w !! "perf:f:10:lock" = None /\
  fst (func 5%nat) = Ok 5%nat /\
  length (call_results w) = 3%nat /\
  _default_perf_condition (snd (func 5%nat)) (call_results w) = Ok true /\
  fst run = Ok 5%nat /\
  lock_tbl (snd run) = <["perf:f:10:lock" := (Q2Qc (inject_Z 3), 10)]> ∅ /\
  call_results (snd run) = [].
Proof.
  cbv zeta.
  pose proof (perf_trace_and_lock (fun _ : nat => "perf:f:10") 10 3
                _default_perf_condition (fun n : nat => (Ok n, Q2Qc (inject_Z 3)))
                5%nat (World ∅ ∅ ∅ 0%Qc [1%Qc; 1%Qc; 1%Qc] []) 5%nat) as H.
  cbv zeta in H.
  assert (Hcap : (length [1%Qc; 1%Qc; 1%Qc] <= 3)%nat) by (cbn; lia).
  assert (Hcond : _default_perf_condition (Q2Qc (inject_Z 3))
                    [1%Qc; 1%Qc; 1%Qc] = Ok true) by reflexivity.
  destruct (H Hcap) as [Hfree _].
  destruct (Hfree eq_refl eq_refl) as [Hfire _].
  repeat (split; [first [exact Hcap | exact Hcond | reflexivity] |]).
  apply Hfire; [reflexivity | exact Hcond].
Defined.

End PolicyFacts.

Module FormatterFacts.
Import Py Formatter.

Section WithLibrary.
Context `{Library}.

(** ** The hash field function *)

Lemma hash_algs_lookup (alg : string) :
  (<["sha1" := sha1]> (<["md5" := md5]> (<["sha256" := sha256]> ∅))
     : gmap string (string -> string)) !! alg =
  if decide (alg = "sha1") then Some sha1
  else if decide (alg = "md5") then Some md5
  else if decide (alg = "sha256") then Some sha256
  else None.
Proof.
  repeat case_decide; subst; simplify_map_eq; reflexivity.
Qed.

(** C7 (amended): for every value, [_hash_func] with an algorithm argument
    that is none of [sha1], [md5] and [sha256] fails with the [KeyError] of
    the lookup in its table of algorithms (the module has no exception of
    its own for it).  Given one of the three, or no argument (then [md5]),
    it returns that digest of the text when the value is a string, and it
    fails with [AttributeError] for any other value, which has no
    [encode]. *)
Theorem hash_func_algorithms (value : pyval) :
  (forall alg : string,
     alg <> "sha1" -> alg <> "md5" -> alg <> "sha256" ->
     _hash_func value (Some alg) = Raise KeyError) /\
  (forall s : string, value = VStr s ->
     _hash_func value (Some "sha1") = Ok (VStr (sha1 s)) /\
     _hash_func value (Some "md5") = Ok (VStr (md5 s)) /\
     _hash_func value (Some "sha256") = Ok (VStr (sha256 s)) /\
     _hash_func value None = Ok (VStr (md5 s))) /\
  ((forall s : string, value <> VStr s) ->
     _hash_func value (Some "sha1") = Raise AttributeError /\
     _hash_func value (Some "md5") = Raise AttributeError /\
     _hash_func value (Some "sha256") = Raise AttributeError /\
     _hash_func value None = Raise AttributeError).
Proof.
  unfold _hash_func. cbn [default].
  split; [| split].
  - intros alg H1 H2 H3. rewrite hash_algs_lookup.
    repeat case_decide; try contradiction. reflexivity.
  - intros s ->. repeat split; rewrite hash_algs_lookup; reflexivity.
  - intros Hv. rewrite !hash_algs_lookup. cbn.
    destruct value as [| b | n | s | l]; try (repeat split; reflexivity).
    elim (Hv s). reflexivity.
Qed.

(** ** Format specifiers *)

Lemma append_cons (a : ascii) (s t : string) :
  String a s +:+ t = String a (s +:+ t).
Proof. reflexivity. Qed.

Lemma append_nil_l (t : string) : "" +:+ t = t.
Proof. reflexivity. Qed.

Lemma contains_app_paren (f : string) : contains "(" (f +:+ "()") = true.
Proof.
  induction f as [| a f IH]; [reflexivity |].
  rewrite append_cons. cbn. destruct (Ascii.eqb a "("); [reflexivity | exact IH].
Qed.

Lemma split_once_app_paren (f : string) :
  contains "(" f = false -> split_once "(" (f +:+ "()") = (f, ")").
Proof.
  induction f as [| a f IH]; [reflexivity |].
  rewrite append_cons. cbn. destruct (Ascii.eqb a "("); [discriminate |].
  intros Hf. rewrite (IH Hf). reflexivity.
Qed.

Lemma app_paren_nonempty (f : string) : String.eqb (f +:+ "()") "" = false.
Proof. destruct f; reflexivity. Qed.

(** An alias followed by an empty pair of parentheses parses into the alias
    and one empty argument. *)
Lemma parse_format_spec_empty_parens (f : string) :
  contains "(" f = false -> parse_format_spec (f +:+ "()") = (f, [""]).
Proof.
  intros Hf. unfold parse_format_spec.
  rewrite app_paren_nonempty, contains_app_paren. cbn [orb negb].
  rewrite (split_once_app_paren f Hf). reflexivity.
Qed.

(** C9: formatting a value with the specifier [f()] calls the function
    registered under [f] with the value and one argument, the empty string;
    the outcome is that call's, whatever the function (so a function of the
    value alone, such as [len], fails on it). *)
Theorem empty_parens_pass_empty_string (functions : gmap string pyfunc)
    (f : string) (fn : pyfunc) (v : pyval) :
  functions !! f = Some fn ->
  contains "(" f = false ->
  func_format_field functions v (f +:+ "()") =
    rbind (fn v [""]) (fun r => Ok (str r)) /\
  func_format_field (<["len" := py_len]> functions) v "len()" = Raise TypeError.
Proof.
  intros Hfn Hf. unfold func_format_field. split.
  - rewrite (parse_format_spec_empty_parens f Hf). cbv zeta. rewrite Hfn.
    destruct (fn v [""]) as [r | e]; reflexivity.
  - change "len()" with ("len" +:+ "()").
    rewrite (parse_format_spec_empty_parens "len" eq_refl). cbv zeta.
    rewrite lookup_insert_eq. reflexivity.
Qed.

(** A specifier whose alias part is not registered does not take part in
    the formatting. *)
Lemma format_field_unregistered (fmt : formatter) (v : pyval) (spec : string) :
  match fmt_functions fmt with
  | None => True
  | Some functions => functions !! fst (parse_format_spec spec) = None
  end ->
  format_field fmt v spec = Ok (str (format_value v)).
Proof.
  intros Hspec. unfold format_field.
  destruct (fmt_functions fmt) as [functions |]; [| reflexivity].
  unfold func_format_field.
  destruct (parse_format_spec spec) as [alias args]. cbn [fst] in Hspec.
  cbv zeta. rewrite Hspec. reflexivity.
Qed.

(** C10: a specifier whose alias part is not registered is dropped: the
    value is rendered by [str] after [format_value] ([None] as the empty
    string, booleans in lower case, anything else as it is), by both
    formatter classes, and there is no error. *)
Theorem unregistered_spec_discarded (fmt : formatter) (v : pyval)
    (spec : string) :
  match fmt_functions fmt with
  | None => True
  | Some functions => functions !! fst (parse_format_spec spec) = None
  end ->
  format_field fmt v spec = Ok (str (format_value v)) /\
  str (format_value VNone) = "" /\
  str (format_value (VBool true)) = "true" /\
  str (format_value (VBool false)) = "false" /\
  (forall n, str (format_value (VInt n)) = str (VInt n)) /\
  (forall s, str (format_value (VStr s)) = s) /\
  (forall l, str (format_value (VList l)) = str (VList l)).
Proof.
  intros Hspec. split; [| repeat split].
  apply format_field_unregistered, Hspec.
Qed.

(** ** Templates that parse *)

(** A template that parses is read item by item without fault. *)
Lemma parse_items_fuel_ok (fuel : nat) (s : string) (toks : list token) :
  parse_fuel fuel s = Ok toks -> parse_items_fuel fuel s = (toks, None).
Proof.
  revert s toks. induction fuel as [| fuel IH]; intros s toks; [discriminate |].
  cbn [parse_fuel parse_items_fuel].
  destruct s as [| a s]; [intros Heq; injection Heq as <-; reflexivity |].
  destruct (scan_literal (String a s)) as [lit [[c [| c' r]] |]].
  - discriminate.
  - destruct (Ascii.eqb c c').
    + destruct (parse_fuel fuel r) as [more |] eqn:Hmore; [| discriminate].
      cbn [rbind]. intros Heq. injection Heq as <-.
      rewrite (IH _ _ Hmore). reflexivity.
    + destruct (Ascii.eqb c "}"); [discriminate |].
      destruct (parse_field (String c' r)) as [[f r'] |]; [| discriminate].
      destruct (parse_fuel fuel r') as [more |] eqn:Hmore; [| discriminate].
      cbn [rbind]. intros Heq. injection Heq as <-.
      rewrite (IH _ _ Hmore). reflexivity.
  - intros Heq. injection Heq as <-. reflexivity.
Qed.

(** Formatting a template that parses is the loop over its items. *)
Lemma _vformat_parsed (depth : nat) (fmt : formatter)
    (kwargs : gmap string pyval) (s : string) (toks : list token) :
  parse s = Ok toks ->
  _vformat (S depth) fmt kwargs s =
    render_tokens (_vformat depth fmt kwargs) fmt kwargs toks.
Proof.
  intros Hparse. cbn [_vformat]. unfold parse_items.
  rewrite (parse_items_fuel_ok _ _ _ Hparse).
  destruct (render_tokens _ fmt kwargs toks); reflexivity.
Qed.

(** ** Values passed as keyword arguments *)

(** Values that bind neither parameter name are passed on to [format]. *)
Lemma template_to_pattern_unbound (template : string) (fmt : formatter)
    (values : gmap string pyval) :
  values !! "template" = None -> values !! "_formatter" = None ->
  template_to_pattern template fmt values = vformat fmt template values.
Proof. intros Ht Hf. unfold template_to_pattern. rewrite Ht, Hf. reflexivity. Qed.

Lemma template_to_pattern_no_values (template : string) (fmt : formatter) :
  template_to_pattern template fmt ∅ = vformat fmt template ∅.
Proof. apply template_to_pattern_unbound; apply lookup_empty. Qed.

(** A value for either parameter name is refused. *)
Lemma template_to_pattern_bound (template : string) (fmt : formatter)
    (values : gmap string pyval) :
  is_Some (values !! "template") \/ is_Some (values !! "_formatter") ->
  template_to_pattern template fmt values = Raise TypeError.
Proof.
  unfold template_to_pattern. intros [[v Hv] | [v Hv]]; rewrite Hv.
  - reflexivity.
  - destruct (values !! "template"); reflexivity.
Qed.

(** ** Fields missing from the value map *)

(** [get_integer] raises nothing but its [ValueError]. *)
Lemma get_integer_from_raise (s : string) (accumulator : Z) (e : exn) :
  get_integer_from accumulator s = Raise e -> e = ValueError.
Proof.
  revert accumulator. induction s as [| c s IH]; intros accumulator; cbn [get_integer_from].
  - discriminate.
  - destruct (is_digit c); [| discriminate].
    destruct (_ >? _); [intros Heq; inversion Heq; reflexivity | apply IH].
Qed.

Lemma get_integer_raise (s : string) (e : exn) :
  get_integer s = Raise e -> e = ValueError.
Proof.
  destruct s as [| c s]; [discriminate |]. apply get_integer_from_raise.
Qed.

(** A field looked up by name has a name, which [_vformat] leaves as it is,
    and a first part that is no number. *)
Lemma is_positional_false (name : string) :
  is_positional name = false ->
  auto_number name = name /\
  get_integer (fst (field_name_split name)) = Ok None.
Proof.
  unfold is_positional. destruct name as [| c name]; [discriminate |].
  destruct (get_integer _) as [[idx |] | e]; try discriminate.
  intros _. split; reflexivity.
Qed.

(** A named field whose first name is not bound resolves to the marker of
    the default policy. *)
Lemma get_field_missing (fmt : formatter) (kwargs : gmap string pyval)
    (name : string) :
  is_positional name = false ->
  kwargs !! fst (field_name_split name) = None ->
  get_field fmt name kwargs = Ok (VStr (fmt_default fmt name)).
Proof.
  intros Hpos Hnone. unfold get_field, base_get_field.
  destruct (is_positional_false _ Hpos) as [_ Hint].
  destruct (field_name_split name) as [first rest]. cbn [fst] in Hnone, Hint.
  rewrite Hint, Hnone. reflexivity.
Qed.

(** C8 (amended): resolving a named field that the value map does not bind
    raises no error: the marker of the formatter's default policy stands for
    the value.  With no conversion and a specifier that names no registered
    function the field renders as the marker; a registered function named by
    the specifier is applied to the marker and its outcome, possibly an
    error, is the field's.  The marker of [_ReplaceFormatter()] is the star;
    [default_formatter] is built with the empty string. *)
Theorem missing_name_substitutes_default (expand : string -> result string)
    (fmt : formatter) (kwargs : gmap string pyval) (f : field) (spec' : string) :
  let marker := fmt_default fmt (field_name f) in
  is_positional (field_name f) = false ->
  kwargs !! fst (field_name_split (field_name f)) = None ->
  conversion f = None ->
  expand (format_spec f) = Ok spec' ->
  get_field fmt (field_name f) kwargs = Ok (VStr marker) /\
  (match fmt_functions fmt with
   | None => True
   | Some functions => functions !! fst (parse_format_spec spec') = None
   end -> render_field expand fmt kwargs f = Ok marker) /\
  (forall (functions : gmap string pyfunc) (fn : pyfunc),
     fmt_functions fmt = Some functions ->
     functions !! fst (parse_format_spec spec') = Some fn ->
     render_field expand fmt kwargs f =
       rbind (fn (VStr marker) (snd (parse_format_spec spec')))
             (fun r => Ok (str r))) /\
  fmt_default (_ReplaceFormatter None) (field_name f) = "*" /\
  fmt_default default_formatter (field_name f) = "".
Proof.
  intros marker Hpos Hnone Hconv Hexp.
  pose proof (get_field_missing fmt kwargs _ Hpos Hnone) as Hget.
  split; [exact Hget |]. split; [| split; [| split; reflexivity]].
  - intros Hspec. unfold render_field.
    rewrite (proj1 (is_positional_false _ Hpos)), Hget, Hconv, Hexp.
    cbn [rbind convert_field].
    apply (format_field_unregistered fmt (VStr marker) spec' Hspec).
  - intros functions fn Hfs Hfn. unfold render_field.
    rewrite (proj1 (is_positional_false _ Hpos)), Hget, Hconv, Hexp.
    cbn [rbind convert_field].
    unfold format_field. rewrite Hfs. unfold func_format_field.
    destruct (parse_format_spec spec') as [alias args]. cbn [fst snd] in *.
    cbv beta iota zeta. rewrite Hfn. subst marker.
    destruct (fn _ args); reflexivity.
Qed.

End WithLibrary.

#[local] Existing Instance example_library.

(** C7, as stated, fails for a value that is no string: an integer has no
    [encode], so the digest is not returned, with [md5] named or with no
    argument, by the function itself and through a template. *)
Lemma hash_func_counterexample :
  _hash_func (H:=example_library) (VInt 7) None = Raise AttributeError /\
  _hash_func (H:=example_library) (VInt 7) (Some "md5") = Raise AttributeError /\
  vformat (H:=example_library) default_formatter "user:{id:hash}"
    (<["id" := VInt 7]> ∅) = Raise AttributeError.
Proof. repeat split; vm_compute; reflexivity. Qed.

Lemma hash_func_algorithms_witness :
  ("sha512" <> "sha1" /\ "sha512" <> "md5" /\ "sha512" <> "sha256" /\
   _hash_func (H:=example_library) (VStr "abc") (Some "sha512") = Raise KeyError) /\
  _hash_func (H:=example_library) (VStr "abc") (Some "sha256") =
    Ok (VStr (sha256 (Library:=example_library) "abc")) /\
  _hash_func (H:=example_library) (VStr "abc") None =
    Ok (VStr (md5 (Library:=example_library) "abc")).
Proof.
  destruct (hash_func_algorithms (H:=example_library) (VStr "abc"))
    as (Hkey & Hdigest & _).
  destruct (Hdigest "abc" eq_refl) as (_ & _ & Hsha256 & Hdefault).
  split; [| split; [exact Hsha256 | exact Hdefault]].
  repeat (split; [discriminate |]).
  apply Hkey; discriminate.
Defined.

Lemma empty_parens_pass_empty_string_witness :
  let count_args : pyfunc := fun _ args => Ok (VInt (Z.of_nat (length args))) in
  let functions : gmap string pyfunc := <["n" := count_args]> ∅ in
  functions !! "n" = Some count_args /\
  contains "(" "n" = false /\
  func_format_field functions (VStr "v") "n()" = Ok "1" /\
  func_format_field functions (VStr "v") "n" = Ok "0".
Proof.
  intros count_args functions.
  split; [reflexivity |]. split; [reflexivity |]. split; [| reflexivity].
  apply (proj1 (empty_parens_pass_empty_string
                  functions "n" count_args (VStr "v") eq_refl eq_refl)).
Defined.

Lemma unregistered_spec_discarded_witness :
  fmt_functions (default_formatter (H:=example_library)) ≫=
    (fun functions => functions !! fst (parse_format_spec ">10")) = None /\
  format_field (default_formatter (H:=example_library)) (VBool true) ">10" = Ok "true".
Proof.
  split; [reflexivity |].
  apply (proj1 (unregistered_spec_discarded (default_formatter (H:=example_library))
                  (VBool true) ">10" eq_refl)).
Defined.

(** C8, as stated, fails on [default_formatter]: the marker of a missing
    field is handed to the function the specifier names, so the field can
    render as something else ([len] of the marker) or raise ([jwt] cannot
    split the marker into three segments). *)
Lemma missing_field_counterexample :
  vformat (H:=example_library) default_formatter "{items:len}" ∅ = Ok "0" /\
  vformat (H:=example_library) default_formatter "{token:jwt(sub)}" ∅ =
    Raise ValueError.
Proof. split; reflexivity. Qed.

Lemma missing_name_substitutes_default_witness :
  let f := Field "user" ">10" None in
  is_positional (field_name f) = false /\
  (∅ : gmap string pyval) !! fst (field_name_split (field_name f)) = None /\
  conversion f = None /\
  _vformat (H:=example_library) 2 (_ReplaceFormatter None) ∅ (format_spec f) = Ok ">10" /\
  render_field (H:=example_library)
    (_vformat (H:=example_library) 2 (_ReplaceFormatter None) ∅)
    (_ReplaceFormatter None) ∅ f = Ok "*".
Proof.
  cbv zeta. repeat (split; [reflexivity |]).
  pose proof (missing_name_substitutes_default (H:=example_library)
                (_vformat (H:=example_library) 2 (_ReplaceFormatter None) ∅)
                (_ReplaceFormatter None) ∅ (Field "user" ">10" None) ">10"
                eq_refl eq_refl eq_refl eq_refl) as H.
  cbv zeta in H. destruct H as (_ & Hrender & _). apply Hrender. exact I.
Defined.

End FormatterFacts.

Module RegistryFacts.
Import Py Formatter Re Registry.

Section WithLibrary.
Context `{Library}.

(** ** Formatting with no values *)

(** With no values, a field whose first part is a number fails, and any
    other field resolves to the marker. *)
Lemma get_field_no_values (fmt : formatter) (name : string) :
  get_field fmt name ∅ =
  match get_integer (fst (field_name_split name)) with
  | Ok None => Ok (VStr (fmt_default fmt name))
  | Ok (Some _) => Raise IndexError
  | Raise _ => Raise ValueError
  end.
Proof.
  unfold get_field, base_get_field.
  destruct (field_name_split name) as [first rest]. cbn [fst].
  destruct (get_integer first) as [[idx |] | e] eqn:Hint; [reflexivity | |].
  - rewrite lookup_empty. reflexivity.
  - apply FormatterFacts.get_integer_raise in Hint. subst e. reflexivity.
Qed.

Lemma convert_field_str_ok (x y : string) (conv : option ascii) :
  is_ok (convert_field (VStr x) conv) = is_ok (convert_field (VStr y) conv).
Proof.
  unfold convert_field. destruct conv as [c |]; [| reflexivity].
  repeat (destruct (Ascii.eqb c _); [reflexivity |]). reflexivity.
Qed.

Section TwoPolicies.
Variables fmt1 fmt2 : formatter.
Hypothesis Hf1 : fmt_functions fmt1 = None.
Hypothesis Hf2 : fmt_functions fmt2 = None.

Lemma render_field_ok_indep (e1 e2 : string -> result string) (f : field) :
  is_ok (e1 (format_spec f)) = is_ok (e2 (format_spec f)) ->
  is_ok (render_field e1 fmt1 ∅ f) = is_ok (render_field e2 fmt2 ∅ f).
Proof.
  intros He. unfold render_field. rewrite !get_field_no_values.
  set (name := auto_number (field_name f)).
  destruct (get_integer (fst (field_name_split name))) as [[idx |] | e];
    [reflexivity | | reflexivity].
  cbn [rbind].
  pose proof (convert_field_str_ok (fmt_default fmt1 name)
                (fmt_default fmt2 name) (conversion f)) as Hc.
  destruct (convert_field (VStr (fmt_default fmt1 name)) (conversion f));
    destruct (convert_field (VStr (fmt_default fmt2 name)) (conversion f));
    try discriminate Hc; [| reflexivity].
  cbn [rbind].
  destruct (e1 (format_spec f)); destruct (e2 (format_spec f));
    try discriminate He; [| reflexivity].
  cbn [rbind]. unfold format_field. rewrite Hf1, Hf2. reflexivity.
Qed.

Lemma render_tokens_ok_indep (e1 e2 : string -> result string)
    (toks : list token) :
  (forall s, is_ok (e1 s) = is_ok (e2 s)) ->
  is_ok (render_tokens e1 fmt1 ∅ toks) = is_ok (render_tokens e2 fmt2 ∅ toks).
Proof.
  intros He. induction toks as [| [lit fld] toks IH]; [reflexivity |].
  cbn [render_tokens].
  assert (Hp : is_ok (match fld with
                      | None => Ok ""
                      | Some f => render_field e1 fmt1 ∅ f
                      end) =
               is_ok (match fld with
                      | None => Ok ""
                      | Some f => render_field e2 fmt2 ∅ f
                      end)).
  { destruct fld as [f |]; [| reflexivity].
    apply render_field_ok_indep, He. }
  destruct (match fld with None => Ok "" | Some f => render_field e1 fmt1 ∅ f end);
    destruct (match fld with None => Ok "" | Some f => render_field e2 fmt2 ∅ f end);
    try discriminate Hp; [| reflexivity].
  cbn [rbind].
  destruct (render_tokens e1 fmt1 ∅ toks); destruct (render_tokens e2 fmt2 ∅ toks);
    try discriminate IH; reflexivity.
Qed.

(** Whether formatting with no values succeeds does not depend on the
    default policy. *)
Lemma _vformat_ok_indep (depth : nat) (s : string) :
  is_ok (_vformat depth fmt1 ∅ s) = is_ok (_vformat depth fmt2 ∅ s).
Proof.
  revert s. induction depth as [| depth IH]; intros s; [reflexivity |].
  cbn [_vformat]. destruct (parse_items s) as [items fault].
  pose proof (render_tokens_ok_indep (_vformat depth fmt1 ∅)
                (_vformat depth fmt2 ∅) items IH) as Hitems.
  destruct (render_tokens (_vformat depth fmt1 ∅) fmt1 ∅ items);
    destruct (render_tokens (_vformat depth fmt2 ∅) fmt2 ∅ items);
    try discriminate Hitems; [| reflexivity].
  cbn [rbind]. destruct fault; reflexivity.
Qed.
End TwoPolicies.

(** ** Scanning the registry *)

Lemma scan_templates_spec (func : func_id) (templates : list (string * pattern))
    (key : string) :
  match scan_templates templates key with
  | None =>
      Forall (no_match key) (map (fun '(t, p) => (func, t, p)) templates)
  | Some (t, p, caps) =>
      exists before after,
        map (fun '(t, p) => (func, t, p)) templates = before ++ (func, t, p) :: after /\
        Forall (no_match key) before /\ fullmatch p key = Some caps
  end.
Proof.
  induction templates as [| [t p] templates IH]; cbn [scan_templates map].
  - constructor.
  - destruct (fullmatch p key) as [caps |] eqn:Hm.
    + exists [], (map (fun '(t, p) => (func, t, p)) templates).
      split; [reflexivity |]. split; [constructor | exact Hm].
    + destruct (scan_templates templates key) as [[[t' p'] caps'] |].
      * destruct IH as (before & after & Heq & Hbefore & Hhit).
        exists ((func, t, p) :: before), after. rewrite Heq.
        split; [reflexivity |]. split; [| exact Hhit].
        constructor; [exact Hm | exact Hbefore].
      * constructor; [exact Hm | exact IH].
Qed.

Lemma scan_register_spec (reg : registry) (key : string) :
  match scan_register reg key with
  | None => Forall (no_match key) (triples reg)
  | Some (func, (t, p, caps)) =>
      exists before after,
        triples reg = before ++ (func, t, p) :: after /\
        Forall (no_match key) before /\ fullmatch p key = Some caps
  end.
Proof.
  induction reg as [| [func templates] reg IH]; cbn [scan_register].
  - constructor.
  - unfold triples. cbn [flat_map]. fold (triples reg).
    pose proof (scan_templates_spec func templates key) as Ht.
    destruct (scan_templates templates key) as [[[t p] caps] |].
    + destruct Ht as (before & after & Heq & Hbefore & Hhit).
      exists before, (after ++ triples reg). rewrite Heq, <- app_assoc.
      split; [reflexivity |]. split; [exact Hbefore | exact Hhit].
    + destruct (scan_register reg key) as [[func' [[t p] caps]] |].
      * destruct IH as (before & after & Heq & Hbefore & Hhit).
        exists (map (fun '(t, p) => (func, t, p)) templates ++ before), after.
        rewrite Heq, <- app_assoc. split; [reflexivity |].
        split; [| exact Hhit]. apply Forall_app. split; assumption.
      * apply Forall_app. split; assumption.
Qed.

(** ** What a reachable registry holds *)

Lemma func_id_eqb_eq (a b : func_id) : func_id_eqb a b = true -> a = b.
Proof.
  destruct a as [a1 a2], b as [b1 b2]. unfold func_id_eqb. cbn [fst snd].
  intros Hab. apply andb_true_iff in Hab as [H1 H2].
  apply String.eqb_eq in H1, H2. congruence.
Qed.

Lemma set_add_elem (entry e : string * pattern) (entries : list (string * pattern)) :
  e ∈ set_add entry entries -> e ∈ entries \/ e = entry.
Proof.
  unfold set_add. destruct (existsb _ _); [auto |].
  rewrite elem_of_app, list_elem_of_singleton. auto.
Qed.

Lemma setdefault_add_elem (reg : registry) (func : func_id)
    (entry : string * pattern) (tr : func_id * string * pattern) :
  tr ∈ triples (setdefault_add reg func entry) ->
  tr ∈ triples reg \/ tr = (func, fst entry, snd entry).
Proof.
  induction reg as [| [f entries] reg IH]; cbn [setdefault_add].
  - unfold triples. cbn. destruct entry as [t p].
    rewrite list_elem_of_singleton. auto.
  - destruct (func_id_eqb f func) eqn:Hf.
    + apply func_id_eqb_eq in Hf. subst f.
      unfold triples. cbn [flat_map]. rewrite !elem_of_app, !list_elem_of_fmap.
      intros [[[t p] [Heq Hin]] | Hin]; [| auto]. subst tr.
      apply set_add_elem in Hin as [Hin | Hin]; [| subst entry; auto].
      left. left. exists (t, p). auto.
    + unfold triples. cbn [flat_map]. fold (triples reg).
      fold (triples (setdefault_add reg func entry)).
      rewrite !elem_of_app. intros [Hin | Hin]; [auto |].
      destruct (IH Hin); auto.
Qed.

(** Every registered pattern is the compiled pattern of its template. *)
Lemma reachable_compiled (reg : registry) :
  reachable reg ->
  forall func t p, (func, t, p) ∈ triples reg ->
    exists text, pattern_text t = Ok text /\ compile text = Ok p.
Proof.
  induction 1 as [| reg func template reg' Hreach IH Hreg];
    intros f t p Hin.
  - unfold triples in Hin. cbn in Hin. inversion Hin.
  - unfold register_template in Hreg.
    destruct (pattern_text template) as [text |] eqn:Htext; [| discriminate].
    cbn [rbind] in Hreg.
    destruct (compile text) as [cp |] eqn:Hcp; [| discriminate].
    cbn [rbind] in Hreg. injection Hreg as <-.
    apply setdefault_add_elem in Hin as [Hin | Heq].
    + exact (IH f t p Hin).
    + cbn [fst snd] in Heq. injection Heq as -> -> ->. eauto.
Qed.

(** ** Looking a key up *)

(** C3 (amended): over a registry built by [register_template],
    [get_template_and_func_for] scans the registered triples in order.  When
    no pattern matches the whole key it returns [(None, None)].  When some
    pattern does, it stops at the first such triple and returns the owning
    function's identity together with the wildcard form of the template,
    that is the template formatted with no values by [_ReplaceFormatter()],
    every field replaced by the star; it does not return the template
    itself. *)
Theorem lookup_by_key_scans (reg : registry) (key : string) :
  reachable reg ->
  (Forall (no_match key) (triples reg) ->
   get_template_and_func_for reg key = Ok (None, None)) /\
  (Exists (fun tr => ~ no_match key tr) (triples reg) ->
   exists func t p before after wildcard,
     triples reg = before ++ (func, t, p) :: after /\
     Forall (no_match key) before /\
     is_Some (fullmatch p key) /\
     template_to_pattern t (_ReplaceFormatter None) ∅ = Ok wildcard /\
     get_template_and_func_for reg key = Ok (Some wildcard, Some func)).
Proof.
  intros Hreach. unfold get_template_and_func_for.
  pose proof (scan_register_spec reg key) as Hscan.
  destruct (scan_register reg key) as [[func [[t p] caps]] |].
  - destruct Hscan as (before & after & Heq & Hbefore & Hhit).
    assert (Hin : (func, t, p) ∈ triples reg).
    { rewrite Heq. apply elem_of_app. right. apply list_elem_of_here. }
    split.
    + intros Hall. rewrite Forall_forall in Hall.
      specialize (Hall _ Hin). unfold no_match in Hall. cbn [snd] in Hall.
      congruence.
    + intros _.
      destruct (reachable_compiled reg Hreach func t p Hin) as (text & Htext & _).
      unfold pattern_text, template_to_pattern, vformat in Htext.
      pose proof (_vformat_ok_indep _re_formatter (_ReplaceFormatter None)
                    eq_refl eq_refl 3 t) as Hok.
      destruct (_vformat 3 _re_formatter ∅ t) as [body |]; [| discriminate].
      unfold template_to_pattern, vformat.
      destruct (_vformat 3 (_ReplaceFormatter None) ∅ t) as [wildcard |] eqn:Hw;
        [| discriminate].
      exists func, t, p, before, after, wildcard. rewrite Hhit.
      repeat split; eauto.
  - split; [reflexivity |].
    intros Hex. apply Exists_exists in Hex as (tr & Hin & Hmatch).
    rewrite Forall_forall in Hscan. elim Hmatch. apply Hscan, Hin.
Qed.

End WithLibrary.

#[local] Existing Instance example_library.

(** C3, as stated, fails: the lookup returns the wildcard form of the
    matching template, not the template. *)
Lemma lookup_by_key_counterexample :
  exists reg,
    register_template [] ("app.views", "get_user") "user:{id}" = Ok reg /\
    map fst (triples reg) = [("app.views", "get_user", "user:{id}")] /\
    get_template_and_func_for reg "user:42" =
      Ok (Some "user:*", Some ("app.views", "get_user")) /\
    "user:*" <> "user:{id}".
Proof.
  eexists. split; [vm_compute; reflexivity |].
  split; [reflexivity |]. split; [vm_compute; reflexivity | discriminate].
Qed.

Lemma lookup_by_key_scans_witness :
  reachable example_registry /\
  Forall (no_match "order:7") (triples example_registry) /\
  get_template_and_func_for example_registry "order:7" = Ok (None, None).
Proof.
  assert (Hreach : reachable example_registry).
  { apply (reachable_register [] ("app.views", "get_user") "user:{id}");
      [apply reachable_empty | vm_compute; reflexivity]. }
  assert (Hnone : Forall (no_match "order:7") (triples example_registry)).
  { repeat constructor. }
  split; [exact Hreach |]. split; [exact Hnone |].
  exact (proj1 (lookup_by_key_scans _ "order:7" Hreach) Hnone).
Defined.

End RegistryFacts.

Module RoundTripFacts.
Import Py Formatter Re Registry RoundTrip.
Import FormatterFacts RegistryFacts.

(** ** Identifiers *)

Lemma name_char_neq (c x : ascii) :
  is_name_char c = true -> is_name_char x = false -> Ascii.eqb c x = false.
Proof.
  intros Hc Hx. destruct (Ascii.eqb_spec c x) as [-> | _]; [congruence | reflexivity].
Qed.

(** An identifier has no dot and no bracket: it is its own first part. *)
Lemma field_name_split_ident (n : string) :
  forallb_string is_name_char n = true -> field_name_split n = (n, "").
Proof.
  induction n as [| c n IH]; [reflexivity |].
  cbn [forallb_string field_name_split]. intros Hn.
  apply andb_true_iff in Hn as [Hc Hn].
  rewrite (name_char_neq c "." Hc eq_refl), (name_char_neq c "[" Hc eq_refl).
  cbn [orb]. rewrite (IH Hn). reflexivity.
Qed.

Lemma is_ident_chars (n : string) :
  is_ident n = true -> forallb_string is_name_char n = true.
Proof.
  destruct n as [| c n]; [discriminate |]. unfold is_ident.
  intros Hn. apply andb_true_iff in Hn as [_ Hn]. exact Hn.
Qed.

Lemma name_start_not_digit (c : ascii) :
  is_name_start c = true -> is_digit c = false.
Proof.
  unfold is_name_start, is_letter, is_digit.
  destruct (Ascii.eqb_spec c "_") as [-> | _]; [reflexivity |].
  rewrite orb_false_r. intros Hc.
  destruct (Nat.leb_spec 48 (nat_of_ascii c)), (Nat.leb_spec (nat_of_ascii c) 57);
    try reflexivity.
  destruct (Nat.leb_spec 65 (nat_of_ascii c)), (Nat.leb_spec (nat_of_ascii c) 90),
    (Nat.leb_spec 97 (nat_of_ascii c)), (Nat.leb_spec (nat_of_ascii c) 122);
    cbn in Hc; try discriminate; lia.
Qed.

(** An identifier is a named field, not a positional one. *)
Lemma is_positional_ident (n : string) :
  is_ident n = true -> is_positional n = false.
Proof.
  intros Hn. pose proof (is_ident_chars n Hn) as Hchars.
  destruct n as [| c n]; [discriminate |].
  unfold is_positional. rewrite (field_name_split_ident _ Hchars). cbn [fst].
  unfold is_ident in Hn. apply andb_true_iff in Hn as [Hc _].
  cbn [get_integer get_integer_from]. rewrite (name_start_not_digit c Hc).
  reflexivity.
Qed.

Lemma replace_char_ident (n : string) :
  forallb_string is_name_char n = true -> replace_char "." "_" n = n.
Proof.
  induction n as [| c n IH]; [reflexivity |].
  cbn [forallb_string replace_char]. intros Hn.
  apply andb_true_iff in Hn as [Hc Hn].
  rewrite (name_char_neq c "." Hc eq_refl), (IH Hn). reflexivity.
Qed.

(** ** Formatting a separated template *)

Lemma append_nil_r (s : string) : s +:+ "" = s.
Proof.
  induction s as [| c s IH]; [reflexivity |].
  rewrite append_cons, IH. reflexivity.
Qed.

Lemma append_assoc (a b c : string) : (a +:+ b) +:+ c = a +:+ (b +:+ c).
Proof.
  induction a as [| x a IH]; [reflexivity |].
  rewrite !append_cons, IH. reflexivity.
Qed.

Lemma scan_literal_brace_free (s : string) :
  brace_free s = true -> scan_literal s = (s, None).
Proof.
  induction s as [| c s IH]; [reflexivity |].
  cbn [brace_free forallb_string scan_literal]. intros Hs.
  apply andb_true_iff in Hs as [Hc Hs].
  destruct (is_brace c); [discriminate |]. rewrite (IH Hs). reflexivity.
Qed.

Lemma parse_brace_free (s : string) :
  brace_free s = true ->
  parse s = Ok (match s with EmptyString => [] | _ => [(s, None)] end).
Proof.
  intros Hs. unfold parse. cbn [parse_fuel].
  destruct s as [| c s]; [reflexivity |].
  rewrite (scan_literal_brace_free _ Hs). reflexivity.
Qed.

Section WithLibrary.
Context `{Library}.

(** A spec without braces expands to itself. *)
Lemma _vformat_brace_free (depth : nat) (fmt : formatter)
    (kwargs : gmap string pyval) (s : string) :
  brace_free s = true -> _vformat (S depth) fmt kwargs s = Ok s.
Proof.
  intros Hs. rewrite (_vformat_parsed _ _ _ _ _ (parse_brace_free s Hs)).
  destruct s as [| c s]; [reflexivity |].
  cbn [rbind render_tokens]. rewrite append_nil_l, append_nil_r. reflexivity.
Qed.

Lemma default_functions_lookup (alias : string) :
  existsb (String.eqb alias) ["len"; "jwt"; "hash"] = false ->
  match fmt_functions default_formatter with
  | None => True
  | Some functions => functions !! alias = None
  end.
Proof.
  cbn [existsb fmt_functions default_formatter]. intros Ha.
  apply orb_false_iff in Ha as [H1 Ha].
  apply orb_false_iff in Ha as [H2 Ha].
  apply orb_false_iff in Ha as [H3 _].
  apply String.eqb_neq in H1, H2, H3.
  rewrite !lookup_insert_ne by congruence. apply lookup_empty.
Qed.

(** A simple field bound to [v] renders as the text of [v]. *)
Lemma render_field_bound (depth : nat) (kwargs : gmap string pyval)
    (f : field) (v : pyval) :
  simple_field f = true ->
  kwargs !! field_name f = Some v ->
  render_field (_vformat (S depth) default_formatter kwargs) default_formatter
    kwargs f = Ok (value_text v).
Proof.
  unfold simple_field, unaliased. intros Hf Hv.
  apply andb_true_iff in Hf as [Hf Hconv].
  apply andb_true_iff in Hf as [Hname Hspec].
  apply andb_true_iff in Hspec as [Hbf Halias].
  apply negb_true_iff in Halias.
  destruct (conversion f) eqn:Hc; [discriminate |].
  destruct (is_positional_false _ (is_positional_ident _ Hname)) as [Hnum Hint].
  unfold render_field, get_field, base_get_field. rewrite Hnum.
  rewrite (field_name_split_ident _ (is_ident_chars _ Hname)) in Hint |- *.
  cbn [fst] in Hint. rewrite Hint, Hv.
  cbn [rbind]. rewrite Hc. cbn [convert_field rbind].
  rewrite (_vformat_brace_free _ _ _ _ Hbf). cbn [rbind].
  apply format_field_unregistered, default_functions_lookup.
  exact Halias.
Qed.

(** A simple field compiles to its named group. *)
Lemma render_field_pattern (depth : nat) (f : field) :
  simple_field f = true ->
  render_field (_vformat (S depth) _re_formatter ∅) _re_formatter ∅ f =
    Ok (_re_default (field_name f)).
Proof.
  unfold simple_field, unaliased. intros Hf.
  apply andb_true_iff in Hf as [Hf Hconv].
  apply andb_true_iff in Hf as [Hname Hspec].
  apply andb_true_iff in Hspec as [Hbf _].
  destruct (conversion f) eqn:Hc; [discriminate |].
  destruct (is_positional_false _ (is_positional_ident _ Hname)) as [Hnum Hint].
  unfold render_field. rewrite Hnum, RegistryFacts.get_field_no_values, Hint.
  cbn [rbind]. rewrite Hc.
  cbn [convert_field rbind]. rewrite (_vformat_brace_free _ _ _ _ Hbf).
  reflexivity.
Qed.

Lemma simple_tokens_cons (lit : string) (fld : option field) (rest : list token) :
  simple_tokens ((lit, fld) :: rest) = true ->
  plain_text lit = true /\
  match fld with
  | None => True
  | Some f => simple_field f = true
  end /\
  simple_tokens rest = true.
Proof.
  cbn [simple_tokens]. intros Hs.
  apply andb_true_iff in Hs as [Hs Hrest].
  apply andb_true_iff in Hs as [Hlit Hfld].
  repeat split; try assumption.
  destruct fld; [exact Hfld | exact I].
Qed.

Lemma separated_simple (toks : list token) :
  separated toks = true -> simple_tokens toks = true.
Proof. unfold separated. intros Hs. apply andb_true_iff in Hs as [Hs _]. exact Hs. Qed.

Lemma separated_segmented (toks : list token) :
  separated toks = true -> segmented false toks = true.
Proof. unfold separated. intros Hs. apply andb_true_iff in Hs as [_ Hs]. exact Hs. Qed.

Lemma bound_without_colon_cons (kwargs : gmap string pyval) (lit : string)
    (fld : option field) (rest : list token) :
  bound_without_colon kwargs ((lit, fld) :: rest) ->
  match fld with
  | None => True
  | Some f => exists v, kwargs !! field_name f = Some v /\
                        contains ":" (value_text v) = false
  end /\
  bound_without_colon kwargs rest.
Proof.
  unfold bound_without_colon. intros Hb. split.
  - destruct fld as [f |]; [| exact I]. apply Hb. cbn. apply list_elem_of_here.
  - intros f Hf. apply Hb. destruct fld; cbn; [apply list_elem_of_further |]; exact Hf.
Qed.

(** The key of a template of simple tokens whose fields are bound. *)
Lemma render_tokens_key (depth : nat) (kwargs : gmap string pyval)
    (toks : list token) :
  simple_tokens toks = true ->
  bound_without_colon kwargs toks ->
  render_tokens (_vformat (S depth) default_formatter kwargs) default_formatter
    kwargs toks = Ok (key_text kwargs toks).
Proof.
  induction toks as [| [lit fld] toks IH]; [reflexivity |].
  intros Hsep Hbound.
  apply simple_tokens_cons in Hsep as (_ & Hf & Hsep).
  apply bound_without_colon_cons in Hbound as (Hv & Hbound).
  cbn [render_tokens key_text]. rewrite (IH Hsep Hbound).
  destruct fld as [f |]; [| reflexivity].
  destruct Hv as (v & Hv & _).
  rewrite (render_field_bound _ _ _ v Hf Hv), Hv. reflexivity.
Qed.

(** The text of the pattern of a template of simple tokens. *)
Lemma render_tokens_pattern (depth : nat) (toks : list token) :
  simple_tokens toks = true ->
  render_tokens (_vformat (S depth) _re_formatter ∅) _re_formatter ∅ toks =
    Ok (body_text toks).
Proof.
  induction toks as [| [lit fld] toks IH]; [reflexivity |].
  intros Hsep. apply simple_tokens_cons in Hsep as (_ & Hf & Hsep).
  cbn [render_tokens body_text]. rewrite (IH Hsep).
  destruct fld as [f |]; [| reflexivity].
  rewrite (render_field_pattern _ _ Hf). reflexivity.
Qed.

End WithLibrary.

(** ** Compiling the pattern of a separated template *)

Lemma is_plain_spec (c : ascii) :
  is_plain c = true ->
  existsb (Ascii.eqb c) (list_ascii_of_string "^$*+?{[\|()") = false.
Proof. unfold is_plain. apply negb_true_iff. Qed.

Lemma starts_ok_quantifier (atom : regex) (s : string) :
  starts_ok s = true -> apply_quantifier atom s = Ok (atom, s).
Proof.
  destruct s as [| q s]; [reflexivity |]. cbn [starts_ok apply_quantifier].
  intros Hq. apply negb_true_iff, orb_false_iff in Hq as [Hq _].
  rewrite Hq. reflexivity.
Qed.

Lemma plain_starts_ok (c : ascii) (s : string) :
  is_plain c = true -> starts_ok (String c s) = true.
Proof.
  intros Hc. apply is_plain_spec in Hc. cbn in Hc. cbn [starts_ok].
  unfold is_quantifier.
  repeat (apply orb_false_iff in Hc as [? Hc]).
  repeat match goal with H : Ascii.eqb c _ = false |- _ => rewrite H; clear H end.
  reflexivity.
Qed.

(** One plain character is one atom: the dot any character, another
    character itself. *)
Lemma parse_seq_plain_char (fuel : nat) (c : ascii) (rest : string) :
  is_plain c = true -> starts_ok rest = true ->
  parse_seq (S fuel) (String c rest) =
    rbind (parse_seq fuel rest)
          (fun '(more, s3) => Ok (RSeq (char_regex c) more, s3)).
Proof.
  intros Hc Hrest. apply is_plain_spec in Hc. cbn in Hc.
  repeat (apply orb_false_iff in Hc as [? Hc]).
  cbn [parse_seq]. unfold is_quantifier, char_regex.
  repeat match goal with H : Ascii.eqb c _ = false |- _ => rewrite H; clear H end.
  destruct (Ascii.eqb c ".");
    cbn [orb rbind]; rewrite (starts_ok_quantifier _ _ Hrest); reflexivity.
Qed.

Lemma length_append (a b : string) :
  String.length (a +:+ b) = (String.length a + String.length b)%nat.
Proof.
  induction a as [| c a IH]; [reflexivity |].
  rewrite append_cons. cbn [String.length]. rewrite IH. reflexivity.
Qed.

(** A literal of plain characters is a chain of literal atoms. *)
Lemma parse_seq_literal (lit rest : string) (R : regex) :
  plain_text lit = true -> starts_ok rest = true ->
  (forall fuel, (String.length rest < fuel)%nat -> parse_seq fuel rest = Ok (R, "")) ->
  forall fuel, (String.length (lit +:+ rest) < fuel)%nat ->
    parse_seq fuel (lit +:+ rest) = Ok (literal_regex lit R, "").
Proof.
  intros Hlit Hrest HR. induction lit as [| c lit IH]; intros fuel Hfuel.
  - apply HR, Hfuel.
  - cbn [plain_text forallb_string] in Hlit.
    apply andb_true_iff in Hlit as [Hc Hlit].
    rewrite append_cons in Hfuel |- *. cbn [String.length] in Hfuel.
    destruct fuel as [| fuel]; [lia |].
    rewrite parse_seq_plain_char; [| exact Hc |].
    + rewrite (IH Hlit fuel) by lia. reflexivity.
    + destruct lit as [| c' lit]; [exact Hrest |].
      cbn [plain_text forallb_string] in Hlit.
      apply andb_true_iff in Hlit as [Hc' _].
      rewrite append_cons. apply plain_starts_ok, Hc'.
Qed.

Lemma scan_group_name_ident (n rest : string) :
  forallb_string is_name_char n = true ->
  scan_group_name (n +:+ String ">" rest) = Ok (n, rest).
Proof.
  induction n as [| c n IH]; [reflexivity |].
  cbn [forallb_string]. intros Hn. apply andb_true_iff in Hn as [Hc Hn].
  rewrite append_cons. cbn [scan_group_name].
  rewrite (name_char_neq c ">" Hc eq_refl), (IH Hn). reflexivity.
Qed.

Lemma name_char_is_ascii (c : ascii) : is_name_char c = true -> is_ascii c = true.
Proof.
  unfold is_name_char, is_name_start, is_letter, is_decimal, is_ascii.
  destruct (Ascii.eqb_spec c "_") as [-> | _]; [reflexivity |].
  intros Hc. apply Nat.ltb_lt.
  destruct (Nat.leb_spec 65 (nat_of_ascii c)), (Nat.leb_spec (nat_of_ascii c) 90),
    (Nat.leb_spec 97 (nat_of_ascii c)), (Nat.leb_spec (nat_of_ascii c) 122),
    (Nat.leb_spec 48 (nat_of_ascii c)), (Nat.leb_spec (nat_of_ascii c) 57);
    cbn in Hc; try discriminate; lia.
Qed.

Lemma check_group_name_ident (n : string) :
  is_ident n = true -> check_group_name n = Ok tt.
Proof.
  intros Hn. pose proof (is_ident_chars n Hn) as Hchars.
  unfold check_group_name.
  assert (Hascii : forallb_string is_ascii n = true).
  { clear Hn. induction n as [| c n IH]; [reflexivity |].
    cbn [forallb_string] in *. apply andb_true_iff in Hchars as [Hc Hchars].
    rewrite (name_char_is_ascii c Hc), (IH Hchars). reflexivity. }
  rewrite Hascii. cbn [negb].
  destruct n as [| c n]; [discriminate |]. unfold is_ident in Hn.
  rewrite Hn. reflexivity.
Qed.

(** The inside of a field's group: the starred set, up to the closing
    parenthesis. *)
Lemma parse_seq_group_body (fuel : nat) (rest : string) :
  parse_seq (S (S fuel)) ("[^:]*)" +:+ rest) =
    Ok (RSeq (RStar (RSet true [":"%char])) REps, String ")" rest).
Proof. reflexivity. Qed.

(** A field of a separated template compiles to its named group. *)
Lemma parse_seq_field (name rest : string) (R : regex) :
  is_ident name = true -> starts_ok rest = true ->
  (forall fuel, (String.length rest < fuel)%nat -> parse_seq fuel rest = Ok (R, "")) ->
  forall fuel, (String.length (_re_default name +:+ rest) < fuel)%nat ->
    parse_seq fuel (_re_default name +:+ rest) = Ok (RSeq (field_regex name) R, "").
Proof.
  intros Hname Hrest HR fuel Hfuel.
  pose proof (is_ident_chars name Hname) as Hchars.
  unfold _re_default in *. rewrite (replace_char_ident name Hchars) in *.
  rewrite !append_assoc in *. rewrite !length_append in Hfuel.
  cbn [String.length] in Hfuel.
  destruct fuel as [| fuel]; [lia |].
  assert (Hinner : parse_seq fuel ("[^:]*)" +:+ rest) =
            Ok (RSeq (RStar (RSet true [":"%char])) REps, String ")" rest)).
  { destruct fuel as [| [| fuel]]; try lia. apply parse_seq_group_body. }
  rewrite !append_cons, !append_nil_l in Hinner |- *.
  cbn [parse_seq Ascii.eqb Bool.eqb].
  rewrite (scan_group_name_ident _ _ Hchars). cbn [rbind].
  rewrite (check_group_name_ident _ Hname). cbn [rbind].
  rewrite !append_cons, !append_nil_l, Hinner. cbn [rbind expect_close Ascii.eqb Bool.eqb].
  rewrite (starts_ok_quantifier _ _ Hrest). cbn [rbind].
  rewrite HR by lia. reflexivity.
Qed.

Lemma body_starts_ok (toks : list token) :
  simple_tokens toks = true -> starts_ok (body_text toks +:+ "$") = true.
Proof.
  induction toks as [| [lit fld] toks IH]; [reflexivity |].
  intros Hsep. apply simple_tokens_cons in Hsep as (Hlit & _ & Hsep).
  cbn [body_text]. destruct lit as [| c lit].
  - rewrite append_nil_l. destruct fld as [f |].
    + reflexivity.
    + rewrite append_nil_l. apply IH, Hsep.
  - cbn [plain_text forallb_string] in Hlit.
    apply andb_true_iff in Hlit as [Hc _].
    rewrite !append_cons. apply plain_starts_ok, Hc.
Qed.

(** The body of the pattern of a template of simple tokens compiles to
    [body_regex], whatever the fuel beyond the length of the text. *)
Lemma parse_seq_body (toks : list token) :
  simple_tokens toks = true ->
  forall fuel, (String.length (body_text toks +:+ "$") < fuel)%nat ->
    parse_seq fuel (body_text toks +:+ "$") =
      Ok (body_regex toks (RSeq REol REps), "").
Proof.
  induction toks as [| [lit fld] toks IH]; intros Hsep fuel Hfuel.
  - cbn [body_text body_regex] in *. rewrite append_nil_l in *.
    cbn [String.length] in Hfuel.
    destruct fuel as [| [| fuel]]; try lia. reflexivity.
  - pose proof Hsep as Hsep'.
    apply simple_tokens_cons in Hsep' as (Hlit & Hf & Hrest).
    cbn [body_text body_regex] in *. rewrite !append_assoc in *.
    apply parse_seq_literal; [exact Hlit | | | exact Hfuel].
    + destruct fld as [f |]; [reflexivity |].
      rewrite append_nil_l. apply body_starts_ok, Hrest.
    + destruct fld as [f |].
      * unfold simple_field in Hf.
        apply andb_true_iff in Hf as [Hf _].
        apply andb_true_iff in Hf as [Hname _].
        apply parse_seq_field;
          [exact Hname | apply body_starts_ok, Hrest | apply IH, Hrest].
      * rewrite append_nil_l. apply IH, Hrest.
Qed.

Lemma group_names_literal (lit : string) (tail : regex) :
  group_names (literal_regex lit tail) = group_names tail.
Proof.
  induction lit as [| c lit IH]; [reflexivity |].
  cbn [literal_regex group_names]. unfold char_regex.
  destruct (Ascii.eqb c "."); exact IH.
Qed.

Lemma group_names_body (toks : list token) (tail : regex) :
  group_names (body_regex toks tail) =
  map field_name (fields toks) ++ group_names tail.
Proof.
  induction toks as [| [lit fld] toks IH]; [reflexivity |].
  cbn [body_regex fields]. rewrite group_names_literal.
  destruct fld as [f |]; cbn; rewrite IH; reflexivity.
Qed.

Lemma apply_quantifier_opt_group (name : option string) (body : regex)
    (rest : string) :
  starts_ok rest = true ->
  apply_quantifier (RGroup name body) (String "?" rest) =
    Ok (ROpt (RGroup name body), rest).
Proof.
  intros Hrest. cbn [apply_quantifier is_quantifier Ascii.eqb Bool.eqb orb].
  destruct rest as [| q2 rest]; [reflexivity |].
  cbn [starts_ok] in Hrest. unfold is_quantifier in Hrest.
  apply negb_true_iff in Hrest.
  repeat (apply orb_false_iff in Hrest as [Hrest ?]).
  repeat match goal with H : Ascii.eqb q2 _ = false |- _ => rewrite H; clear H end.
  reflexivity.
Qed.

Lemma parse_seq_prefix_body (fuel : nat) (rest : string) :
  parse_seq (S (S (S fuel))) (".*[:])?" +:+ rest) =
    Ok (RSeq (RStar RAny) (RSeq (RSet false [":"%char]) REps),
        String ")" (String "?" rest)).
Proof. reflexivity. Qed.

(** The optional prefix [(.*[:])?] in front of a compiled text. *)
Lemma parse_seq_prefix (rest : string) (R : regex) :
  starts_ok rest = true ->
  (forall fuel, (String.length rest < fuel)%nat -> parse_seq fuel rest = Ok (R, "")) ->
  forall fuel, (String.length ("(.*[:])?" +:+ rest) < fuel)%nat ->
    parse_seq fuel ("(.*[:])?" +:+ rest) = Ok (RSeq prefix_regex R, "").
Proof.
  intros Hrest HR fuel Hfuel. rewrite length_append in Hfuel.
  cbn [String.length] in Hfuel.
  destruct fuel as [| fuel]; [lia |].
  assert (Hinner : parse_seq fuel (".*[:])?" +:+ rest) =
            Ok (RSeq (RStar RAny) (RSeq (RSet false [":"%char]) REps),
                String ")" (String "?" rest))).
  { destruct fuel as [| [| [| fuel]]]; try lia. apply parse_seq_prefix_body. }
  change (".*[:])?" +:+ rest)
    with (String "." (String "*" (String "[" (String ":" (String "]"
            (String ")" (String "?" rest))))))) in Hinner.
  change ("(.*[:])?" +:+ rest)
    with (String "(" (String "." (String "*" (String "[" (String ":"
            (String "]" (String ")" (String "?" rest)))))))).
  cbn [parse_seq Ascii.eqb Bool.eqb].
  rewrite Hinner. cbn [rbind expect_close Ascii.eqb Bool.eqb].
  rewrite (apply_quantifier_opt_group _ _ _ Hrest). cbn [rbind].
  rewrite HR by lia. reflexivity.
Qed.

(** The pattern of a separated template with distinct field names
    compiles, to [template_regex]. *)
Lemma compile_template (toks : list token) :
  separated toks = true ->
  NoDup (map field_name (fields toks)) ->
  compile ("(.*[:])?" +:+ body_text toks +:+ "$") =
    Ok (Pattern ("(.*[:])?" +:+ body_text toks +:+ "$") (template_regex toks)).
Proof.
  intros Hsep Hnodup. apply separated_simple in Hsep. unfold compile.
  rewrite (parse_seq_prefix _ _ (body_starts_ok toks Hsep) (parse_seq_body toks Hsep))
    by lia.
  cbn [rbind]. fold (template_regex toks).
  rewrite bool_decide_eq_true_2; [reflexivity |].
  unfold template_regex. cbn [group_names prefix_regex app].
  rewrite group_names_body. cbn [group_names]. rewrite app_nil_r. exact Hnodup.
Qed.

(** ** What a match of the pattern consumes *)

Lemma colons_app (a b : string) : colons (a +:+ b) = (colons a + colons b)%nat.
Proof.
  induction a as [| c a IH]; [reflexivity |].
  rewrite append_cons. cbn [colons]. rewrite IH. lia.
Qed.

Lemma colons_colon_free (s : string) : contains ":" s = false -> colons s = 0%nat.
Proof.
  induction s as [| c s IH]; [reflexivity |]. cbn [contains colons].
  destruct (Ascii.eqb c ":"); [discriminate |]. exact IH.
Qed.

(** The starred set of a field consumes no colon. *)
Lemma star_set_sound (fuel : nat) (prev : option ascii) (s : string)
    (caps : captures) (k : cont) (res : captures) :
  star (rmatch (RSet true [":"%char])) fuel prev s caps k = Some res ->
  exists p' s' c', k p' s' c' = Some res /\ colons s = colons s'.
Proof.
  revert prev s caps. induction fuel as [| fuel IH]; intros prev s caps Hm.
  - cbn [star] in Hm. eauto.
  - cbn [star] in Hm.
    destruct (rmatch (RSet true [":"%char]) prev s caps _) as [c |] eqn:Hstep.
    + injection Hm as ->. cbn [rmatch] in Hstep.
      destruct s as [| a s1]; [discriminate |].
      cbn [existsb] in Hstep. rewrite orb_false_r in Hstep.
      destruct (Ascii.eqb a ":") eqn:Ha; [discriminate |]. cbn [xorb] in Hstep.
      destruct (String.length s1 <? String.length (String a s1))%nat;
        [| discriminate].
      destruct (IH _ _ _ Hstep) as (p' & s' & c' & Hk & Hc).
      exists p', s', c'. split; [exact Hk |]. cbn [colons]. rewrite Ha. exact Hc.
    + eauto.
Qed.

(** The starred dot of the prefix consumes some text. *)
Lemma star_any_sound (fuel : nat) (prev : option ascii) (s : string)
    (caps : captures) (k : cont) (res : captures) :
  star (rmatch RAny) fuel prev s caps k = Some res ->
  exists p' s' c', k p' s' c' = Some res /\ (colons s' <= colons s)%nat.
Proof.
  revert prev s caps. induction fuel as [| fuel IH]; intros prev s caps Hm.
  - cbn [star] in Hm. eauto.
  - cbn [star] in Hm.
    destruct (rmatch RAny prev s caps _) as [c |] eqn:Hstep.
    + injection Hm as ->. cbn [rmatch] in Hstep.
      destruct s as [| a s1]; [discriminate |].
      destruct (Ascii.eqb a newline); [discriminate |].
      destruct (String.length s1 <? String.length (String a s1))%nat;
        [| discriminate].
      destruct (IH _ _ _ Hstep) as (p' & s' & c' & Hk & Hc).
      exists p', s', c'. split; [exact Hk |]. cbn [colons]. lia.
    + eauto.
Qed.

(** A match of the prefix group consumes at least one colon. *)
Lemma prefix_sound (prev : option ascii) (s : string) (caps : captures)
    (k : cont) (res : captures) :
  rmatch (RGroup None (RSeq (RStar RAny) (RSeq (RSet false [":"%char]) REps)))
    prev s caps k = Some res ->
  exists p' s' c', k p' s' c' = Some res /\ (1 + colons s' <= colons s)%nat.
Proof.
  cbn [rmatch]. intros Hm.
  apply star_any_sound in Hm as (p1 & s1 & c1 & Hm & Hc).
  destruct s1 as [| a s2]; [discriminate |].
  cbn [existsb] in Hm. rewrite orb_false_r in Hm.
  destruct (Ascii.eqb a ":") eqn:Ha; [| discriminate]. cbn [xorb] in Hm.
  exists (Some a), s2, c1. split; [exact Hm |].
  cbn [colons] in Hc. rewrite Ha in Hc. lia.
Qed.

(** A match of a literal consumes a text of the length of the literal,
    with a colon wherever the literal has one. *)
Lemma literal_sound (lit : string) (tail : regex) (prev : option ascii)
    (s : string) (caps : captures) (k : cont) (res : captures) :
  rmatch (literal_regex lit tail) prev s caps k = Some res ->
  exists p' m s', rmatch tail p' s' caps k = Some res /\ s = m +:+ s' /\
                  (colons lit <= colons m)%nat.
Proof.
  revert prev s. induction lit as [| c lit IH]; intros prev s Hm.
  - exists prev, "", s. split; [exact Hm |]. split; [reflexivity | cbn; lia].
  - cbn [literal_regex rmatch] in Hm. unfold char_regex in Hm.
    destruct (Ascii.eqb_spec c ".") as [-> | _]; cbn [rmatch] in Hm.
    + destruct s as [| a s1]; [discriminate |].
      destruct (Ascii.eqb a newline); [discriminate |].
      destruct (IH _ _ Hm) as (p' & m & s' & Hk & -> & Hc).
      exists p', (String a m), s'. split; [exact Hk |].
      split; [reflexivity |]. cbn [colons Ascii.eqb Bool.eqb]. lia.
    + destruct s as [| a s1]; [discriminate |].
      destruct (Ascii.eqb_spec a c) as [-> | _]; [| discriminate].
      destruct (IH _ _ Hm) as (p' & m & s' & Hk & -> & Hc).
      exists p', (String c m), s'. split; [exact Hk |].
      split; [reflexivity |]. cbn [colons]. lia.
Qed.

(** A match of the body of a pattern consumes at least as many colons as
    the literal text of the template holds. *)
Lemma body_sound (toks : list token) (tail : regex) (prev : option ascii)
    (s : string) (caps : captures) (k : cont) (res : captures) :
  rmatch (body_regex toks tail) prev s caps k = Some res ->
  exists p' s' c', rmatch tail p' s' c' k = Some res /\
                   (lit_colons toks + colons s' <= colons s)%nat.
Proof.
  revert prev s caps. induction toks as [| [lit fld] toks IH]; intros prev s caps Hm.
  - exists prev, s, caps. split; [exact Hm | cbn; lia].
  - cbn [body_regex lit_colons] in *.
    apply literal_sound in Hm as (p1 & m & s1 & Hm & -> & Hlit).
    rewrite colons_app.
    destruct fld as [f |].
    + cbn [rmatch field_regex] in Hm.
      apply star_set_sound in Hm as (p2 & s2 & c2 & Hm & Hc).
      apply IH in Hm as (p3 & s3 & c3 & Hm & Hc3).
      exists p3, s3, c3. split; [exact Hm | lia].
    + apply IH in Hm as (p3 & s3 & c3 & Hm & Hc3).
      exists p3, s3, c3. split; [exact Hm | lia].
Qed.

(** A whole match of the body ends the text. *)
Lemma body_sound_end (toks : list token) (prev : option ascii) (s : string)
    (caps res : captures) :
  rmatch (body_regex toks (RSeq REol REps)) prev s caps at_end = Some res ->
  (lit_colons toks <= colons s)%nat.
Proof.
  intros Hm. apply body_sound in Hm as (p' & s' & c' & Hm & Hc). lia.
Qed.

(** ** A text with no colon to spare *)

Lemma same_colons_colons (a b : string) :
  same_colons a b = true -> colons b = colons a.
Proof.
  revert b. induction a as [| x a IH]; intros [| y b]; cbn [same_colons colons];
    try discriminate; [reflexivity |].
  intros Hs. apply andb_true_iff in Hs as [Hxy Hs]. apply eqb_prop in Hxy.
  rewrite Hxy, (IH _ Hs). reflexivity.
Qed.

Lemma same_colons_length (a b : string) :
  same_colons a b = true -> String.length b = String.length a.
Proof.
  revert b. induction a as [| x a IH]; intros [| y b];
    cbn [same_colons String.length]; try discriminate; [reflexivity |].
  intros Hs. apply andb_true_iff in Hs as [_ Hs]. rewrite (IH _ Hs). reflexivity.
Qed.

Lemma same_colons_first_stop (a b : string) :
  same_colons a b = true -> first_stop b = first_stop a.
Proof.
  revert b. induction a as [| x a IH]; intros [| y b];
    cbn [same_colons first_stop]; try discriminate; [reflexivity |].
  intros Hs. apply andb_true_iff in Hs as [Hxy Hs]. apply eqb_prop in Hxy.
  rewrite Hxy, (IH _ Hs). reflexivity.
Qed.

Lemma same_colons_contains (a b : string) :
  same_colons a b = true -> contains ":" b = contains ":" a.
Proof.
  revert b. induction a as [| x a IH]; intros [| y b];
    cbn [same_colons contains]; try discriminate; [reflexivity |].
  intros Hs. apply andb_true_iff in Hs as [Hxy Hs]. apply eqb_prop in Hxy.
  rewrite Hxy, (IH _ Hs). reflexivity.
Qed.

Lemma first_stop_app_colon (m s : string) :
  contains ":" m = true -> first_stop (m +:+ s) = first_stop m.
Proof.
  induction m as [| c m IH]; [discriminate |].
  rewrite append_cons. cbn [contains first_stop].
  destruct (Ascii.eqb c ":"); [reflexivity |]. intros Hm. rewrite (IH Hm). reflexivity.
Qed.

Lemma first_stop_app_free (m s : string) :
  contains ":" m = false ->
  first_stop (m +:+ s) = (String.length m + first_stop s)%nat.
Proof.
  induction m as [| c m IH]; [reflexivity |].
  rewrite append_cons. cbn [contains first_stop String.length].
  destruct (Ascii.eqb c ":"); [discriminate |]. intros Hm. rewrite (IH Hm). reflexivity.
Qed.

(** In a text with no more colons than the pattern needs, a literal matches
    a text with its colons at the places of the literal's: no dot of the
    literal can take a colon. *)
Lemma literal_rigid (lit : string) (tail : regex) (caps : captures) (k : cont)
    (res : captures) (n : nat) :
  (forall p s', rmatch tail p s' caps k = Some res -> (n <= colons s')%nat) ->
  forall prev s,
    rmatch (literal_regex lit tail) prev s caps k = Some res ->
    colons s = (colons lit + n)%nat ->
    exists p' m s', rmatch tail p' s' caps k = Some res /\ s = m +:+ s' /\
                    same_colons lit m = true /\ colons s' = n.
Proof.
  intros Htail. induction lit as [| c lit IH]; intros prev s Hm Hc.
  - exists prev, "", s. repeat split; [exact Hm | exact Hc].
  - cbn [literal_regex rmatch] in Hm. unfold char_regex in Hm.
    assert (Hrest : forall a s1,
              rmatch (literal_regex lit tail) (Some a) s1 caps k = Some res ->
              (colons lit + n <= colons s1)%nat).
    { intros a s1 Hm1.
      apply literal_sound in Hm1 as (p' & m & s' & Hk & -> & Hlit).
      apply Htail in Hk. rewrite colons_app. lia. }
    destruct (Ascii.eqb_spec c ".") as [-> | _]; cbn [rmatch] in Hm.
    + destruct s as [| a s1]; [discriminate |].
      destruct (Ascii.eqb a newline); [discriminate |].
      pose proof (Hrest _ _ Hm) as Hlow.
      cbn [colons Ascii.eqb Bool.eqb] in Hc.
      destruct (Ascii.eqb a ":") eqn:Ha; [lia |].
      destruct (IH _ _ Hm) as (p' & m & s' & Hk & -> & Hsame & Hn); [lia |].
      exists p', (String a m), s'. split; [exact Hk |]. split; [reflexivity |].
      split; [| exact Hn]. cbn [same_colons Ascii.eqb Bool.eqb]. rewrite Ha. exact Hsame.
    + destruct s as [| a s1]; [discriminate |].
      destruct (Ascii.eqb_spec a c) as [-> | _]; [| discriminate].
      cbn [colons] in Hc.
      destruct (IH _ _ Hm) as (p' & m & s' & Hk & -> & Hsame & Hn); [lia |].
      exists p', (String c m), s'. split; [exact Hk |]. split; [reflexivity |].
      split; [| exact Hn]. cbn [same_colons]. rewrite Hsame.
      destruct (Ascii.eqb c ":"); reflexivity.
Qed.

(** Where the tokens start in a segment that holds its field already, a
    whole match of the body on a text with no colon to spare reaches the
    first colon exactly where the literal text of the template does. *)
Lemma body_rigid (toks : list token) :
  segmented true toks = true ->
  forall prev s caps res,
    rmatch (body_regex toks (RSeq REol REps)) prev s caps at_end = Some res ->
    colons s = lit_colons toks ->
    first_stop s = head_len toks.
Proof.
  induction toks as [| [lit fld] toks IH]; intros Hseg prev s caps res Hm Hc.
  - cbn [body_regex rmatch] in Hm. unfold at_end in Hm.
    destruct s as [| a s]; [reflexivity |].
    destruct (Ascii.eqb a newline); discriminate.
  - cbn [segmented body_regex lit_colons head_len andb] in *.
    apply (literal_rigid lit _ caps at_end res (lit_colons toks)) in Hm;
      [| | exact Hc].
    + destruct Hm as (p' & m & s' & Hm & -> & Hsame & Hc').
      rewrite <- (same_colons_contains _ _ Hsame).
      destruct (contains ":" m) eqn:Hcol.
      * rewrite (first_stop_app_colon _ _ Hcol). apply same_colons_first_stop, Hsame.
      * rewrite <- (same_colons_contains _ _ Hsame), Hcol in Hseg.
        destruct fld as [f |]; [discriminate |].
        rewrite (first_stop_app_free _ _ Hcol), (same_colons_length _ _ Hsame).
        rewrite (IH Hseg _ _ _ _ Hm Hc'). reflexivity.
    + intros p s' Hm'. destruct fld as [f |].
      * cbn [rmatch field_regex] in Hm'.
        apply star_set_sound in Hm' as (p2 & s2 & c2 & Hm' & Hc2).
        apply body_sound_end in Hm'. lia.
      * apply body_sound_end in Hm'. exact Hm'.
Qed.

(** The key reaches its first colon there too. *)
Lemma key_first_stop (kwargs : gmap string pyval) (toks : list token) :
  segmented true toks = true ->
  first_stop (key_text kwargs toks) = head_len toks.
Proof.
  induction toks as [| [lit fld] toks IH]; intros Hseg; [reflexivity |].
  cbn [segmented key_text head_len andb] in *.
  destruct (contains ":" lit) eqn:Hcol.
  - apply first_stop_app_colon, Hcol.
  - destruct fld as [f |]; [discriminate |].
    rewrite (first_stop_app_free _ _ Hcol), append_nil_l, (IH Hseg). reflexivity.
Qed.

(** ** The match of a formatted key *)

Lemma rmatch_set_step (a : ascii) (s : string) (prev : option ascii)
    (caps : captures) (k : cont) :
  rmatch (RSet true [":"%char]) prev (String a s) caps k =
  if Ascii.eqb a ":" then None else k (Some a) s caps.
Proof. cbn [rmatch existsb]. rewrite orb_false_r. destruct (Ascii.eqb a ":"); reflexivity. Qed.

Lemma consumed_app (v rest : string) : consumed (v +:+ rest) rest = v.
Proof.
  unfold consumed. rewrite length_append.
  replace (String.length v + String.length rest - String.length rest)%nat
    with (String.length v) by lia.
  induction v as [| c v IH].
  - rewrite append_nil_l. destruct rest; reflexivity.
  - rewrite append_cons. cbn [String.length substring]. rewrite IH. reflexivity.
Qed.

(** The starred set gives way at once where the continuation accepts
    nothing further on before the next colon. *)
Lemma star_set_overrun (k : cont) (fuel : nat) :
  forall prev s caps,
    (forall u s' p c, s = u +:+ s' -> u <> "" -> contains ":" u = false ->
       k p s' c = None) ->
    star (rmatch (RSet true [":"%char])) fuel prev s caps k = k prev s caps.
Proof.
  induction fuel as [| fuel IH]; intros prev s caps Hfail; [reflexivity |].
  cbn [star]. destruct s as [| a s1]; [reflexivity |].
  rewrite rmatch_set_step. destruct (Ascii.eqb a ":") eqn:Ha; [reflexivity |].
  destruct (String.length s1 <? String.length (String a s1))%nat; [| reflexivity].
  rewrite IH.
  - rewrite (Hfail (String a "") s1 (Some a) caps); [reflexivity | reflexivity | |].
    + discriminate.
    + cbn [contains]. rewrite Ha. reflexivity.
  - intros u s' p c -> Hne Hfree.
    apply (Hfail (String a u) s' p c); [reflexivity | discriminate |].
    cbn [contains]. rewrite Ha. exact Hfree.
Qed.

(** The starred set takes the whole value and gives way there, where the
    continuation accepts the rest and nothing further on before the next
    colon. *)
Lemma star_set_exact (v rest : string) (caps : captures) (k : cont)
    (res : captures) :
  contains ":" v = false ->
  (forall p, k p rest caps = Some res) ->
  (forall u s' p c, rest = u +:+ s' -> u <> "" -> contains ":" u = false ->
     k p s' c = None) ->
  forall fuel prev, (String.length v <= fuel)%nat ->
    star (rmatch (RSet true [":"%char])) fuel prev (v +:+ rest) caps k = Some res.
Proof.
  intros Hv Hk Hfail. induction v as [| a v IH]; intros fuel prev Hfuel.
  - rewrite append_nil_l, (star_set_overrun k fuel prev rest caps Hfail). apply Hk.
  - cbn [contains] in Hv. destruct (Ascii.eqb a ":") eqn:Ha; [discriminate |].
    cbn [String.length] in Hfuel. destruct fuel as [| fuel]; [lia |].
    rewrite append_cons. cbn [star]. rewrite rmatch_set_step, Ha.
    cbn [String.length].
    rewrite (proj2 (Nat.ltb_lt _ _)) by lia.
    rewrite (IH Hv fuel (Some a)) by lia. reflexivity.
Qed.

(** A field's group captures the value. *)
Lemma field_match (name v rest : string) (prev : option ascii)
    (caps : captures) (k : cont) (res : captures) :
  contains ":" v = false ->
  (forall p, k p rest (<[name := v]> caps) = Some res) ->
  (forall u s' p c, rest = u +:+ s' -> u <> "" -> contains ":" u = false ->
     k p s' c = None) ->
  rmatch (field_regex name) prev (v +:+ rest) caps k = Some res.
Proof.
  intros Hv Hk Hfail. cbn [field_regex rmatch].
  apply star_set_exact; [exact Hv | | | rewrite length_append; lia].
  - intros p. rewrite consumed_app. apply Hk.
  - intros u s' p c Hrest Hne Hfree. apply (Hfail u s' p _ Hrest Hne Hfree).
Qed.

(** A literal matches itself. *)
Lemma literal_match (lit rest : string) (tail : regex) (prev : option ascii)
    (caps : captures) (k : cont) (res : captures) :
  (forall p, rmatch tail p rest caps k = Some res) ->
  rmatch (literal_regex lit tail) prev (lit +:+ rest) caps k = Some res.
Proof.
  intros Hk. revert prev. induction lit as [| c lit IH]; intros prev.
  - apply Hk.
  - rewrite append_cons. cbn [literal_regex rmatch]. unfold char_regex.
    destruct (Ascii.eqb_spec c ".") as [-> | _]; cbn [rmatch].
    + apply IH.
    + rewrite Ascii.eqb_refl. apply IH.
Qed.

Lemma key_text_colons (kwargs : gmap string pyval) (toks : list token) :
  bound_without_colon kwargs toks ->
  colons (key_text kwargs toks) = lit_colons toks.
Proof.
  induction toks as [| [lit fld] toks IH]; intros Hbound; [reflexivity |].
  apply bound_without_colon_cons in Hbound as (Hv & Hbound).
  cbn [key_text lit_colons]. rewrite !colons_app, (IH Hbound).
  destruct fld as [f |]; [| reflexivity].
  destruct Hv as (v & Hv & Hfree). rewrite Hv.
  change (default VNone (Some v)) with v.
  rewrite (colons_colon_free _ Hfree). reflexivity.
Qed.

Lemma length_zero_empty (u : string) : String.length u = 0%nat -> u = "".
Proof. destruct u; [reflexivity | discriminate]. Qed.

(** The body of the pattern matches the key and captures every value. *)
Lemma body_match (kwargs : gmap string pyval) (toks : list token) :
  bound_without_colon kwargs toks ->
  forall seen, segmented seen toks = true ->
  forall prev caps,
    rmatch (body_regex toks (RSeq REol REps)) prev (key_text kwargs toks) caps
      at_end = Some (captured kwargs toks caps).
Proof.
  induction toks as [| [lit fld] toks IH]; intros Hbound seen Hseg prev caps.
  - reflexivity.
  - pose proof (bound_without_colon_cons _ _ _ _ Hbound) as (Hv & Hbound').
    cbn [segmented body_regex key_text captured] in *.
    apply literal_match. intros p.
    destruct fld as [f |].
    + apply andb_true_iff in Hseg as [_ Hseg].
      destruct Hv as (v & Hv & Hfree).
      rewrite Hv. change (default VNone (Some v)) with v. cbn [rmatch].
      apply field_match; [exact Hfree | |].
      * intros p'. apply (IH Hbound' true Hseg).
      * intros u s' p' c Hrest Hne Hfree'.
        destruct (rmatch (body_regex toks (RSeq REol REps)) p' s' c at_end)
          as [res |] eqn:Hm; [exfalso | reflexivity].
        pose proof (key_text_colons kwargs toks Hbound') as Hcount.
        pose proof (key_first_stop kwargs toks Hseg) as Hstop.
        rewrite Hrest in Hcount, Hstop.
        rewrite colons_app, (colons_colon_free _ Hfree') in Hcount.
        rewrite (first_stop_app_free _ _ Hfree') in Hstop.
        rewrite (body_rigid toks Hseg _ _ _ _ Hm Hcount) in Hstop.
        apply Hne, length_zero_empty. lia.
    + rewrite append_nil_l. apply (IH Hbound' _ Hseg).
Qed.

Lemma rmatch_seq_opt (g body : regex) (prev : option ascii) (s : string)
    (caps : captures) (k : cont) :
  rmatch (RSeq (ROpt g) body) prev s caps k =
  match rmatch g prev s caps (fun p s' c => rmatch body p s' c k) with
  | Some c => Some c
  | None => rmatch body prev s caps k
  end.
Proof. reflexivity. Qed.

(** The compiled pattern of a separated template matches the key the
    template formats to, with an empty prefix, and captures the values. *)
Lemma template_match (kwargs : gmap string pyval) (toks : list token)
    (source : string) :
  separated toks = true ->
  bound_without_colon kwargs toks ->
  fullmatch (Pattern source (template_regex toks)) (key_text kwargs toks) =
    Some (captured kwargs toks ∅).
Proof.
  intros Hsep Hbound. unfold fullmatch, template_regex, prefix_regex.
  cbn [pattern_regex]. change (fun _ s' c => match s' with
                                            | EmptyString => Some c
                                            | _ => None
                                            end) with at_end.
  rewrite rmatch_seq_opt.
  match goal with
  | |- match ?m with Some _ => _ | None => _ end = _ => destruct m eqn:Hprefix
  end.
  - exfalso.
    apply prefix_sound in Hprefix as (p' & s' & c' & Hm & Hc).
    apply body_sound_end in Hm.
    rewrite (key_text_colons _ _ Hbound) in Hc. lia.
  - apply (body_match kwargs toks Hbound false (separated_segmented toks Hsep)).
Qed.

(** ** The captured values *)

Lemma captured_lookup (kwargs : gmap string pyval) (toks : list token)
    (caps : captures) (n : string) :
  n ∈ map field_name (fields toks) \/
    caps !! n = Some (value_text (default VNone (kwargs !! n))) ->
  captured kwargs toks caps !! n =
    Some (value_text (default VNone (kwargs !! n))).
Proof.
  unfold captures in *.
  revert caps. induction toks as [| [lit [f |]] toks IH]; intros caps Hn.
  - destruct Hn as [Hn | Hn]; [inversion Hn | exact Hn].
  - cbn [captured fields map] in *. apply IH.
    destruct (decide (n = field_name f)) as [-> | Hne].
    + right. apply lookup_insert_eq.
    + destruct Hn as [Hn | Hn].
      * left. apply elem_of_cons in Hn as [Hn | Hn]; [contradiction | exact Hn].
      * right. unfold captures. rewrite lookup_insert_ne by congruence. exact Hn.
  - cbn [captured fields] in *. apply IH, Hn.
Qed.

Lemma groupdict_lookup (names : list string) (caps : captures) (n : string) :
  n ∈ names ->
  (list_to_map (map (fun m => (m, caps !! m)) names)
     : gmap string (option string)) !! n = Some (caps !! n).
Proof.
  induction names as [| m names IH]; intros Hn; [inversion Hn |].
  cbn [map list_to_map foldr uncurry fst snd].
  destruct (decide (n = m)) as [-> | Hne].
  - apply lookup_insert_eq.
  - rewrite lookup_insert_ne by (cbn; congruence).
    apply elem_of_cons in Hn as [Hn | Hn]; [contradiction | apply IH, Hn].
Qed.

(** ** Scanning a registry after a registration *)

Lemma scan_templates_none (func : func_id) (entries : list (string * pattern))
    (key : string) :
  Forall (no_match key) (map (fun '(t, p) => (func, t, p)) entries) ->
  scan_templates entries key = None.
Proof.
  induction entries as [| [t p] entries IH]; [reflexivity |].
  cbn [map scan_templates]. intros Hall. inversion Hall as [| ? ? Hhd Htl]; subst.
  unfold no_match in Hhd. cbn [snd] in Hhd. rewrite Hhd. apply IH, Htl.
Qed.

Lemma scan_templates_snoc (func : func_id) (entries : list (string * pattern))
    (t : string) (p : pattern) (key : string) (caps : captures) :
  Forall (no_match key) (map (fun '(t, p) => (func, t, p)) entries) ->
  fullmatch p key = Some caps ->
  scan_templates (entries ++ [(t, p)]) key = Some (t, p, caps).
Proof.
  induction entries as [| [t' p'] entries IH]; intros Hall Hm.
  - cbn. rewrite Hm. reflexivity.
  - cbn [app map scan_templates] in *. inversion Hall as [| ? ? Hhd Htl]; subst.
    unfold no_match in Hhd. cbn [snd] in Hhd. rewrite Hhd. apply IH; assumption.
Qed.

(** After a registration the new entry is the first to match a key that no
    earlier entry matches. *)
Lemma scan_register_add (reg : registry) (func : func_id) (t : string)
    (p : pattern) (key : string) (caps : captures) :
  Forall (no_match key) (triples reg) ->
  fullmatch p key = Some caps ->
  (forall f' t' p', (f', t', p') ∈ triples reg ->
     entry_eqb (t, p) (t', p') = true -> p' = p) ->
  scan_register (setdefault_add reg func (t, p)) key = Some (func, (t, p, caps)).
Proof.
  intros Hall Hm Hsame. induction reg as [| [f entries] reg IH].
  - cbn. rewrite Hm. reflexivity.
  - unfold triples in Hall, Hsame. cbn [flat_map] in Hall, Hsame.
    fold (triples reg) in Hall, Hsame.
    apply Forall_app in Hall as [Hentries Hreg].
    cbn [setdefault_add]. destruct (func_id_eqb f func) eqn:Hf.
    + apply func_id_eqb_eq in Hf. subst f. cbn [scan_register].
      unfold set_add.
      destruct (existsb (entry_eqb (t, p)) entries) eqn:Hex.
      * exfalso. apply existsb_exists in Hex as ([t' p'] & Hin & Heq).
        assert (Hin' : (func, t', p') ∈ map (fun '(t, p) => (func, t, p)) entries).
        { apply list_elem_of_fmap. exists (t', p'). split; [reflexivity |].
          apply list_elem_of_In, Hin. }
        assert (p' = p) as ->.
        { apply (Hsame func t'); [apply elem_of_app; left; exact Hin' | exact Heq]. }
        rewrite Forall_forall in Hentries. specialize (Hentries _ Hin').
        unfold no_match in Hentries. cbn [snd] in Hentries. congruence.
      * rewrite (scan_templates_snoc func _ _ _ _ _ Hentries Hm). reflexivity.
    + cbn [scan_register]. rewrite (scan_templates_none f _ _ Hentries).
      apply IH; [exact Hreg |].
      intros f' t' p' Hin. apply (Hsame f' t' p'). apply elem_of_app. right. exact Hin.
Qed.

(** ** The round trip *)

Section RoundTripTheorem.
Context `{Library}.

Lemma format_separated (template : string) (toks : list token)
    (kwargs : gmap string pyval) :
  parse template = Ok toks ->
  separated toks = true ->
  bound_without_colon kwargs toks ->
  kwargs !! "template" = None ->
  kwargs !! "_formatter" = None ->
  template_to_pattern template default_formatter kwargs =
    Ok (key_text kwargs toks).
Proof.
  intros Hparse Hsep Hbound Ht Hf.
  rewrite (template_to_pattern_unbound _ _ _ Ht Hf). unfold vformat.
  rewrite (_vformat_parsed _ _ _ _ _ Hparse).
  apply (render_tokens_key 1 kwargs toks (separated_simple toks Hsep) Hbound).
Qed.

Lemma pattern_text_separated (template : string) (toks : list token) :
  parse template = Ok toks ->
  separated toks = true ->
  pattern_text template = Ok ("(.*[:])?" +:+ body_text toks +:+ "$").
Proof.
  intros Hparse Hsep. unfold pattern_text.
  rewrite template_to_pattern_no_values. unfold vformat.
  rewrite (_vformat_parsed _ _ _ _ _ Hparse).
  rewrite (render_tokens_pattern 1 toks (separated_simple toks Hsep)). reflexivity.
Qed.

(** C1 (amended): take a template whose literal text holds none of the
    operators of the pattern language (the characters [^ $ * + ? { [ \ | ( )];
    the dot is allowed), whose fields are [{name}] or [{name:spec}] with
    distinct identifier names, no conversion and a spec that names no
    registered function and holds no nested field, and which has at most one
    field between two colons of its literal text; and values that bind every
    field to a value whose text (after [format_value]) holds no colon, and
    that bind neither [template] nor [_formatter], the parameter names of
    [template_to_pattern].  Then registering the template succeeds,
    formatting it with [default_formatter] gives a key, and
    [get_template_for_key], in a registry where no other pattern matches
    that key, returns the template and, for every field, the text of its
    value. *)
Theorem round_trip (reg0 : registry) (func : func_id) (template : string)
    (toks : list token) (kwargs : gmap string pyval) :
  reachable reg0 ->
  parse template = Ok toks ->
  separated toks = true ->
  NoDup (map field_name (fields toks)) ->
  bound_without_colon kwargs toks ->
  kwargs !! "template" = None ->
  kwargs !! "_formatter" = None ->
  Forall (no_match (key_text kwargs toks)) (triples reg0) ->
  exists reg fieldValues,
    register_template reg0 func template = Ok reg /\
    template_to_pattern template default_formatter kwargs =
      Ok (key_text kwargs toks) /\
    get_template_for_key reg (key_text kwargs toks) =
      (Some template, Some fieldValues) /\
    forall f v, f ∈ fields toks -> kwargs !! field_name f = Some v ->
      fieldValues !! field_name f = Some (Some (value_text v)).
Proof.
  intros Hreach Hparse Hsep Hnodup Hbound Htemplate Hformatter Hnone.
  pose proof (pattern_text_separated template toks Hparse Hsep) as Htext.
  pose proof (compile_template toks Hsep Hnodup) as Hcompile.
  set (text := "(.*[:])?" +:+ body_text toks +:+ "$") in *.
  set (p := Pattern text (template_regex toks)) in *.
  pose proof (template_match kwargs toks text Hsep Hbound) as Hmatch.
  fold p in Hmatch.
  exists (setdefault_add reg0 func (template, p)), (groupdict p (captured kwargs toks ∅)).
  split; [| split; [| split]].
  - unfold register_template. rewrite Htext. cbn [rbind].
    rewrite Hcompile. reflexivity.
  - apply (format_separated template toks kwargs Hparse Hsep Hbound
             Htemplate Hformatter).
  - unfold get_template_for_key.
    rewrite (scan_register_add reg0 func template p _ _ Hnone Hmatch);
      [reflexivity |].
    intros f' t' p' Hin Heq.
    destruct (reachable_compiled reg0 Hreach f' t' p' Hin) as (text' & Ht' & Hc').
    unfold entry_eqb in Heq. cbn [fst snd] in Heq.
    apply andb_true_iff in Heq as [Heq _]. apply String.eqb_eq in Heq. subst t'.
    congruence.
  - intros f v Hf Hv. unfold groupdict. cbn [pattern_regex p].
    assert (Hnames : group_names (template_regex toks) = map field_name (fields toks)).
    { unfold template_regex. cbn [group_names prefix_regex app].
      rewrite group_names_body. cbn [group_names]. apply app_nil_r. }
    rewrite Hnames.
    assert (Hin : field_name f ∈ map field_name (fields toks)).
    { apply list_elem_of_fmap. exists f. split; [reflexivity | exact Hf]. }
    rewrite (groupdict_lookup _ _ _ Hin).
    rewrite (captured_lookup kwargs toks ∅ _ (or_introl Hin)), Hv. reflexivity.
Qed.

End RoundTripTheorem.

#[local] Existing Instance example_library.

(** C1, as stated, fails for a value that holds a colon: the group of a
    field excludes the colon, so the key does not match the pattern of its
    own template. *)
Lemma round_trip_counterexample :
  register_template [] ("app.views", "get_user") "user:{id}" = Ok example_registry /\
  template_to_pattern "user:{id}" default_formatter (<["id" := VStr "a:b"]> ∅) =
    Ok "user:a:b" /\
  get_template_for_key example_registry "user:a:b" = (None, None).
Proof. repeat split; vm_compute; reflexivity. Qed.

(** What the amended statement leaves out fails too.  Two fields with no
    colon between them: the first group takes the text of both.  A field
    with a conversion: the key holds the text of [str], not of
    [format_value].  A literal character that is an operator of the pattern
    language: the key does not match, or the pattern does not compile.  A
    field name that is no identifier is no group name.  A nested field in a
    spec can name a function.  A value named as a parameter of
    [template_to_pattern]: the call is refused. *)
Lemma round_trip_limits :
  (exists reg,
     register_template [] ("m", "f") "{a}-{b}" = Ok reg /\
     template_to_pattern "{a}-{b}" default_formatter
       (<["a" := VStr "x"]> (<["b" := VStr "y-z"]> ∅)) = Ok "x-y-z" /\
     exists fieldValues,
       get_template_for_key reg "x-y-z" = (Some "{a}-{b}", Some fieldValues) /\
       fieldValues !! "a" = Some (Some "x-y")) /\
  (exists reg,
     register_template [] ("m", "f") "on:{flag!s}" = Ok reg /\
     template_to_pattern "on:{flag!s}" default_formatter
       (<["flag" := VBool true]> ∅) = Ok "on:True" /\
     value_text (VBool true) = "true") /\
  (exists reg,
     register_template [] ("m", "f") "a+b:{id}" = Ok reg /\
     template_to_pattern "a+b:{id}" default_formatter (<["id" := VInt 1]> ∅) =
       Ok "a+b:1" /\
     get_template_for_key reg "a+b:1" = (None, None)) /\
  register_template [] ("m", "f") "(:{id}" = Raise ReError /\
  register_template [] ("m", "f") "user:{user-id}" = Raise ReError /\
  (exists reg,
     register_template [] ("m", "f") "n:{items:{how}}" = Ok reg /\
     template_to_pattern "n:{items:{how}}" default_formatter
       (<["items" := VStr "abc"]> (<["how" := VStr "len"]> ∅)) = Ok "n:3" /\
     value_text (VStr "abc") = "abc") /\
  template_to_pattern "user:{template}" default_formatter
    (<["template" := VInt 1]> ∅) = Raise TypeError.
Proof.
  split; [| split; [| split; [| split; [| split; [| split]]]]].
  - eexists. split; [vm_compute; reflexivity |]. split; [vm_compute; reflexivity |].
    eexists. split; vm_compute; reflexivity.
  - eexists. split; [vm_compute; reflexivity |]. split; vm_compute; reflexivity.
  - eexists. split; [vm_compute; reflexivity |]. split; vm_compute; reflexivity.
  - vm_compute. reflexivity.
  - vm_compute. reflexivity.
  - eexists. split; [vm_compute; reflexivity |]. split; vm_compute; reflexivity.
  - vm_compute. reflexivity.
Qed.

Lemma round_trip_witness :
  let template := "app.views:user-{id}.json:{active}" in
  let toks := [("app.views:user-", Some (Field "id" "" None));
               (".json:", Some (Field "active" "" None))] in
  let kwargs : gmap string pyval :=
    <["id" := VInt 42]> (<["active" := VBool true]> ∅) in
  reachable [] /\
  parse template = Ok toks /\
  separated toks = true /\
  NoDup (map field_name (fields toks)) /\
  bound_without_colon kwargs toks /\
  kwargs !! "template" = None /\
  kwargs !! "_formatter" = None /\
  Forall (no_match (key_text kwargs toks)) (triples []) /\
  exists reg fieldValues,
    register_template [] ("app.views", "get_user") template = Ok reg /\
    template_to_pattern template default_formatter kwargs =
      Ok "app.views:user-42.json:true" /\
    get_template_for_key reg "app.views:user-42.json:true" =
      (Some template, Some fieldValues) /\
    fieldValues !! "id" = Some (Some "42") /\
    fieldValues !! "active" = Some (Some "true").
Proof.
  intros template toks kwargs.
  assert (Hnodup : NoDup (map field_name (fields toks))).
  { apply NoDup_cons. split; [| apply NoDup_singleton].
    intros Hin. apply list_elem_of_singleton in Hin. discriminate Hin. }
  assert (Hbound : bound_without_colon kwargs toks).
  { intros f Hf. apply elem_of_cons in Hf as [-> | Hf].
    - exists (VInt 42). split; reflexivity.
    - apply list_elem_of_singleton in Hf as ->.
      exists (VBool true). split; reflexivity. }
  assert (Hnone : Forall (no_match (key_text kwargs toks)) (triples [])).
  { constructor. }
  split; [apply reachable_empty |]. split; [reflexivity |].
  split; [reflexivity |]. split; [exact Hnodup |]. split; [exact Hbound |].
  split; [reflexivity |]. split; [reflexivity |].
  split; [exact Hnone |].
  destruct (round_trip [] ("app.views", "get_user") template toks kwargs
              reachable_empty eq_refl eq_refl Hnodup Hbound eq_refl eq_refl Hnone)
    as (reg & fieldValues & Hreg & Hkey & Hget & Hvalues).
  exists reg, fieldValues.
  split; [exact Hreg |]. split; [exact Hkey |]. split; [exact Hget |].
  split.
  - apply (Hvalues (Field "id" "" None) (VInt 42)); [| reflexivity].
    apply list_elem_of_here.
  - apply (Hvalues (Field "active" "" None) (VBool true)); [| reflexivity].
    apply list_elem_of_further, list_elem_of_here.
Defined.

End RoundTripFacts.

Module RegistryMore.
Import Py Formatter Re Registry RoundTrip.
Import FormatterFacts RegistryFacts RoundTripFacts.

Section WithLibrary.
Context `{Library}.

(** ** Templates that cannot be registered *)

(** The text of the pattern of a separated template parses, whatever its
    field names. *)
Lemma parse_seq_template (toks : list token) :
  separated toks = true ->
  parse_seq (S (String.length ("(.*[:])?" +:+ body_text toks +:+ "$")))
    ("(.*[:])?" +:+ body_text toks +:+ "$") = Ok (template_regex toks, "").
Proof.
  intros Hsep. apply separated_simple in Hsep.
  apply (parse_seq_prefix _ _ (body_starts_ok toks Hsep) (parse_seq_body toks Hsep)).
  lia.
Qed.

Lemma group_names_template (toks : list token) :
  group_names (template_regex toks) = map field_name (fields toks).
Proof.
  unfold template_regex. cbn [group_names prefix_regex app].
  rewrite group_names_body. cbn [group_names]. apply app_nil_r.
Qed.

(** A template that names a field twice cannot be registered: the two
    groups of its pattern would bear the same name, which [re.compile]
    refuses. *)
Theorem repeated_field_not_registrable (reg : registry) (func : func_id)
    (template : string) (toks : list token) :
  parse template = Ok toks ->
  separated toks = true ->
  ~ NoDup (map field_name (fields toks)) ->
  register_template reg func template = Raise ReError.
Proof.
  intros Hparse Hsep Hdup. unfold register_template.
  rewrite (pattern_text_separated template toks Hparse Hsep). cbn [rbind].
  unfold compile. rewrite (parse_seq_template toks Hsep). cbn [rbind].
  rewrite group_names_template, bool_decide_eq_false_2 by exact Hdup.
  reflexivity.
Qed.

(** ** Registering twice, and the templates of a function *)

Lemma func_id_eqb_refl (f : func_id) : func_id_eqb f f = true.
Proof. unfold func_id_eqb. rewrite !String.eqb_refl. reflexivity. Qed.

Lemma func_id_eqb_neq (f g : func_id) : f <> g -> func_id_eqb f g = false.
Proof.
  intros Hne. destruct (func_id_eqb f g) eqn:Heq; [| reflexivity].
  apply func_id_eqb_eq in Heq. contradiction.
Qed.

Lemma entry_eqb_refl (e : string * pattern) : entry_eqb e e = true.
Proof. unfold entry_eqb. rewrite !String.eqb_refl. reflexivity. Qed.

Lemma set_add_present (e : string * pattern) (entries : list (string * pattern)) :
  existsb (entry_eqb e) (set_add e entries) = true.
Proof.
  unfold set_add. destruct (existsb (entry_eqb e) entries) eqn:Hex; [exact Hex |].
  rewrite existsb_app. cbn [existsb]. rewrite entry_eqb_refl.
  rewrite orb_true_r. reflexivity.
Qed.

Lemma set_add_twice (e : string * pattern) (entries : list (string * pattern)) :
  set_add e (set_add e entries) = set_add e entries.
Proof. unfold set_add at 1. rewrite set_add_present. reflexivity. Qed.

Lemma setdefault_add_twice (reg : registry) (func : func_id)
    (e : string * pattern) :
  setdefault_add (setdefault_add reg func e) func e = setdefault_add reg func e.
Proof.
  induction reg as [| [f entries] reg IH].
  - cbn [setdefault_add]. rewrite func_id_eqb_refl.
    unfold set_add. cbn [existsb]. rewrite entry_eqb_refl. reflexivity.
  - cbn [setdefault_add]. destruct (func_id_eqb f func) eqn:Hf.
    + cbn [setdefault_add]. rewrite Hf, set_add_twice. reflexivity.
    + cbn [setdefault_add]. rewrite Hf, IH. reflexivity.
Qed.

(** Registering the same template for the same function a second time
    changes nothing. *)
Theorem register_template_idempotent (reg reg' : registry) (func : func_id)
    (template : string) :
  register_template reg func template = Ok reg' ->
  register_template reg' func template = Ok reg'.
Proof.
  unfold register_template. intros Hreg.
  destruct (pattern_text template) as [text |]; [| discriminate].
  cbn [rbind] in *. destruct (compile text) as [p |]; [| discriminate].
  cbn [rbind] in *. injection Hreg as <-. rewrite setdefault_add_twice.
  reflexivity.
Qed.

Lemma get_templates_setdefault_add_same (reg : registry) (func : func_id)
    (e : string * pattern) :
  fst e ∈ get_templates_for_func (setdefault_add reg func e) func.
Proof.
  unfold get_templates_for_func. induction reg as [| [f entries] reg IH].
  - cbn [setdefault_add find]. rewrite func_id_eqb_refl. cbn.
    apply list_elem_of_here.
  - cbn [setdefault_add]. destruct (func_id_eqb f func) eqn:Hf.
    + cbn [find]. rewrite Hf. apply list_elem_of_fmap.
      pose proof (set_add_present e entries) as Hex.
      apply existsb_exists in Hex as (e' & Hin & Heq).
      exists e'. split; [| apply list_elem_of_In, Hin].
      unfold entry_eqb in Heq. apply andb_true_iff in Heq as [Heq _].
      apply String.eqb_eq, Heq.
    + cbn [find]. rewrite Hf. exact IH.
Qed.

Lemma get_templates_setdefault_add_other (reg : registry) (func g : func_id)
    (e : string * pattern) :
  g <> func ->
  get_templates_for_func (setdefault_add reg func e) g =
  get_templates_for_func reg g.
Proof.
  intros Hne. unfold get_templates_for_func.
  induction reg as [| [f entries] reg IH].
  - cbn [setdefault_add find]. rewrite (func_id_eqb_neq func g) by congruence.
    reflexivity.
  - cbn [setdefault_add]. destruct (func_id_eqb f func) eqn:Hf.
    + apply func_id_eqb_eq in Hf. subst f. cbn [find].
      rewrite (func_id_eqb_neq func g) by congruence. reflexivity.
    + cbn [find]. destruct (func_id_eqb f g); [reflexivity | exact IH].
Qed.

(** After a registration the template is among the templates of its
    function, the templates of every other function are what they were, and
    a function nothing was registered for has none. *)
Theorem templates_for_func_after_register (reg reg' : registry)
    (func : func_id) (template : string) :
  register_template reg func template = Ok reg' ->
  template ∈ get_templates_for_func reg' func /\
  (forall g, g <> func ->
     get_templates_for_func reg' g = get_templates_for_func reg g) /\
  (forall g, get_templates_for_func [] g = []).
Proof.
  unfold register_template. intros Hreg.
  destruct (pattern_text template) as [text |]; [| discriminate].
  cbn [rbind] in *. destruct (compile text) as [p |]; [| discriminate].
  cbn [rbind] in *. injection Hreg as <-.
  split; [| split].
  - apply (get_templates_setdefault_add_same reg func (template, p)).
  - intros g Hg. apply get_templates_setdefault_add_other, Hg.
  - reflexivity.
Qed.

(** ** The two lookups *)

(** Every registered template has a wildcard form. *)
Lemma registered_wildcard (reg : registry) (func : func_id) (t : string)
    (p : pattern) :
  reachable reg -> (func, t, p) ∈ triples reg ->
  exists wildcard, template_to_pattern t (_ReplaceFormatter None) ∅ = Ok wildcard.
Proof.
  intros Hreach Hin.
  destruct (reachable_compiled reg Hreach func t p Hin) as (text & Htext & _).
  unfold pattern_text, template_to_pattern, vformat in *.
  pose proof (_vformat_ok_indep _re_formatter (_ReplaceFormatter None)
                eq_refl eq_refl 3 t) as Hok.
  destruct (_vformat 3 _re_formatter ∅ t); [| discriminate].
  destruct (_vformat 3 (_ReplaceFormatter None) ∅ t) as [w |]; [| discriminate].
  eauto.
Qed.

(** On a registry built by [register_template] the two lookups stop at the
    same entry: one misses exactly when the other does, and on a hit
    [get_template_for_key] returns the template of a registered entry whose
    wildcard form and function [get_template_and_func_for] returns. *)
Theorem lookups_agree (reg : registry) (key : string) :
  reachable reg ->
  (get_template_for_key reg key = (None, None) <->
   get_template_and_func_for reg key = Ok (None, None)) /\
  (forall template fieldValues,
     get_template_for_key reg key = (Some template, Some fieldValues) ->
     exists func p wildcard,
       (func, template, p) ∈ triples reg /\
       fullmatch p key <> None /\
       template_to_pattern template (_ReplaceFormatter None) ∅ = Ok wildcard /\
       get_template_and_func_for reg key = Ok (Some wildcard, Some func)).
Proof.
  intros Hreach. unfold get_template_for_key, get_template_and_func_for.
  pose proof (scan_register_spec reg key) as Hscan.
  destruct (scan_register reg key) as [[func [[t p] caps]] |].
  - destruct Hscan as (before & after & Heq & _ & Hhit).
    assert (Hin : (func, t, p) ∈ triples reg).
    { rewrite Heq. apply elem_of_app. right. apply list_elem_of_here. }
    destruct (registered_wildcard reg func t p Hreach Hin) as (w & Hw).
    rewrite Hw. cbn [rbind]. split.
    + split; intros Habs; discriminate Habs.
    + intros template fieldValues Hget. injection Hget as <- _.
      exists func, p, w. rewrite Hhit.
      split; [exact Hin |]. split; [discriminate |]. split; [exact Hw | reflexivity].
  - split; [split; reflexivity |]. intros template fieldValues Hget.
    discriminate Hget.
Qed.

(** ** Keys under a namespace *)

(** What the prefix group hands over to: a colon, then the rest. *)
Lemma rmatch_prefix_group (prev : option ascii) (s : string) (caps : captures)
    (k : cont) :
  rmatch (RGroup None (RSeq (RStar RAny) (RSeq (RSet false [":"%char]) REps)))
    prev s caps k =
  star (rmatch RAny) (String.length s) prev s caps
    (fun p s' c => rmatch (RSeq (RSet false [":"%char]) REps) p s' c k).
Proof. reflexivity. Qed.

Lemma rmatch_any_step (a : ascii) (s : string) (prev : option ascii)
    (caps : captures) (k : cont) :
  rmatch RAny prev (String a s) caps k =
  if Ascii.eqb a newline then None else k (Some a) s caps.
Proof. reflexivity. Qed.

(** The starred dot finds nothing where the continuation accepts no text
    with so few colons. *)
Lemma star_any_none (n : nat) (k : cont) :
  (forall p s' c, (colons s' <= n)%nat -> k p s' c = None) ->
  forall fuel prev s caps, (colons s <= n)%nat ->
    star (rmatch RAny) fuel prev s caps k = None.
Proof.
  intros Hk. induction fuel as [| fuel IH]; intros prev s caps Hs.
  - cbn [star]. apply Hk, Hs.
  - cbn [star]. destruct s as [| a s].
    + cbn [rmatch]. apply Hk, Hs.
    + rewrite rmatch_any_step. cbn [colons] in Hs.
      destruct (Ascii.eqb a newline); [apply Hk; cbn [colons]; lia |].
      destruct (String.length s <? String.length (String a s))%nat;
        [| apply Hk; cbn [colons]; lia].
      rewrite IH by lia. apply Hk. cbn [colons]. lia.
Qed.

(** The starred dot takes a namespace without line break and gives way at
    the last point the continuation accepts. *)
Lemma star_any_namespace (n : nat) (ns tail : string) (caps : captures)
    (k : cont) (res : captures) :
  contains newline ns = false ->
  (forall p s' c, (colons s' <= n)%nat -> k p s' c = None) ->
  (forall p, k p (String ":" tail) caps = Some res) ->
  (colons tail <= n)%nat ->
  forall fuel prev, (String.length ns <= fuel)%nat ->
    star (rmatch RAny) fuel prev (ns +:+ String ":" tail) caps k = Some res.
Proof.
  intros Hns Hnone Hk Htail.
  induction ns as [| a ns IH]; intros fuel prev Hfuel.
  - rewrite append_nil_l. destruct fuel as [| fuel]; [apply Hk |].
    cbn [star]. rewrite rmatch_any_step.
    change (Ascii.eqb ":" newline) with false. cbn [String.length].
    rewrite (proj2 (Nat.ltb_lt _ _)) by lia.
    rewrite (star_any_none n k Hnone) by exact Htail. apply Hk.
  - cbn [contains] in Hns. destruct (Ascii.eqb a newline) eqn:Ha; [discriminate |].
    cbn [String.length] in Hfuel. destruct fuel as [| fuel]; [lia |].
    rewrite append_cons. cbn [star]. rewrite rmatch_any_step, Ha.
    cbn [String.length]. rewrite (proj2 (Nat.ltb_lt _ _)) by lia.
    rewrite (IH Hns fuel (Some a)) by lia. reflexivity.
Qed.

(** The pattern of a separated template also matches its key under a
    namespace, with the same captures. *)
Lemma template_match_namespace (kwargs : gmap string pyval) (toks : list token)
    (source ns : string) :
  separated toks = true ->
  bound_without_colon kwargs toks ->
  contains newline ns = false ->
  fullmatch (Pattern source (template_regex toks))
    (ns +:+ String ":" (key_text kwargs toks)) = Some (captured kwargs toks ∅).
Proof.
  intros Hsep Hbound Hns. unfold fullmatch, template_regex, prefix_regex.
  cbn [pattern_regex]. change (fun _ s' c => match s' with
                                            | EmptyString => Some c
                                            | _ => None
                                            end) with at_end.
  rewrite rmatch_seq_opt, rmatch_prefix_group.
  rewrite (star_any_namespace (lit_colons toks) ns (key_text kwargs toks) ∅ _
             (captured kwargs toks ∅) Hns).
  - reflexivity.
  - intros p s' c Hs'. destruct s' as [| a s']; [reflexivity |].
    cbn [rmatch existsb]. rewrite orb_false_r. cbn [xorb].
    destruct (Ascii.eqb a ":") eqn:Ha; [| reflexivity].
    destruct (rmatch (body_regex toks (RSeq REol REps)) (Some a) s' c at_end)
      as [res |] eqn:Hm; [| reflexivity].
    apply body_sound_end in Hm. cbn [colons] in Hs'. rewrite Ha in Hs'. lia.
  - intros p. cbn [rmatch existsb Ascii.eqb Bool.eqb orb xorb].
    apply (body_match kwargs toks Hbound false (separated_segmented toks Hsep)).
  - rewrite (key_text_colons kwargs toks Hbound). lia.
  - rewrite length_append. lia.
Qed.

(** A key under a namespace, [ns:key], is looked up like the key: for a
    template and values as in the round trip and a namespace without line
    break, [get_template_for_key] returns the template and the texts of the
    values, in a registry where no other pattern matches the prefixed key. *)
Theorem namespaced_key_round_trip (reg0 : registry) (func : func_id)
    (template ns : string) (toks : list token) (kwargs : gmap string pyval) :
  reachable reg0 ->
  parse template = Ok toks ->
  separated toks = true ->
  NoDup (map field_name (fields toks)) ->
  bound_without_colon kwargs toks ->
  contains newline ns = false ->
  Forall (no_match (ns +:+ String ":" (key_text kwargs toks))) (triples reg0) ->
  exists reg fieldValues,
    register_template reg0 func template = Ok reg /\
    get_template_for_key reg (ns +:+ String ":" (key_text kwargs toks)) =
      (Some template, Some fieldValues) /\
    forall f v, f ∈ fields toks -> kwargs !! field_name f = Some v ->
      fieldValues !! field_name f = Some (Some (value_text v)).
Proof.
  intros Hreach Hparse Hsep Hnodup Hbound Hns Hnone.
  pose proof (pattern_text_separated template toks Hparse Hsep) as Htext.
  pose proof (compile_template toks Hsep Hnodup) as Hcompile.
  set (text := "(.*[:])?" +:+ body_text toks +:+ "$") in *.
  set (p := Pattern text (template_regex toks)) in *.
  pose proof (template_match_namespace kwargs toks text ns Hsep Hbound Hns)
    as Hmatch.
  fold p in Hmatch.
  exists (setdefault_add reg0 func (template, p)), (groupdict p (captured kwargs toks ∅)).
  split; [| split].
  - unfold register_template. rewrite Htext. cbn [rbind].
    rewrite Hcompile. reflexivity.
  - unfold get_template_for_key.
    rewrite (scan_register_add reg0 func template p _ _ Hnone Hmatch);
      [reflexivity |].
    intros f' t' p' Hin Heq.
    destruct (reachable_compiled reg0 Hreach f' t' p' Hin) as (text' & Ht' & Hc').
    unfold entry_eqb in Heq. cbn [fst snd] in Heq.
    apply andb_true_iff in Heq as [Heq _]. apply String.eqb_eq in Heq. subst t'.
    congruence.
  - intros f v Hf Hv. unfold groupdict. cbn [pattern_regex p].
    rewrite group_names_template.
    assert (Hin : field_name f ∈ map field_name (fields toks)).
    { apply list_elem_of_fmap. exists f. split; [reflexivity | exact Hf]. }
    rewrite (groupdict_lookup _ _ _ Hin).
    rewrite (captured_lookup kwargs toks ∅ _ (or_introl Hin)), Hv. reflexivity.
Qed.

End WithLibrary.

#[local] Existing Instance example_library.

Lemma repeated_field_not_registrable_witness :
  let toks := [("pair:", Some (Field "x" "" None)); (":", Some (Field "x" "" None))] in
  parse "pair:{x}:{x}" = Ok toks /\
  separated toks = true /\
  ~ NoDup (map field_name (fields toks)) /\
  register_template [] ("m", "f") "pair:{x}:{x}" = Raise ReError.
Proof.
  intros toks.
  assert (Hdup : ~ NoDup (map field_name (fields toks))).
  { intros Hnd. apply NoDup_cons in Hnd as [Hnotin _]. apply Hnotin.
    apply list_elem_of_here. }
  split; [reflexivity |]. split; [reflexivity |]. split; [exact Hdup |].
  apply (repeated_field_not_registrable [] ("m", "f") "pair:{x}:{x}" toks
           eq_refl eq_refl Hdup).
Defined.

Lemma register_template_idempotent_witness :
  register_template [] ("app.views", "get_user") "user:{id}" = Ok example_registry /\
  register_template example_registry ("app.views", "get_user") "user:{id}" =
    Ok example_registry.
Proof.
  assert (Hreg : register_template [] ("app.views", "get_user") "user:{id}" =
                 Ok example_registry) by (vm_compute; reflexivity).
  split; [exact Hreg |].
  apply (register_template_idempotent [] example_registry
           ("app.views", "get_user") "user:{id}" Hreg).
Defined.

Lemma templates_for_func_after_register_witness :
  register_template [] ("app.views", "get_user") "user:{id}" = Ok example_registry /\
  "user:{id}" ∈ get_templates_for_func example_registry ("app.views", "get_user").
Proof.
  assert (Hreg : register_template [] ("app.views", "get_user") "user:{id}" =
                 Ok example_registry) by (vm_compute; reflexivity).
  split; [exact Hreg |].
  apply (proj1 (templates_for_func_after_register [] example_registry
                  ("app.views", "get_user") "user:{id}" Hreg)).
Defined.

Lemma lookups_agree_witness :
  reachable example_registry /\
  get_template_for_key example_registry "order:7" = (None, None) /\
  get_template_and_func_for example_registry "order:7" = Ok (None, None).
Proof.
  assert (Hreach : reachable example_registry).
  { apply (reachable_register [] ("app.views", "get_user") "user:{id}");
      [apply reachable_empty | vm_compute; reflexivity]. }
  split; [exact Hreach |]. split; [reflexivity |].
  apply (proj1 (proj1 (lookups_agree example_registry "order:7" Hreach))).
  reflexivity.
Defined.

Lemma namespaced_key_round_trip_witness :
  let template := "user:{id}" in
  let toks := [("user:", Some (Field "id" "" None))] in
  let kwargs : gmap string pyval := <["id" := VInt 42]> ∅ in
  reachable [] /\
  parse template = Ok toks /\
  separated toks = true /\
  NoDup (map field_name (fields toks)) /\
  bound_without_colon kwargs toks /\
  contains newline "shop:eu" = false /\
  Forall (no_match ("shop:eu" +:+ String ":" (key_text kwargs toks))) (triples []) /\
  exists reg fieldValues,
    register_template [] ("app.views", "get_user") template = Ok reg /\
    get_template_for_key reg "shop:eu:user:42" = (Some template, Some fieldValues) /\
    fieldValues !! "id" = Some (Some "42").
Proof.
  intros template toks kwargs.
  assert (Hnodup : NoDup (map field_name (fields toks))) by apply NoDup_singleton.
  assert (Hbound : bound_without_colon kwargs toks).
  { intros f Hf. apply list_elem_of_singleton in Hf as ->.
    exists (VInt 42). split; reflexivity. }
  assert (Hnone : Forall (no_match ("shop:eu" +:+ String ":" (key_text kwargs toks)))
                    (triples [])) by constructor.
  split; [apply reachable_empty |]. split; [reflexivity |].
  split; [reflexivity |]. split; [exact Hnodup |]. split; [exact Hbound |].
  split; [reflexivity |]. split; [exact Hnone |].
  destruct (namespaced_key_round_trip [] ("app.views", "get_user") template
              "shop:eu" toks kwargs reachable_empty eq_refl eq_refl Hnodup
              Hbound eq_refl Hnone)
    as (reg & fieldValues & Hreg & Hget & Hvalues).
  exists reg, fieldValues.
  split; [exact Hreg |]. split; [exact Hget |].
  apply (Hvalues (Field "id" "" None) (VInt 42)); [| reflexivity].
  apply list_elem_of_here.
Defined.

End RegistryMore.

Module FormatterMore.
Import Py Formatter Re Registry RoundTrip More.
Import FormatterFacts RegistryFacts RoundTripFacts.

Section WithLibrary.
Context `{Library}.

(** ** Positional fields *)

(** The lookup of a field whose first part is a number: no position holds a
    value, and a number beyond [PY_SSIZE_T_MAX] is refused before that. *)
Lemma get_field_index (fmt : formatter) (name : string)
    (kwargs : gmap string pyval) :
  get_integer (fst (field_name_split name)) <> Ok None ->
  get_field fmt name kwargs =
    match get_integer (fst (field_name_split name)) with
    | Raise _ => Raise ValueError
    | Ok _ => Raise IndexError
    end.
Proof.
  unfold get_field, base_get_field.
  destruct (field_name_split name) as [first rest]. cbn [fst].
  destruct (get_integer first) as [[idx |] | e] eqn:Hint; intros Hne.
  - reflexivity.
  - contradiction.
  - apply get_integer_raise in Hint. subst e. reflexivity.
Qed.

(** A positional field, once numbered, has a number for first part. *)
Lemma positional_numbered (name : string) :
  is_positional name = true ->
  get_integer (fst (field_name_split (auto_number name))) <> Ok None.
Proof.
  destruct name as [| c name]; [discriminate |].
  unfold is_positional. cbn [auto_number].
  destruct (get_integer _) as [[idx |] | e]; discriminate.
Qed.

Lemma render_field_positional (expand : string -> result string)
    (fmt : formatter) (kwargs : gmap string pyval) (f : field) :
  is_positional (field_name f) = true ->
  is_ok (render_field expand fmt kwargs f) = false.
Proof.
  intros Hpos. unfold render_field.
  rewrite (get_field_index _ _ _ (positional_numbered _ Hpos)).
  destruct (get_integer _); reflexivity.
Qed.

Lemma render_tokens_positional (expand : string -> result string)
    (fmt : formatter) (kwargs : gmap string pyval) (toks : list token)
    (lit : string) (f : field) :
  (lit, Some f) ∈ toks -> is_positional (field_name f) = true ->
  is_ok (render_tokens expand fmt kwargs toks) = false.
Proof.
  intros Hin Hpos. induction toks as [| [lit' fld] toks IH]; [inversion Hin |].
  cbn [render_tokens]. apply elem_of_cons in Hin as [Heq | Hin].
  - injection Heq as <- <-.
    pose proof (render_field_positional expand fmt kwargs f Hpos) as Hf.
    destruct (render_field expand fmt kwargs f); [discriminate | reflexivity].
  - specialize (IH Hin).
    destruct (match fld with
              | Some f0 => render_field expand fmt kwargs f0
              | None => Ok ""
              end); [| reflexivity].
    cbn [rbind]. destruct (render_tokens expand fmt kwargs toks);
      [discriminate | reflexivity].
Qed.

(** A template with a positional field, numbered or not, can be neither
    formatted nor registered: the formatters are only ever given named
    values.  [get_field], called with the name as [_vformat] numbers it,
    raises the [IndexError] of the empty tuple of positions, or the
    [ValueError] of a number too long to be an index, and the default
    policy stands in for neither. *)
Theorem positional_field_fails (fmt : formatter) (kwargs : gmap string pyval)
    (template : string) (toks : list token) (lit : string) (f : field) :
  parse template = Ok toks ->
  (lit, Some f) ∈ toks ->
  is_positional (field_name f) = true ->
  get_field fmt (auto_number (field_name f)) kwargs =
    match get_integer (fst (field_name_split (auto_number (field_name f)))) with
    | Raise _ => Raise ValueError
    | Ok _ => Raise IndexError
    end /\
  is_ok (template_to_pattern template fmt kwargs) = false /\
  forall reg func, is_ok (register_template reg func template) = false.
Proof.
  intros Hparse Hin Hpos.
  split; [apply get_field_index, positional_numbered, Hpos |].
  assert (Hfail : forall fmt' kwargs',
            is_ok (vformat fmt' template kwargs') = false).
  { intros fmt' kwargs'. unfold vformat.
    rewrite (_vformat_parsed _ _ _ _ _ Hparse).
    apply (render_tokens_positional _ _ _ _ lit f Hin Hpos). }
  split.
  - unfold template_to_pattern.
    destruct (kwargs !! "template"), (kwargs !! "_formatter");
      try reflexivity. apply Hfail.
  - intros reg func. unfold register_template, pattern_text.
    rewrite template_to_pattern_no_values.
    specialize (Hfail _re_formatter ∅).
    destruct (vformat _re_formatter template ∅); [discriminate | reflexivity].
Qed.

(** ** Literal text *)

(** A template without braces is copied as it is by [format], by any
    formatter and with any values; [template_to_pattern] returns the copy
    for values that bind neither of its parameter names, [template] and
    [_formatter], and refuses a value of either name with a [TypeError]. *)
Theorem literal_text_verbatim (fmt : formatter) (kwargs : gmap string pyval)
    (template : string) :
  brace_free template = true ->
  vformat fmt template kwargs = Ok template /\
  (kwargs !! "template" = None -> kwargs !! "_formatter" = None ->
   template_to_pattern template fmt kwargs = Ok template) /\
  (is_Some (kwargs !! "template") \/ is_Some (kwargs !! "_formatter") ->
   template_to_pattern template fmt kwargs = Raise TypeError).
Proof.
  intros Hbf.
  assert (Hcopy : vformat fmt template kwargs = Ok template).
  { unfold vformat. apply _vformat_brace_free, Hbf. }
  split; [exact Hcopy |]. split.
  - intros Ht Hf. rewrite (template_to_pattern_unbound _ _ _ Ht Hf). exact Hcopy.
  - apply template_to_pattern_bound.
Qed.

(** ** Aliases without arguments *)

Lemma parse_format_spec_bare (spec : string) :
  contains "(" spec = false -> parse_format_spec spec = (spec, []).
Proof.
  intros Hs. unfold parse_format_spec. rewrite Hs. cbn [negb].
  rewrite orb_true_r. reflexivity.
Qed.

(** A specifier that is just a registered alias calls the function with the
    value alone, and the text of what the function returns is the field's;
    an exception of the function is the field's too. *)
Theorem bare_alias_passes_value_only (functions : gmap string pyfunc)
    (alias : string) (fn : pyfunc) (v : pyval) :
  functions !! alias = Some fn ->
  contains "(" alias = false ->
  func_format_field functions v alias = rbind (fn v []) (fun r => Ok (str r)).
Proof.
  intros Hfn Ha. unfold func_format_field.
  rewrite (parse_format_spec_bare alias Ha). cbv zeta. rewrite Hfn.
  destruct (fn v []); reflexivity.
Qed.

(** ** The arguments of a specifier *)

Lemma split_once_fst (c : ascii) (s : string) :
  contains c (fst (split_once c s)) = false.
Proof.
  induction s as [| a s IH]; [reflexivity |]. cbn [split_once].
  destruct (Ascii.eqb a c) eqn:Ha; [reflexivity |].
  destruct (split_once c s) as [l r]. cbn [fst contains] in *.
  rewrite Ha. exact IH.
Qed.

Lemma contains_remove_char (c : ascii) (s : string) :
  contains c (remove_char c s) = false.
Proof.
  induction s as [| a s IH]; [reflexivity |]. cbn [remove_char].
  destruct (Ascii.eqb a c) eqn:Ha; [exact IH |].
  cbn [contains]. rewrite Ha. exact IH.
Qed.

Lemma split_pieces (c d : ascii) (s : string) :
  contains d s = false ->
  Forall (fun piece => contains c piece = false /\ contains d piece = false)
         (split c s).
Proof.
  induction s as [| a s IH]; intros Hd.
  - repeat constructor.
  - cbn [contains] in Hd. destruct (Ascii.eqb a d) eqn:Had; [discriminate |].
    specialize (IH Hd). cbn [split].
    destruct (Ascii.eqb a c) eqn:Hac.
    + constructor; [split; reflexivity | exact IH].
    + destruct (split c s) as [| x l].
      * constructor; [| constructor]. cbn [contains]. rewrite Hac, Had. auto.
      * inversion IH as [| ? ? [Hx1 Hx2] Hl]; subst.
        constructor; [| exact Hl]. cbn [contains]. rewrite Hac, Had. auto.
Qed.

Lemma split_nonempty (c : ascii) (s : string) : split c s <> [].
Proof.
  destruct s as [| a s]; [discriminate |]. cbn [split].
  destruct (Ascii.eqb a c); [discriminate |].
  destruct (split c s); discriminate.
Qed.

(** What [parse_format_spec] can and cannot express: the alias never holds
    a left parenthesis; no argument holds a comma or a right parenthesis,
    so an argument cannot be a nested call; a spec with a left parenthesis
    always carries at least one argument, and one without carries none. *)
Theorem parse_format_spec_shape (spec : string) :
  contains "(" (fst (parse_format_spec spec)) = false /\
  Forall (fun arg => contains "," arg = false /\ contains ")" arg = false)
         (snd (parse_format_spec spec)) /\
  (contains "(" spec = true -> snd (parse_format_spec spec) <> []) /\
  (contains "(" spec = false -> parse_format_spec spec = (spec, [])).
Proof.
  split; [| split; [| split]].
  - unfold parse_format_spec.
    destruct (String.eqb_spec spec "") as [-> | _]; [reflexivity |].
    destruct (contains "(" spec) eqn:Hc; [| exact Hc]. cbn [orb negb].
    pose proof (split_once_fst "(" spec) as Hfst.
    destruct (split_once "(" spec) as [alias args]. exact Hfst.
  - unfold parse_format_spec.
    destruct (String.eqb spec "" || negb (contains "(" spec)); [constructor |].
    destruct (split_once "(" spec) as [alias args]. cbn [snd].
    apply split_pieces, contains_remove_char.
  - intros Hc. unfold parse_format_spec. rewrite Hc.
    destruct (String.eqb_spec spec "") as [-> | _]; [discriminate |].
    cbn [orb negb]. destruct (split_once "(" spec) as [alias args]. cbn [snd].
    apply split_nonempty.
  - apply parse_format_spec_bare.
Qed.

(** ** The claim of a token *)

Lemma contains_dots (s : string) : contains "." s = false <-> dots s = 0%nat.
Proof.
  induction s as [| c s IH]; [split; reflexivity |]. cbn [contains dots].
  destruct (Ascii.eqb c "."); [split; [discriminate | lia] |]. exact IH.
Qed.

Lemma split_once_dots (s : string) :
  contains "." s = true ->
  dots s = S (dots (snd (split_once "." s))).
Proof.
  induction s as [| c s IH]; [discriminate |]. cbn [contains dots split_once].
  destruct (Ascii.eqb c "."); [reflexivity |]. intros Hs.
  rewrite (IH Hs). destruct (split_once "." s). reflexivity.
Qed.

Lemma split_once_app (c : ascii) (a rest : string) :
  contains c a = false ->
  contains c (a +:+ String c rest) = true /\
  split_once c (a +:+ String c rest) = (a, rest).
Proof.
  induction a as [| x a IH]; intros Ha.
  - rewrite append_nil_l. cbn [contains split_once]. rewrite Ascii.eqb_refl. auto.
  - cbn [contains] in Ha. destruct (Ascii.eqb x c) eqn:Hx; [discriminate |].
    destruct (IH Ha) as [Hc Hs]. rewrite append_cons.
    cbn [contains split_once]. rewrite Hx, Hc, Hs. auto.
Qed.

(** [jwt] reads the middle segment of a token and nothing else: with a
    header and a payload free of dots, the claim is looked up in the
    payload whatever the header and the signature are, so a forged
    signature makes no difference.  A text with fewer than two dots is not
    a token ([ValueError]); a text with two or more is always split; a
    value that is not a string has no [split] ([AttributeError]). *)
Theorem jwt_reads_payload_only (key : string) :
  (forall header payload signature,
     contains "." header = false -> contains "." payload = false ->
     _jwt_func (VStr (header +:+ String "." (payload +:+ String "." signature))) key =
       jwt_claim payload key) /\
  (forall s, (dots s < 2)%nat -> _jwt_func (VStr s) key = Raise ValueError) /\
  (forall s, (2 <= dots s)%nat ->
     exists payload, _jwt_func (VStr s) key = jwt_claim payload key) /\
  (forall v, (forall s, v <> VStr s) -> _jwt_func v key = Raise AttributeError).
Proof.
  split; [| split; [| split]].
  - intros header payload signature Hh Hp. unfold _jwt_func, split2.
    destruct (split_once_app "." header (payload +:+ String "." signature) Hh)
      as [Hc1 Hs1].
    destruct (split_once_app "." payload signature Hp) as [Hc2 Hs2].
    rewrite Hc1, Hs1, Hc2, Hs2. reflexivity.
  - intros s Hs. unfold _jwt_func, split2.
    destruct (contains "." s) eqn:Hc; [| reflexivity].
    pose proof (split_once_dots s Hc) as Hd.
    destruct (split_once "." s) as [a r]. cbn [snd] in Hd.
    assert (Hr : contains "." r = false) by (apply contains_dots; lia).
    rewrite Hr. reflexivity.
  - intros s Hs. unfold _jwt_func, split2.
    destruct (contains "." s) eqn:Hc.
    + pose proof (split_once_dots s Hc) as Hd.
      destruct (split_once "." s) as [a r]. cbn [snd] in Hd.
      destruct (contains "." r) eqn:Hr.
      * destruct (split_once "." r) as [b r']. eauto.
      * apply contains_dots in Hr. lia.
    + apply contains_dots in Hc. lia.
  - intros v Hv. destruct v; try reflexivity. elim (Hv s). reflexivity.
Qed.

End WithLibrary.

#[local] Existing Instance example_library.

(** [get_field] on the names the positions go by: an index within range,
    the first index out of range, the empty name (which only [_vformat]
    numbers), and a number followed by an attribute. *)
Lemma get_field_positions :
  get_field default_formatter "9223372036854775807" ∅ = Raise IndexError /\
  get_field default_formatter "9223372036854775808" ∅ = Raise ValueError /\
  get_field default_formatter "" ∅ = Ok (VStr "") /\
  get_field (_ReplaceFormatter None) "" ∅ = Ok (VStr "*") /\
  get_field default_formatter "0.name" ∅ = Raise IndexError /\
  vformat default_formatter "user:{}" ∅ = Raise IndexError /\
  vformat default_formatter "user:{9223372036854775808}" ∅ = Raise ValueError.
Proof. repeat split; vm_compute; reflexivity. Qed.

(** A fault of the template shows only if the items before it render: the
    position of the first template raises before its fault is met. *)
Lemma template_fault_order :
  vformat default_formatter "{0}{" ∅ = Raise IndexError /\
  vformat default_formatter "{a}{" ∅ = Raise ValueError /\
  parse "{0}{" = Raise ValueError /\
  parse_items "{0}{" = ([("", Some (Field "0" "" None))], Some ValueError).
Proof. repeat split; vm_compute; reflexivity. Qed.

Lemma positional_field_fails_witness :
  parse "user:{}" = Ok [("user:", Some (Field "" "" None))] /\
  ("user:", Some (Field "" "" None)) ∈ [("user:", Some (Field "" "" None))] /\
  is_positional "" = true /\
  get_field default_formatter "0" (<["id" := VInt 1]> ∅) = Raise IndexError /\
  is_ok (template_to_pattern "user:{}" default_formatter (<["id" := VInt 1]> ∅)) = false.
Proof.
  split; [reflexivity |]. split; [apply list_elem_of_here |].
  split; [reflexivity |].
  destruct (positional_field_fails default_formatter (<["id" := VInt 1]> ∅)
              "user:{}" [("user:", Some (Field "" "" None))] "user:"
              (Field "" "" None) eq_refl (list_elem_of_here _ _) eq_refl)
    as (Hget & Hformat & _).
  split; [exact Hget | exact Hformat].
Defined.

Lemma literal_text_verbatim_witness :
  brace_free "static:key" = true /\
  (<["id" := VInt 1]> ∅ : gmap string pyval) !! "template" = None /\
  (<["id" := VInt 1]> ∅ : gmap string pyval) !! "_formatter" = None /\
  template_to_pattern "static:key" default_formatter (<["id" := VInt 1]> ∅) =
    Ok "static:key" /\
  is_Some ((<["template" := VInt 1]> ∅ : gmap string pyval) !! "template") /\
  template_to_pattern "static:key" default_formatter (<["template" := VInt 1]> ∅) =
    Raise TypeError.
Proof.
  split; [reflexivity |]. split; [reflexivity |]. split; [reflexivity |].
  split.
  - apply (proj1 (proj2 (literal_text_verbatim default_formatter
                           (<["id" := VInt 1]> ∅) "static:key" eq_refl)));
      reflexivity.
  - assert (Hbound : is_Some ((<["template" := VInt 1]> ∅ : gmap string pyval)
                                !! "template")) by (exists (VInt 1); reflexivity).
    split; [exact Hbound |].
    apply (proj2 (proj2 (literal_text_verbatim default_formatter
                           (<["template" := VInt 1]> ∅) "static:key" eq_refl))).
    left. exact Hbound.
Defined.

Lemma bare_alias_passes_value_only_witness :
  let functions : gmap string pyfunc := <["len" := py_len]> ∅ in
  functions !! "len" = Some py_len /\
  contains "(" "len" = false /\
  func_format_field functions (VList [1; 2; 3]) "len" = Ok "3".
Proof.
  intros functions. split; [reflexivity |]. split; [reflexivity |].
  apply (bare_alias_passes_value_only functions "len" py_len (VList [1; 2; 3])
           eq_refl eq_refl).
Defined.

Lemma jwt_reads_payload_only_witness :
  contains "." "hdr" = false /\ contains "." "pay" = false /\
  _jwt_func (VStr "hdr.pay.forged.sig") "sub" = jwt_claim "pay" "sub" /\
  (dots "hdr.pay" < 2)%nat /\
  _jwt_func (VStr "hdr.pay") "sub" = Raise ValueError.
Proof.
  split; [reflexivity |]. split; [reflexivity |].
  destruct (jwt_reads_payload_only "sub") as (Hpayload & Hshort & _).
  split; [apply (Hpayload "hdr" "pay" "forged.sig" eq_refl eq_refl) |].
  assert (Hd : (dots "hdr.pay" < 2)%nat) by (cbn; lia).
  split; [exact Hd | apply (Hshort "hdr.pay" Hd)].
Defined.

End FormatterMore.

Module PolicyMore.
Import Policy More PolicyFacts.

(** ** The rate limiter within its limit, and what it leaves alone *)

Section RateMore.
Context {Args R V : Type}.
Variable get_cache_key : Args -> string.
Variable limit period : Z.
Variable ttl : option Z.
Variable action : Args -> result V * Qc.
Variable func : Args -> result R * Qc.

Local Abbreviation call := (wrapped_func get_cache_key limit period ttl action func).

(** A rate-limited call touches neither the locks nor the trace. *)
Lemma wrapped_func_frame args (w : world Args) :
  lock_tbl (snd (call args w)) = lock_tbl w /\
  call_results (snd (call args w)) = call_results w.
Proof.
  unfold wrapped_func, bind, backend_incr, invoke, bind, emit, advance, lift,
    backend_expire, ret.
  cbn [fst snd].
  destruct (truthy _ && _); cbn;
    repeat match goal with
           | |- context [if ?b then _ else _] => destruct b; cbn
           | |- context [match fst ?x with _ => _ end] => destruct (fst x); cbn
           end; auto.
Qed.

(** Within the limit the action is not called and no ban is set: the call
    increments the counter, sets the expiry to [period] if this is the
    first increment, calls the wrapped function and returns its outcome. *)
Theorem rate_within_limit args (w : world Args) :
  let key := get_cache_key args in
  let count := next_count w key in
  count <= limit ->
  fst (call args w) = fst (func args) /\
  log (snd (call args w)) =
    log w ++ [EvIncr key] ++
      (if (count =? 1)%Z then [EvExpire key period] else []) ++ [EvCall args] /\
  expiries (snd (call args w)) =
    (if (count =? 1)%Z then <[key := period]> (expiries w) else expiries w).
Proof.
  intros key count Hle.
  rewrite wrapped_func_result, wrapped_func_log, wrapped_func_expiries.
  fold key. fold count.
  destruct (Z.gtb_spec count limit) as [Hgt | _]; [lia |].
  unfold period_events. auto.
Qed.

(** Every call counts, whatever becomes of it: the counter of its key goes
    up by exactly one, also when the call is rejected or the wrapped
    function raises; the counters of the other keys, the locks and the perf
    trace are left alone. *)
Theorem rate_counts_every_call args (w : world Args) :
  let key := get_cache_key args in
  let w' := snd (call args w) in
  counters w' !! key = Some (N.succ (default 0%N (counters w !! key))) /\
  (forall other, other <> key -> counters w' !! other = counters w !! other) /\
  lock_tbl w' = lock_tbl w /\
  call_results w' = call_results w.
Proof.
  intros key w'. subst w'. rewrite wrapped_func_counters. fold key.
  split; [apply lookup_insert_eq |].
  split; [intros other Hne; apply lookup_insert_ne; congruence |].
  apply wrapped_func_frame.
Qed.

End RateMore.

Section RateSequence.
Context {Args R : Type}.
Variable get_cache_key : Args -> string.
Variable limit period : Z.
Variable ttl : option Z.
Variable func : Args -> result R * Qc.

Local Abbreviation limited :=
  (rate_limit (V:=unit) get_cache_key limit period ttl None func).
Local Abbreviation limited' :=
  (wrapped_func (V:=unit) get_cache_key limit period ttl _default_action func).

Lemma next_count_after_calls args (w : world Args) (n : nat) :
  counters w !! get_cache_key args = None ->
  next_count (after_calls limited' args n w) (get_cache_key args) = Z.of_nat (S n).
Proof.
  intros Hnew. induction n as [| n IH].
  - unfold next_count. cbn [after_calls]. rewrite Hnew. reflexivity.
  - unfold next_count in *. cbn [after_calls].
    rewrite wrapped_func_counters, lookup_insert_eq.
    change (default 0%N (Some ?x)) with x.
    rewrite N2Z.inj_succ, IH. lia.
Qed.

(** With the default action, and for as long as the backend keeps the
    counter, the calls on a key the backend has not seen are let through up
    to the limit and rejected from there on: after [n] calls the next one
    returns the outcome of the wrapped function if [n + 1 <= limit], and
    raises [RateLimitException] without calling it otherwise. *)
Theorem rate_limit_sequence args (w : world Args) (n : nat) :
  counters w !! get_cache_key args = None ->
  let w_n := after_calls limited args n w in
  fst (limited args w_n) =
    (if (Z.of_nat (S n) <=? limit)%Z then fst (func args)
     else Raise RateLimitException) /\
  (limit < Z.of_nat (S n) -> last (log (snd (limited args w_n))) = Some (EvAction args)).
Proof.
  intros Hnew w_n. subst w_n.
  change limited with limited'.
  rewrite wrapped_func_result, wrapped_func_log.
  rewrite (next_count_after_calls args w n Hnew).
  destruct (Z.gtb_spec (Z.of_nat (S n)) limit) as [Hgt | Hle];
    destruct (Z.leb_spec (Z.of_nat (S n)) limit) as [Hle' | Hgt']; try lia.
  - split; [reflexivity |]. intros _. cbn [_default_action fst is_ok].
    rewrite app_nil_r, !app_assoc. apply last_snoc.
  - split; [reflexivity |]. intros Habs. lia.
Qed.

End RateSequence.

(** ** The perf breaker: its trace, its lock, and what it leaves alone *)

Section PerfMore.
Context {Args R : Type}.
Variable get_cache_key : Args -> string.
Variable ttl : Z.
Variable trace_size : nat.
Variable perf_condition : Qc -> list Qc -> result bool.
Variable func : Args -> result R * Qc.

Local Abbreviation wrap := (_wrap get_cache_key ttl trace_size perf_condition func).

(** The three ways a call can go, with the world each leaves. *)
Lemma _wrap_cases args (w : world Args) :
  let w' := snd (wrap args w) in
  counters w' = counters w /\ expiries w' = expiries w /\
  (call_results w' = call_results w \/
   call_results w' = [] \/
   call_results w' = deque_append trace_size (call_results w) (snd (func args))).
Proof.
  cbv zeta. destruct (is_locked get_cache_key w args) eqn:Hlock.
  - rewrite (_wrap_locked _ _ _ _ _ _ _ Hlock). cbn. auto.
  - destruct (fst (func args)) as [r | e] eqn:Hf.
    + rewrite (_wrap_func_returns _ _ _ _ _ _ _ r Hlock Hf).
      destruct (length (call_results w) =? trace_size)%nat; [| cbn; auto].
      destruct (perf_condition _ _) as [[|] |]; cbn; auto.
    + rewrite (_wrap_func_raises _ _ _ _ _ _ _ e Hlock Hf). cbn. auto.
Qed.

Lemma _wrap_trace_length args (w : world Args) :
  (length (call_results w) <= trace_size)%nat ->
  (length (call_results (snd (wrap args w))) <= trace_size)%nat.
Proof.
  intros Hcap. destruct (_wrap_cases args w) as (_ & _ & Ht).
  destruct Ht as [-> | [-> | ->]];
    [exact Hcap | cbn; lia | apply deque_append_length, Hcap].
Qed.

(** The trace never outgrows [trace_size], whatever the outcome of the
    call, and a perf-decorated call never touches the counters or the
    expiries of the rate limiter. *)
Theorem perf_trace_bounded args (w : world Args) :
  (length (call_results w) <= trace_size)%nat ->
  let w' := snd (wrap args w) in
  (length (call_results w') <= trace_size)%nat /\
  counters w' = counters w /\ expiries w' = expiries w.
Proof.
  intros Hcap w'. subst w'.
  destruct (_wrap_cases args w) as (Hc & He & _).
  split; [apply _wrap_trace_length, Hcap | auto].
Qed.

(** The bound holds along any number of calls from a world whose trace is
    empty. *)
Theorem perf_trace_bounded_always args (w : world Args) (n : nat) :
  call_results w = [] ->
  (length (call_results (after_calls wrap args n w)) <= trace_size)%nat.
Proof.
  intros Hempty. induction n as [| n IH].
  - cbn [after_calls]. rewrite Hempty. cbn. lia.
  - cbn [after_calls]. apply _wrap_trace_length, IH.
Qed.

(** Once a call has tripped the breaker, the next call for the same key
    fails at once with [PerfDegradationException] and does not reach the
    wrapped function; the lock is per key, so a call for a key that was not
    locked before still goes through to the function. *)
Theorem perf_breaker_trips args (w : world Args) (r : R) :
  lock_tbl w !! lock_key get_cache_key args = None ->
  fst (func args) = Ok r ->
  length (call_results w) = trace_size ->
  perf_condition (snd (func args)) (call_results w) = Ok true ->
  let w' := snd (wrap args w) in
  (forall args', get_cache_key args' = get_cache_key args ->
     fst (wrap args' w') = Raise PerfDegradationException /\
     log (snd (wrap args' w')) = log w' ++ [EvIsLocked (lock_key get_cache_key args)]) /\
  (forall args', lock_key get_cache_key args' <> lock_key get_cache_key args ->
     lock_tbl w !! lock_key get_cache_key args' = None ->
     is_locked get_cache_key w' args' = false /\
     In (EvCall args') (log (snd (wrap args' w')))).
Proof.
  intros Hnone Hf Hfull Hcond w'.
  assert (Hfree : is_locked get_cache_key w args = false).
  { unfold is_locked. rewrite Hnone. apply bool_decide_eq_false.
    intros [? ?]; discriminate. }
  assert (Hw' : lock_tbl w' =
                <[lock_key get_cache_key args := (snd (func args), ttl)]> (lock_tbl w)).
  { subst w'. rewrite (_wrap_func_returns _ _ _ _ _ _ _ r Hfree Hf).
    rewrite (proj2 (Nat.eqb_eq _ _) Hfull), Hcond. reflexivity. }
  split.
  - intros args' Hkey.
    assert (Hl : is_locked get_cache_key w' args' = true).
    { unfold is_locked, lock_key. rewrite Hkey. fold (lock_key get_cache_key args).
      rewrite Hw', lookup_insert_eq. apply bool_decide_eq_true. eauto. }
    rewrite (_wrap_locked _ _ _ _ _ _ _ Hl). cbn [fst snd log].
    unfold lock_key. rewrite Hkey. auto.
  - intros args' Hne Hnone'.
    assert (Hfree' : is_locked get_cache_key w' args' = false).
    { unfold is_locked. rewrite Hw', lookup_insert_ne by congruence.
      rewrite Hnone'. apply bool_decide_eq_false. intros [? ?]; discriminate. }
    split; [exact Hfree' |].
    destruct (fst (func args')) as [r' | e'] eqn:Hf'.
    + rewrite (_wrap_func_returns _ _ _ _ _ _ _ r' Hfree' Hf'). cbv zeta.
      destruct (length (call_results w') =? trace_size)%nat;
        [destruct (perf_condition (snd (func args')) (call_results w')) as [[|] |] |];
        cbn [snd log]; repeat rewrite in_app_iff; cbn [In]; auto 6.
    + rewrite (_wrap_func_raises _ _ _ _ _ _ _ e' Hfree' Hf').
      cbn [snd log]. repeat rewrite in_app_iff. cbn [In]. auto 6.
Qed.

End PerfMore.

(** With [trace_size = 0] the default condition cannot be used: the empty
    trace counts as full, the mean of no durations is undefined, and every
    call on an unlocked key ends in [StatisticsError], after the wrapped
    function has run and returned. *)
Theorem perf_zero_trace_default_condition {Args R}
    (get_cache_key : Args -> string) (ttl : Z)
    (func : Args -> result R * Qc) (args : Args) (w : world Args) (r : R) :
  lock_tbl w !! lock_key get_cache_key args = None ->
  call_results w = [] ->
  fst (func args) = Ok r ->
  let run := perf get_cache_key ttl 0 None func args w in
  fst run = Raise StatisticsError /\
  In (EvCall args) (log (snd run)) /\
  lock_tbl (snd run) = lock_tbl w /\ call_results (snd run) = [].
Proof.
  intros Hnone Hempty Hf run. subst run. unfold perf. cbn [default].
  assert (Hfree : is_locked get_cache_key w args = false).
  { unfold is_locked. rewrite Hnone. apply bool_decide_eq_false.
    intros [? ?]; discriminate. }
  rewrite (_wrap_func_returns _ _ _ _ _ _ _ r Hfree Hf), Hempty. cbv zeta.
  cbn. repeat rewrite in_app_iff. cbn [In]. auto 6.
Qed.

Lemma rate_within_limit_witness :
  let key := fun _ : nat => "rate_limit:f" in
  let func := fun n : nat => (Ok (S n), 1%Qc) in
  let w := fresh_world (Args:=nat) in
  next_count w (key 5%nat) <= 2 /\
  fst (wrapped_func (V:=unit) key 2 60 None _default_action func 5%nat w) = Ok 6%nat.
Proof.
  intros key func w.
  assert (Hle : next_count w (key 5%nat) <= 2) by (vm_compute; discriminate).
  split; [exact Hle |].
  apply (proj1 (rate_within_limit (V:=unit) key 2 60 None _default_action func
                  5%nat w Hle)).
Defined.

Lemma rate_limit_sequence_witness :
  let key := fun _ : nat => "rate_limit:f" in
  let func := fun n : nat => (Ok (S n), 1%Qc) in
  let w := fresh_world (Args:=nat) in
  let call := rate_limit (V:=unit) key 2 60 None None func in
  counters w !! key 5%nat = None /\
  fst (call 5%nat (after_calls call 5%nat 1 w)) = Ok 6%nat /\
  fst (call 5%nat (after_calls call 5%nat 2 w)) = Raise RateLimitException.
Proof.
  intros key func w call.
  assert (Hnew : counters w !! key 5%nat = None) by reflexivity.
  split; [exact Hnew |]. split.
  - apply (proj1 (rate_limit_sequence key 2 60 None func 5%nat w 1 Hnew)).
  - apply (proj1 (rate_limit_sequence key 2 60 None func 5%nat w 2 Hnew)).
Defined.

Lemma perf_trace_bounded_witness :
  let key := fun _ : nat => "perf:f:10" in
  let func := fun n : nat => (Ok n, 1%Qc) in
  let w := World (Args:=nat) ∅ ∅ ∅ 0%Qc [1%Qc; 1%Qc; 1%Qc] [] in
  (length (call_results w) <= 3)%nat /\
  (length (call_results (snd (_wrap key 10 3 _default_perf_condition func 5%nat w)))
   <= 3)%nat.
Proof.
  intros key func w.
  assert (Hcap : (length (call_results w) <= 3)%nat) by (cbn; lia).
  split; [exact Hcap |].
  apply (proj1 (perf_trace_bounded key 10 3 _default_perf_condition func 5%nat w Hcap)).
Defined.

Lemma perf_trace_bounded_always_witness :
  let key := fun _ : nat => "perf:f:10" in
  let func := fun n : nat => (Ok n, 1%Qc) in
  call_results (fresh_world (Args:=nat)) = [] /\
  (length (call_results
             (after_calls (_wrap key 10 3 _default_perf_condition func) 5%nat 7
                fresh_world)) <= 3)%nat.
Proof.
  intros key func. split; [reflexivity |].
  apply (perf_trace_bounded_always key 10 3 _default_perf_condition func 5%nat
           fresh_world 7 eq_refl).
Defined.

Lemma perf_breaker_trips_witness :
  let key := fun _ : nat => "perf:f:10" in
  let func := fun n : nat => (Ok n, Q2Qc (inject_Z 3)) in
  let w := World (Args:=nat) ∅ ∅ ∅ 0%Qc [1%Qc; 1%Qc; 1%Qc] [] in
  let w' := snd (_wrap key 10 3 _default_perf_condition func 5%nat w) in
  lock_tbl w !! lock_key key 5%nat = None /\
  fst (func 5%nat) = Ok 5%nat /\
  length (call_results w) = 3%nat /\
  _default_perf_condition (snd (func 5%nat)) (call_results w) = Ok true /\
  fst (_wrap key 10 3 _default_perf_condition func 6%nat w') =
    Raise PerfDegradationException.
Proof.
  intros key func w w'.
  assert (Hcond : _default_perf_condition (snd (func 5%nat)) (call_results w) = Ok true)
    by reflexivity.
  split; [reflexivity |]. split; [reflexivity |]. split; [reflexivity |].
  split; [exact Hcond |].
  apply (proj1 (perf_breaker_trips key 10 3 _default_perf_condition func 5%nat w
                  5%nat eq_refl eq_refl eq_refl Hcond)).
  reflexivity.
Defined.

Lemma perf_zero_trace_default_condition_witness :
  let key := fun _ : nat => "perf:f:10" in
  let func := fun n : nat => (Ok n, 1%Qc) in
  let w := fresh_world (Args:=nat) in
  lock_tbl w !! lock_key key 5%nat = None /\
  call_results w = [] /\
  fst (func 5%nat) = Ok 5%nat /\
  fst (perf key 10 0 None func 5%nat w) = Raise StatisticsError.
Proof.
  intros key func w.
  split; [reflexivity |]. split; [reflexivity |]. split; [reflexivity |].
  apply (proj1 (perf_zero_trace_default_condition key 10 func 5%nat w 5%nat
                  eq_refl eq_refl eq_refl)).
Defined.

End PolicyMore.

Module PerfConditionMore.
Import Policy More PolicyFacts.

Lemma Q2Qc_of_nat_S (n : nat) :
  Q2Qc (inject_Z (Z.of_nat (S n))) = (1 + Q2Qc (inject_Z (Z.of_nat n)))%Qc.
Proof.
  apply Qc_is_canon. rewrite Nat2Z.inj_succ. unfold Z.succ.
  rewrite inject_Z_plus. cbn [this Qcplus Q2Qc].
  rewrite !Qred_correct. ring.
Qed.

Lemma Q2Qc_of_nat_nonzero (n : nat) : Q2Qc (inject_Z (Z.of_nat (S n))) <> 0%Qc.
Proof.
  intros Habs. apply (f_equal this) in Habs. cbn [this Q2Qc] in Habs.
  change (this 0%Qc) with (Qred (inject_Z 0)) in Habs.
  apply Qred_eq_iff in Habs. unfold Qeq in Habs. cbn [Qnum Qden inject_Z] in Habs.
  lia.
Qed.

Lemma Qc_sum_repeat (t : Qc) (n : nat) :
  Qc_sum (repeat t n) = (Q2Qc (inject_Z (Z.of_nat n)) * t)%Qc.
Proof.
  induction n as [| n IH].
  - cbn [repeat Qc_sum]. change (Q2Qc (inject_Z (Z.of_nat 0))) with 0%Qc. ring.
  - cbn [repeat Qc_sum]. rewrite IH, Q2Qc_of_nat_S. ring.
Qed.

Lemma mean_repeat (t : Qc) (n : nat) : mean (repeat t (S n)) = Ok t.
Proof.
  unfold mean. rewrite repeat_length.
  change (repeat t (S n)) with (t :: repeat t n) at 1.
  rewrite Qc_sum_repeat. f_equal. field. apply Q2Qc_of_nat_nonzero.
Qed.

Lemma Qc_two : Q2Qc (inject_Z 2) = (1 + 1)%Qc.
Proof. apply Qc_is_canon. reflexivity. Qed.

Lemma Qc_ltb_lt (a b : Qc) : Qc_ltb a b = true <-> (a < b)%Qc.
Proof.
  unfold Qc_ltb. rewrite Qclt_alt.
  destruct (a ?= b)%Qc; split; intros Hab; congruence.
Qed.

(** The default condition on a steady trace: when every recorded duration
    is [t], the condition holds exactly when the current duration is more
    than twice [t]; on an empty trace it has no answer and raises
    [StatisticsError]. *)
Theorem default_condition_steady_trace (t current : Qc) (n : nat) :
  _default_perf_condition current [] = Raise StatisticsError /\
  exists fires,
    _default_perf_condition current (repeat t (S n)) = Ok fires /\
    (fires = true <-> (t + t < current)%Qc).
Proof.
  split; [reflexivity |].
  unfold _default_perf_condition. rewrite mean_repeat. cbn [rbind].
  eexists. split; [reflexivity |].
  rewrite Qc_ltb_lt, Qc_two.
  replace (t * (1 + 1))%Qc with (t + t)%Qc by ring. reflexivity.
Qed.

End PerfConditionMore.
